(** * json_flattener: a shallow embedding of [gisv2_app.py]

    The development follows the core of the application, leaf first:
    the flattener ([flatten_json_data]), the SEC GIS mapper
    ([map_sec_gis_fields]), value normalisation ([normalize_value]), the
    similarity scorer ([similarity_score], on top of [difflib]'s
    [SequenceMatcher]) and the reconciliation loop
    ([compare_with_ground_truth]); then the structure analyzer
    ([analyze_json_structure]), [format_field_name] and the summary of a
    comparison ([create_comparison_summary]).

    Conventions of the embedding.
    - A Python [str] is a [string]: the sequence of its UTF-8 bytes.
      [code_points] gives its characters; [strip] trims the white space of
      Unicode; [lower] is the ASCII lowering on ASCII text and the run
      time's elsewhere.
    - A Python [dict] is an association list in insertion order whose keys
      are pairwise distinct ([dict_set] keeps that shape).
    - A Python value (the [Any] of the type hints: what [json.loads]
      returns, or a cell of a data frame) is a [value].
    - A float produced by [SequenceMatcher.ratio] is the rational it rounds;
      the two thresholds 0.9 and 0.7 are compared exactly.
    - [repr] of a [str], [json.loads] and the lowering of text that is
      not ASCII belong to the Python run time and are parameters of the
      development. *)

From Stdlib Require Import String Ascii List ZArith QArith Lia Bool Arith.
From Stdlib Require Import DecimalString Sorted.
From Stdlib Require DecimalNat.
Import ListNotations.

Set Warnings "-register-all".

Local Open Scope string_scope.

(* ================================================================== *)
(** * Python strings *)
(* ================================================================== *)

Definition is_upper (c : ascii) : bool :=
  (65 <=? nat_of_ascii c)%nat && (nat_of_ascii c <=? 90)%nat.

Definition lower_char (c : ascii) : ascii :=
  if is_upper c then ascii_of_nat (nat_of_ascii c + 32) else c.

(** The letters A to Z of a string put in lower case; every other byte
    is kept. *)
Fixpoint lower_ascii (s : string) : string :=
  match s with
  | EmptyString => EmptyString
  | String c s' => String (lower_char c) (lower_ascii s')
  end.

(** ASCII text: every byte is below 128, and is a character. *)
Fixpoint is_ascii (s : string) : bool :=
  match s with
  | EmptyString => true
  | String c s' => (nat_of_ascii c <? 128)%nat && is_ascii s'
  end.

(** What the development takes from the Unicode database of the run
    time: [s.lower()] on text that is not ASCII (the case table, and the
    context rule of the final sigma).  The result is not empty when [s] is
    not, and it holds no ASCII capital: lowering A to Z in it changes
    nothing. *)
Class Unicode : Type := {
  unicode_lower : string -> string;
  unicode_lower_nonempty : forall s, s <> "" -> unicode_lower s <> "";
  unicode_lower_lower_ascii : forall s, lower_ascii (unicode_lower s) = unicode_lower s
}.

(** [s.lower()] *)
Definition lower {U : Unicode} (s : string) : string :=
  if is_ascii s then lower_ascii s else unicode_lower s.

(** A byte that continues a character in UTF-8: 10xxxxxx. *)
Definition is_continuation (c : ascii) : bool :=
  (128 <=? nat_of_ascii c)%nat && (nat_of_ascii c <? 192)%nat.

(** The characters (code points) of a string, each with the bytes that
    encode it: a byte and the continuation bytes that follow it. *)
Fixpoint code_points (s : string) : list string :=
  match s with
  | EmptyString => []
  | String c s' =>
      let rest := code_points s' in
      match s' with
      | String c' _ =>
          if is_continuation c'
          then match rest with
               | p :: rest' => String c p :: rest'
               | [] => [String c EmptyString]
               end
          else String c EmptyString :: rest
      | EmptyString => [String c EmptyString]
      end
  end.

(** The string made of a list of characters. *)
Definition str_of_code_points (l : list string) : string :=
  fold_right append EmptyString l.

(** The string of a list of bytes. *)
Definition bytes (l : list nat) : string :=
  string_of_list_ascii (map ascii_of_nat l).

(** White space among the ASCII characters: TAB, LF, VT, FF, CR, FS, GS,
    RS, US and the space. *)
Definition is_space (c : ascii) : bool :=
  let n := nat_of_ascii c in
  ((9 <=? n)%nat && (n <=? 13)%nat) || ((28 <=? n)%nat && (n <=? 32)%nat).

(** White space outside ASCII, in UTF-8: U+0085, U+00A0, U+1680, U+2000
    to U+200A, U+2028, U+2029, U+202F, U+205F and U+3000. *)
Definition unicode_whitespace : list string :=
  map bytes
    [ [194; 133]; [194; 160]; [225; 154; 128];
      [226; 128; 128]; [226; 128; 129]; [226; 128; 130]; [226; 128; 131];
      [226; 128; 132]; [226; 128; 133]; [226; 128; 134]; [226; 128; 135];
      [226; 128; 136]; [226; 128; 137]; [226; 128; 138];
      [226; 128; 168]; [226; 128; 169]; [226; 128; 175]; [226; 129; 159];
      [227; 128; 128] ]%nat.

(** White space as [str.strip] and [str.isspace] see it. *)
Definition is_whitespace (p : string) : bool :=
  match p with
  | String c EmptyString => is_space c
  | _ => existsb (String.eqb p) unicode_whitespace
  end.

Fixpoint lstrip (l : list string) : list string :=
  match l with
  | [] => []
  | p :: l' => if is_whitespace p then lstrip l' else l
  end.

Fixpoint rstrip (l : list string) : list string :=
  match l with
  | [] => []
  | p :: l' =>
      match rstrip l' with
      | [] => if is_whitespace p then [] else [p]
      | r => p :: r
      end
  end.

(** [s.strip()] *)
Definition strip (s : string) : string :=
  str_of_code_points (rstrip (lstrip (code_points s))).

(** [s.startswith(p)] *)
Definition startswith (s p : string) : bool := prefix p s.

(** [s.replace(old, new)] for a non-empty [old]: the occurrences of [old]
    are replaced from left to right, without overlap.  [skip] counts the
    characters of an occurrence that is being consumed. *)
Fixpoint replace_from (old new : string) (skip : nat) (s : string) : string :=
  match s with
  | EmptyString => EmptyString
  | String c s' =>
      match skip with
      | S k => replace_from old new k s'
      | O =>
          if prefix old s
          then new ++ replace_from old new (String.length old - 1) s'
          else String c (replace_from old new 0 s')
      end
  end.

Definition replace (old new s : string) : string := replace_from old new 0 s.

(** [sep.join(parts)] *)
Fixpoint join (sep : string) (parts : list string) : string :=
  match parts with
  | [] => ""
  | [p] => p
  | p :: rest => p ++ sep ++ join sep rest
  end.

(** [str(n)] for a non-negative and for an arbitrary [int]. *)
Definition str_of_nat (n : nat) : string := NilZero.string_of_uint (Nat.to_uint n).
Definition str_of_int (n : Z) : string := NilZero.string_of_int (Z.to_int n).

(** Truth value of a [str]: it is not empty. *)
Definition nonempty (s : string) : bool :=
  match s with EmptyString => false | _ => true end.

(** [x in l] for a list of strings. *)
Definition mem (x : string) (l : list string) : bool := existsb (String.eqb x) l.

(* ================================================================== *)
(** * Python dictionaries with [str] keys *)
(* ================================================================== *)

Definition dict (V : Type) : Type := list (string * V).

(** [d.items()], [d.keys()], [d.values()] *)
Definition items {V} (d : dict V) : list (string * V) := d.
Definition keys {V} (d : dict V) : list string := map fst d.
Definition values {V} (d : dict V) : list V := map snd d.

(** [d.get(k)] *)
Fixpoint dict_get {V} (d : dict V) (k : string) : option V :=
  match d with
  | [] => None
  | (k', v) :: rest => if String.eqb k' k then Some v else dict_get rest k
  end.

(** [k in d] *)
Definition dict_mem {V} (d : dict V) (k : string) : bool :=
  match dict_get d k with Some _ => true | None => false end.

(** [d.get(k, default)] *)
Definition dict_get_default {V} (d : dict V) (k : string) (default : V) : V :=
  match dict_get d k with Some v => v | None => default end.

(** [d[k] = v]: a key that is present keeps its place and takes the new
    value, a new key goes to the end. *)
Fixpoint dict_set {V} (d : dict V) (k : string) (v : V) : dict V :=
  match d with
  | [] => [(k, v)]
  | (k', v') :: rest =>
      if String.eqb k' k then (k', v) :: rest else (k', v') :: dict_set rest k v
  end.

(** [dict(pairs)], and a dictionary display [{k1: v1, k2: v2, ...}], whose
    entries are stored in the order written. *)
Definition dict_of_items {V} (pairs : list (string * V)) : dict V :=
  fold_left (fun d kv => dict_set d (fst kv) (snd kv)) pairs [].

(** [d.update(other)] *)
Definition dict_update {V} (d other : dict V) : dict V :=
  fold_left (fun d kv => dict_set d (fst kv) (snd kv)) (items other) d.

(** The same dictionary with [f] applied to every value. *)
Definition dict_map {V W} (f : V -> W) (d : dict V) : dict W :=
  map (fun kv => (fst kv, f (snd kv))) d.

(* ================================================================== *)
(** * Python values *)
(* ================================================================== *)

(** What [json.loads] returns and what a cell of a data frame holds.  A
    float is carried by the text [repr] prints for it: the program never
    computes with one, it only prints it. *)
Inductive value : Type :=
| VNone
| VBool (b : bool)
| VInt (n : Z)
| VFloat (repr : string)
| VStr (s : string)
| VList (elems : list value)
| VDict (entries : list (string * value)).

(** [isinstance(v, (dict, list))] *)
Definition is_dict_or_list (v : value) : bool :=
  match v with
  | VList _ | VDict _ => true
  | _ => false
  end.

(** The scalars of JSON: null, a boolean, a number or a string. *)
Definition is_scalar (v : value) : bool := negb (is_dict_or_list v).

(** Truth value of a Python value ([not v] is its negation). *)
Definition truthy (v : value) : bool :=
  match v with
  | VNone => false
  | VBool b => b
  | VInt n => negb (n =? 0)%Z
  | VFloat r => negb (String.eqb r "0.0" || String.eqb r "-0.0")
  | VStr s => nonempty s
  | VList l => match l with [] => false | _ => true end
  | VDict l => match l with [] => false | _ => true end
  end.

(** Induction on values that reaches the elements of lists and the values
    of dictionaries. *)
Section ValueInduction.

Variable P : value -> Prop.
Hypothesis HNone : P VNone.
Hypothesis HBool : forall b, P (VBool b).
Hypothesis HInt : forall n, P (VInt n).
Hypothesis HFloat : forall r, P (VFloat r).
Hypothesis HStr : forall s, P (VStr s).
Hypothesis HList : forall l, Forall P l -> P (VList l).
Hypothesis HDict : forall l, Forall (fun kv => P (snd kv)) l -> P (VDict l).

Fixpoint value_nested_ind (v : value) : P v :=
  match v with
  | VNone => HNone
  | VBool b => HBool b
  | VInt n => HInt n
  | VFloat r => HFloat r
  | VStr s => HStr s
  | VList l =>
      HList l
        ((fix go (l : list value) : Forall P l :=
            match l with
            | [] => Forall_nil _
            | x :: r => Forall_cons _ (value_nested_ind x) (go r)
            end) l)
  | VDict l =>
      HDict l
        ((fix go (l : list (string * value)) : Forall (fun kv => P (snd kv)) l :=
            match l with
            | [] => Forall_nil _
            | (k, x) :: r =>
                Forall_cons (P := fun kv => P (snd kv)) (k, x) (value_nested_ind x) (go r)
            end) l)
  end.

End ValueInduction.

(* ================================================================== *)
(** * The flattener *)
(* ================================================================== *)

(** [flatten_dict(obj, parent_key, sep)]: the pairs collected in [items],
    then [dict(items)]. *)
Fixpoint flatten_dict (obj : value) (parent_key sep : string) : dict value :=
  match obj with
  | VDict entries =>
      dict_of_items
        ((fix loop (l : list (string * value)) : list (string * value) :=
            match l with
            | [] => []
            | (key, v) :: rest =>
                ((let new_key :=
                   if nonempty parent_key then (parent_key ++ sep ++ key)%string else key in
                 items (flatten_dict v new_key sep)) ++ loop rest)%list
            end) entries)
  | VList [] => dict_of_items [(parent_key, VStr "[]")]
  | VList elems =>
      dict_of_items
        ((fix loop (i : nat) (l : list value) : list (string * value) :=
            match l with
            | [] => []
            | item :: rest =>
                ((let new_key := (parent_key ++ sep ++ str_of_nat i)%string in
                 if is_dict_or_list item
                 then items (flatten_dict item new_key sep)
                 else [(new_key, item)]) ++ loop (S i) rest)%list
            end) 0%nat elems)
  | _ => dict_of_items [(parent_key, obj)]
  end.

(** The pairs the two loops of [flatten_dict] collect in [items]: the
    loop over the entries of a dictionary, and the loop over the elements
    of a list, counted from [i]. *)
Fixpoint flatten_entries (parent_key sep : string) (entries : list (string * value))
  : list (string * value) :=
  match entries with
  | [] => []
  | (key, v) :: rest =>
      let new_key :=
        if nonempty parent_key then (parent_key ++ sep ++ key)%string else key in
      (items (flatten_dict v new_key sep) ++ flatten_entries parent_key sep rest)%list
  end.

Fixpoint flatten_elems (parent_key sep : string) (i : nat) (elems : list value)
  : list (string * value) :=
  match elems with
  | [] => []
  | item :: rest =>
      let new_key := (parent_key ++ sep ++ str_of_nat i)%string in
      ((if is_dict_or_list item
        then items (flatten_dict item new_key sep)
        else [(new_key, item)]) ++ flatten_elems parent_key sep (S i) rest)%list
  end.

(* ================================================================== *)
(** * [difflib.SequenceMatcher] *)
(* ================================================================== *)

(** The part of [SequenceMatcher(None, a, b)] that [ratio()] runs
    ([Lib/difflib.py] of CPython 3: [__chain_b], [find_longest_match],
    [get_matching_blocks], [ratio] and [_calculate_ratio]), for sequences
    over any type with an equality test.  [isjunk] is [None], so
    the set [bjunk] is empty; [autojunk] has its default, [True].  Indices
    are natural numbers; every subtraction below is one Python performs on
    values where it does not go below zero. *)

(** A matching block [(i, j, k)]: [a[i:i+k] == b[j:j+k]]. *)
Definition Match : Type := nat * nat * nat.

Section SequenceMatcher.

Variable A : Type.
Variable eqb : A -> A -> bool.

(** The indices of [x] in [b], in increasing order, counted from [j]. *)
Fixpoint indices_from (x : A) (j : nat) (b : list A) : list nat :=
  match b with
  | [] => []
  | y :: b' =>
      if eqb y x then j :: indices_from x (S j) b' else indices_from x (S j) b'
  end.

(** [__chain_b]: an element is popular when [b] has at least 200 elements
    and the element occurs more than [len(b) // 100 + 1] times. *)
Definition popular (b : list A) (x : A) : bool :=
  (200 <=? length b)%nat
  && (length b / 100 + 1 <? length (indices_from x 0 b))%nat.

(** [b2j.get(x, [])] once [__chain_b] has purged the popular elements:
    the dictionary [b2j] is read as the function it tabulates. *)
Definition b2j (b : list A) (x : A) : list nat :=
  if popular b x then [] else indices_from x 0 b.

(** [isbjunk(x)]: membership in the empty set [bjunk]. *)
Definition isbjunk (x : A) : bool := false.

Definition isbjunk_at (b : list A) (j : nat) : bool :=
  match nth_error b j with
  | Some x => isbjunk x
  | None => false
  end.

(** [a[i] == b[j]] *)
Definition same_at (a b : list A) (i j : nat) : bool :=
  match nth_error a i, nth_error b j with
  | Some x, Some y => eqb x y
  | _, _ => false
  end.

(** [j2len.get(j - 1, 0)]: no key is negative. *)
Definition j2lenget (j2len : nat -> nat) (j : nat) : nat :=
  match j with
  | O => O
  | S j' => j2len j'
  end.

(** The inner loop of [find_longest_match], [for j in b2j.get(a[i], nothing)].
    The dictionaries [j2len] and [newj2len] are functions that are 0 where
    the dictionary has no key.  [i - k + 1] is written [i + 1 - k]. *)
Fixpoint scan_row (blo bhi i : nat) (j2len : nat -> nat) (js : list nat)
    (newj2len : nat -> nat) (best : Match) : (nat -> nat) * Match :=
  match js with
  | [] => (newj2len, best)
  | j :: js' =>
      if (j <? blo)%nat then scan_row blo bhi i j2len js' newj2len best
      else if (bhi <=? j)%nat then (newj2len, best)
      else
        let k := (j2lenget j2len j + 1)%nat in
        let newj2len' := fun x => if (x =? j)%nat then k else newj2len x in
        let '(besti, bestj, bestsize) := best in
        let best' :=
          if (bestsize <? k)%nat then ((i + 1 - k)%nat, (j + 1 - k)%nat, k) else best in
        scan_row blo bhi i j2len js' newj2len' best'
  end.

(** The outer loop, [for i in range(alo, ahi)]. *)
Fixpoint scan_rows (a b : list A) (blo bhi : nat) (rows : list nat)
    (j2len : nat -> nat) (best : Match) : Match :=
  match rows with
  | [] => best
  | i :: rows' =>
      let js := match nth_error a i with Some x => b2j b x | None => [] end in
      let '(newj2len, best') := scan_row blo bhi i j2len js (fun _ => O) best in
      scan_rows a b blo bhi rows' newj2len best'
  end.

(** [while besti > alo and bestj > blo and (junk test) and
     a[besti-1] == b[bestj-1]]: the first of these loops asks for
    [not isbjunk(...)], the second for [isbjunk(...)].  The loop runs at
    most [besti] times, which is the fuel [find_longest_match] gives it. *)
Fixpoint extend_left (a b : list A) (alo blo : nat) (junk : bool) (fuel : nat)
    (best : Match) : Match :=
  match fuel with
  | O => best
  | S fuel' =>
      let '(besti, bestj, bestsize) := best in
      if (alo <? besti)%nat && (blo <? bestj)%nat
         && Bool.eqb (isbjunk_at b (bestj - 1)) junk
         && same_at a b (besti - 1) (bestj - 1)
      then extend_left a b alo blo junk fuel'
             ((besti - 1)%nat, (bestj - 1)%nat, (bestsize + 1)%nat)
      else best
  end.

(** [while besti+bestsize < ahi and bestj+bestsize < bhi and (junk test)
     and a[besti+bestsize] == b[bestj+bestsize]]; it runs at most
    [ahi - (besti + bestsize)] times. *)
Fixpoint extend_right (a b : list A) (ahi bhi : nat) (junk : bool) (fuel : nat)
    (best : Match) : Match :=
  match fuel with
  | O => best
  | S fuel' =>
      let '(besti, bestj, bestsize) := best in
      if (besti + bestsize <? ahi)%nat && (bestj + bestsize <? bhi)%nat
         && Bool.eqb (isbjunk_at b (bestj + bestsize)) junk
         && same_at a b (besti + bestsize) (bestj + bestsize)
      then extend_right a b ahi bhi junk fuel' (besti, bestj, (bestsize + 1)%nat)
      else best
  end.

Definition left_fuel (best : Match) : nat := fst (fst best).
Definition right_fuel (ahi : nat) (best : Match) : nat :=
  (ahi - (fst (fst best) + snd best))%nat.

(** [find_longest_match(alo, ahi, blo, bhi)] *)
Definition find_longest_match (a b : list A) (alo ahi blo bhi : nat) : Match :=
  let best := scan_rows a b blo bhi (seq alo (ahi - alo)) (fun _ => O) (alo, blo, O) in
  let best := extend_left a b alo blo false (left_fuel best) best in
  let best := extend_right a b ahi bhi false (right_fuel ahi best) best in
  let best := extend_left a b alo blo true (left_fuel best) best in
  extend_right a b ahi bhi true (right_fuel ahi best) best.

(** The [while queue] loop of [get_matching_blocks].  [queue.pop()] takes
    the element appended last: the queue is kept with that element first.
    The result is [None] when the fuel runs out before the queue does. *)
Fixpoint blocks_loop (a b : list A) (fuel : nat) (queue : list (nat * nat * nat * nat))
    (matching_blocks : list Match) : option (list Match) :=
  match queue with
  | [] => Some matching_blocks
  | (alo, ahi, blo, bhi) :: queue' =>
      match fuel with
      | O => None
      | S fuel' =>
          let '(i, j, k) := find_longest_match a b alo ahi blo bhi in
          if (k =? 0)%nat then blocks_loop a b fuel' queue' matching_blocks
          else
            let queue1 :=
              if (alo <? i)%nat && (blo <? j)%nat
              then (alo, i, blo, j) :: queue' else queue' in
            let queue2 :=
              if (i + k <? ahi)%nat && (j + k <? bhi)%nat
              then ((i + k)%nat, ahi, (j + k)%nat, bhi) :: queue1 else queue1 in
            blocks_loop a b fuel' queue2 (matching_blocks ++ [(i, j, k)])%list
      end
  end.

(** Tuples compare lexicographically. *)
Definition block_leb (x y : Match) : bool :=
  let '(i1, j1, k1) := x in
  let '(i2, j2, k2) := y in
  (i1 <? i2)%nat
  || ((i1 =? i2)%nat && ((j1 <? j2)%nat || ((j1 =? j2)%nat && (k1 <=? k2)%nat))).

Fixpoint insert_block (x : Match) (l : list Match) : list Match :=
  match l with
  | [] => [x]
  | y :: l' => if block_leb x y then x :: l else y :: insert_block x l'
  end.

(** [matching_blocks.sort()] *)
Definition sort_blocks (l : list Match) : list Match :=
  fold_right insert_block [] l.

(** The loop that collapses adjacent blocks, with the block
    [(i1, j1, k1)] it compares against. *)
Fixpoint collapse (i1 j1 k1 : nat) (blocks non_adjacent : list Match) : list Match :=
  match blocks with
  | [] => if (k1 =? 0)%nat then non_adjacent else (non_adjacent ++ [(i1, j1, k1)])%list
  | (i2, j2, k2) :: rest =>
      if (i1 + k1 =? i2)%nat && (j1 + k1 =? j2)%nat
      then collapse i1 j1 (k1 + k2)%nat rest non_adjacent
      else
        collapse i2 j2 k2 rest
          (if (k1 =? 0)%nat then non_adjacent else (non_adjacent ++ [(i1, j1, k1)])%list)
  end.

(** Every pass of the [while queue] loop that finds a block shortens the
    ranges left to examine, so [2 * len(a) + 1] passes empty the queue. *)
Definition queue_fuel (a : list A) : nat := (2 * length a + 1)%nat.

(** [get_matching_blocks()] *)
Definition get_matching_blocks (a b : list A) : list Match :=
  let la := length a in
  let lb := length b in
  let matching_blocks :=
    match blocks_loop a b (queue_fuel a) [(O, la, O, lb)] [] with
    | Some blocks => blocks
    | None => []
    end in
  let non_adjacent := collapse O O O (sort_blocks matching_blocks) [] in
  (non_adjacent ++ [(la, lb, O)])%list.

(** [_calculate_ratio(matches, length)], as an exact rational. *)
Definition calculate_ratio (matches length : nat) : Q :=
  match length with
  | O => 1
  | S _ => Qmake (2 * Z.of_nat matches) (Pos.of_nat length)
  end.

(** [ratio()] *)
Definition ratio (a b : list A) : Q :=
  let matches := fold_right (fun triple acc => (snd triple + acc)%nat) O
                   (get_matching_blocks a b) in
  calculate_ratio matches (length a + length b).

End SequenceMatcher.

Arguments indices_from {A} eqb x j b.
Arguments popular {A} eqb b x.
Arguments b2j {A} eqb b x.
Arguments isbjunk {A} x.
Arguments isbjunk_at {A} b j.
Arguments same_at {A} eqb a b i j.
Arguments scan_rows {A} eqb a b blo bhi rows j2len best.
Arguments extend_left {A} eqb a b alo blo junk fuel best.
Arguments extend_right {A} eqb a b ahi bhi junk fuel best.
Arguments find_longest_match {A} eqb a b alo ahi blo bhi.
Arguments blocks_loop {A} eqb a b fuel queue matching_blocks.
Arguments queue_fuel {A} a.
Arguments get_matching_blocks {A} eqb a b.
Arguments ratio {A} eqb a b.

(** [similarity_score(val1, val2)]: the sequences compared are the
    characters of the two lowered strings. *)
Definition similarity_score {U : Unicode} (val1 val2 : string) : Q :=
  if String.eqb val1 val2 then 1
  else ratio String.eqb (code_points (lower val1)) (code_points (lower val2)).

(* ================================================================== *)
(** * Exceptions, and the Python run time *)
(* ================================================================== *)

(** The exceptions the modelled functions can raise. *)
Inductive exn : Type :=
| ValueError        (* raised by [flatten_json_data] on text that is not JSON *)
| JSONDecodeError   (* raised by [json.loads] *)
| AttributeError.   (* a method looked up on a value that does not have it *)

Inductive result (A : Type) : Type :=
| Ok (a : A)
| Raise (e : exn).

Arguments Ok {A} a.
Arguments Raise {A} e.

Section Runtime.

Context {U : Unicode}.

(** [repr(s)] of a [str]: the quoted, escaped text.  It is reached only
    when a list or a dictionary is printed. *)
Variable repr_str : string -> string.

(** [json.loads(text)]: [None] stands for [json.JSONDecodeError]. *)
Variable json_loads : string -> option value.

(** [repr(v)] *)
Fixpoint py_repr (v : value) : string :=
  match v with
  | VNone => "None"
  | VBool true => "True"
  | VBool false => "False"
  | VInt n => str_of_int n
  | VFloat r => r
  | VStr s => repr_str s
  | VList elems => "[" ++ join ", " (map py_repr elems) ++ "]"
  | VDict entries =>
      "{" ++ join ", " (map (fun '(k, x) => repr_str k ++ ": " ++ py_repr x) entries) ++ "}"
  end.

(** [str(v)]: a [str] is itself, everything else prints as [repr] does. *)
Definition py_str (v : value) : string :=
  match v with
  | VStr s => s
  | _ => py_repr v
  end.

(** [flatten_json_data(json_data)]: text is parsed first, and a parse
    error becomes a [ValueError]; a parsed structure is flattened as it is. *)
Definition flatten_json_data (json_data : value) : result (dict value) :=
  match json_data with
  | VStr text =>
      match json_loads text with
      | Some data => Ok (flatten_dict data "" "_")
      | None => Raise ValueError
      end
  | data => Ok (flatten_dict data "" "_")
  end.

(* ================================================================== *)
(** * The SEC GIS mapper *)
(* ================================================================== *)

(** The displays and assignments of [map_sec_gis_fields] all have the
    form [label: data.get(key, "")].  Each table below lists, in the order
    of the source, the label and the key of one such entry; [lookup_all]
    evaluates the right-hand sides. *)

Definition field_mapping_display : list (string * string) :=
  [ ("Document Type", "document_type");
    ("For the year", "for_the_year");
    ("Corporate Name", "business_trade_name");
    ("Business/Trade Name", "business_trade_name");
    ("Date Registered", "date_registered");
    ("Fiscal Year End", "fiscal_year_end");
    ("SEC Registration Number", "sec_registration_number");
    ("Corporate TIN", "corporate_tin");
    ("Website/URL", "website_url");
    ("Principal Office Address", "principal_office_address");
    ("Business Address", "business_address");
    ("Official e-mail address", "official_email");
    ("Alternate Email Address", "alternate_email");
    ("Official Mobile Number", "official_mobile");
    ("Alternate Mobile Number", "alternate_mobile");
    ("Primary Purpose/Industry", "primary_purpose_industry");
    ("Industry Classification", "industry_classification");
    ("Geographical Code", "geographical_code");
    ("Parent Company Name", "parent_company_name");
    ("Parent Company SEC Reg. No.", "parent_company_sec_reg_no");
    ("Parent Company Address", "parent_company_address");
    ("Subsidiary/Affiliate", "subsidiary_affiliate");
    ("Subsidiary/Affiliate SEC Reg. No.", "subsidiary_affiliate_sec_reg_no");
    ("Subsidiary/Affiliate Address", "subsidiary_affiliate_address");
    ("External Auditor", "external_auditor");
    ("Auditor SEC Accreditation Number", "auditor_sec_accreditation_number");
    ("Covered Person (AML)", "covered_person_aml");
    ("AMLA Category 1", "amla_category_1");
    ("AMLA Category 2", "amla_category_2");
    ("AMLA Category 3", "amla_category_3");
    ("AMLA Category 4", "amla_category_4");
    ("AMLA Category 5", "amla_category_5");
    ("AMLA Category 6", "amla_category_6");
    ("AMLA Category 7", "amla_category_7");
    ("AMLA Category 8", "amla_category_8");
    ("AMLA Compliance Status", "amla_compliance_status");
    ("Corporate Name (2)", "business_trade_name");
    ("Corporate Name (3)", "business_trade_name");
    ("Auth Capital Stock - Type of Shares 1", "auth_capital_stock_type_of_shares_1");
    ("Auth Capital Stock - Number of Shares 1", "auth_capital_stock_number_of_shares_1");
    ("Auth Capital Stock - Par / Stated Value 1", "auth_capital_stock_par_stated_value_1");
    ("Auth Capital Stock - Amount (PhP) 1", "auth_capital_stock_amount_php_1");
    ("Filipino Subscribed Capital - Type of Shares 1", "filipino_subscribed_capital_type_of_shares_1");
    ("Filipino Subscribed Capital - Number of Shares 1", "filipino_subscribed_capital_number_of_shares_1");
    ("Filipino Subscribed Capital - Par / Stated Value 1", "filipino_subscribed_capital_par_stated_value_1");
    ("Filipino Subscribed Capital - Amount (PhP) 1", "filipino_subscribed_capital_amount_php_1");
    ("Foreign Subscribed Capital - Type of Shares 1", "foreign_subscribed_capital_type_of_shares_1");
    ("Foreign Subscribed Capital - Number of Shares 1", "foreign_subscribed_capital_number_of_shares_1");
    ("Foreign Subscribed Capital - Par / Stated Value 1", "foreign_subscribed_capital_par_stated_value_1");
    ("Foreign Subscribed Capital - Amount (PhP) 1", "foreign_subscribed_capital_amount_php_1");
    ("Subscribed Capital_% Foreigh Equity", "subscribed_capital_foreign_equity_percentage");
    ("Subscribed Capital_Total", "subscribed_capital_total");
    ("Filipino Paid-Up Capital - Type of Shares 1", "filipino_paid_up_capital_type_of_shares_1");
    ("Filipino Paid-up Capital Number of Shares 1", "filipino_paid_up_capital_number_of_shares_1");
    ("Filipino Paid-Up Capital - Par / Stated Value 1", "filipino_paid_up_capital_par_stated_value_1");
    ("Filipino Paid-Up Capital - Amount (PhP) 1", "filipino_paid_up_capital_amount_php_1");
    ("Foreign Paid-Up Capital - Type of Shares 1", "foreign_paid_up_capital_type_of_shares_1");
    ("Foreign Paid-up Capital Number of Shares 1", "foreign_paid_up_capital_number_of_shares_1");
    ("Foreign Paid-Up Capital - Par / Stated Value 1", "foreign_paid_up_capital_par_stated_value_1");
    ("Foreign Paid-Up Capital - Amount (PhP) 1", "foreign_paid_up_capital_amount_php_1");
    ("Paid-up Capital_% Foreigh Equity", "paid_up_capital_foreign_equity_percentage");
    ("Paid-Up Capital_Total", "paid_up_capital_total");
    ("Corporate Name (4)", "business_trade_name");
    ("Corporate Name (5)", "business_trade_name");
    ("Corporate Name (6)", "business_trade_name") ].

(** [for i in range(1, 21)]: the ten assignments of one director/officer. *)
Definition director_officer_assignments (i : nat) : list (string * string) :=
  [ ("Director/Officer " ++ str_of_nat i ++ " Name", "director_officer_name_" ++ str_of_nat i);
    ("Director/Officer " ++ str_of_nat i ++ " Address", "director_officer_address_" ++ str_of_nat i);
    ("Director/Officer " ++ str_of_nat i ++ " Nationality", "director_officer_nationality_" ++ str_of_nat i);
    ("Director/Officer " ++ str_of_nat i ++ " INC'R", "director_officer_inc_r_" ++ str_of_nat i);
    ("Director/Officer " ++ str_of_nat i ++ " Board", "director_officer_board_" ++ str_of_nat i);
    ("Director/Officer " ++ str_of_nat i ++ " Gender", "director_officer_gender_" ++ str_of_nat i);
    ("Director/Officer " ++ str_of_nat i ++ " Stock Holder", "director_officer_stock_holder_" ++ str_of_nat i);
    ("Director/Officer " ++ str_of_nat i ++ " Officer", "director_officer_officer_" ++ str_of_nat i);
    ("Director/Officer " ++ str_of_nat i ++ " Exec Comm.", "director_officer_exec_comm_" ++ str_of_nat i);
    ("Director/Officer " ++ str_of_nat i ++ " TIN", "director_officer_tin_" ++ str_of_nat i) ].

(** The first [field_mapping.update({...})]. *)
Definition stockholder_totals_display : list (string * string) :=
  [ ("Total Number of Stockholders", "total_number_stockholders");
    ("Number of Stockholders with ≥100 shares", "number_stockholders_100_plus_shares");
    ("Total Assets (Latest Audited FS)", "total_assets") ].

(** [for i in range(1, 11)]: the eight assignments of one stockholder. *)
Definition stockholder_assignments (i : nat) : list (string * string) :=
  [ ("Stockholder " ++ str_of_nat i ++ " Name", "stockholder_name_" ++ str_of_nat i);
    ("Stockholder " ++ str_of_nat i ++ " Nationality", "stockholder_nationality_" ++ str_of_nat i);
    ("Stockholder " ++ str_of_nat i ++ " Address", "stockholder_address_" ++ str_of_nat i);
    ("Stockholder " ++ str_of_nat i ++ " Total Shares Subscribed_No.", "stockholder_shares_subscribed_number_" ++ str_of_nat i);
    ("Stockholder " ++ str_of_nat i ++ " Total Shares Subscribed_Amount (PHP)", "stockholder_shares_subscribed_amount_" ++ str_of_nat i);
    ("Stockholder " ++ str_of_nat i ++ " % of Ownership", "stockholder_ownership_percentage_" ++ str_of_nat i);
    ("Stockholder " ++ str_of_nat i ++ " Amount Paid (PHP)", "stockholder_amount_paid_" ++ str_of_nat i);
    ("Stockholder " ++ str_of_nat i ++ " TIN", "stockholder_tin_" ++ str_of_nat i) ].

(** The second [field_mapping.update({...})]: its display names two labels
    twice. *)
Definition remaining_display : list (string * string) :=
  [ ("Subscribed Capital_Total (PHP) (from Stockholder detail pages)", "subscribed_capital_total_from_stockholders");
    ("Paid-Up Capital_Total (PHP) (from Stockholder detail pages)", "paid_up_capital_total_from_stockholders");
    ("Subscribed Capital_Total (PHP) (from Stockholder detail pages)", "filipino_subscribed_capital_amount_php_1");
    ("Paid-Up Capital_Total (PHP) (from Stockholder detail pages)", "filipino_paid_up_capital_amount_php_1");
    ("Unrestricted Retained Earnings (PHP)", "unrestricted_retained_earnings");
    ("Prior year Dividends_Cash (PHP)", "prior_year_dividends_cash");
    ("Prior year Dividends_Stock (PHP)", "prior_year_dividends_stock");
    ("Prior year Dividends_Property (PHP)", "prior_year_dividends_property");
    ("Prior year Dividends_Total (PHP)", "prior_year_dividends_total");
    ("Share Issuance_Date", "share_issuance_date");
    ("Share Issuance_No", "share_issuance_number");
    ("Share Issuance_Amount (PHP)", "share_issuance_amount");
    ("SEC License Type", "sec_license_type");
    ("SEC Licnese Date", "sec_license_date");
    ("SEC Ops start", "sec_ops_start");
    ("BSP License Type", "bsp_license_type");
    ("BSP Licnese Date", "bsp_license_date");
    ("BSP Ops start", "bsp_ops_start");
    ("IC License Type", "ic_license_type");
    ("IC Licnese Date", "ic_license_date");
    ("IC Ops start", "ic_ops_start");
    ("Total Comp (PHP)", "total_compensation");
    ("No Officers", "number_officers");
    ("No Employees", "number_employees");
    ("Total Manpower", "total_manpower");
    ("UBO_Name", "ubo_name");
    ("UBO_Address", "ubo_address");
    ("UBO_Naitonality", "ubo_nationality");
    ("UBO_DOB", "ubo_dob");
    ("UBO_TIN", "ubo_tin");
    ("UBO_% ownership", "ubo_ownership_percentage");
    ("UBO_Type", "ubo_type");
    ("UBO_Category", "ubo_category") ].

(** [range(lo, hi)] *)
Definition range (lo hi : nat) : list nat := seq lo (hi - lo).

(** The right-hand sides [data.get(key, "")] of a table. *)
Definition lookup_all {V} (data_get : string -> V) (table : list (string * string))
  : list (string * V) :=
  map (fun '(label, key) => (label, data_get key)) table.

(** A run of assignments [d[label] = value]. *)
Definition assign_all {V} (d : dict V) (pairs : list (string * V)) : dict V :=
  fold_left (fun d kv => dict_set d (fst kv) (snd kv)) pairs d.

(** [field_mapping] as it stands before the null values are cleaned,
    for any reading [data_get] of the source keys. *)
Definition build_field_mapping {V} (data_get : string -> V) : dict V :=
  let field_mapping := dict_of_items (lookup_all data_get field_mapping_display) in
  let field_mapping :=
    fold_left
      (fun fm i => assign_all fm (lookup_all data_get (director_officer_assignments i)))
      (range 1 21) field_mapping in
  let field_mapping :=
    dict_update field_mapping
      (dict_of_items (lookup_all data_get stockholder_totals_display)) in
  let field_mapping :=
    fold_left
      (fun fm i => assign_all fm (lookup_all data_get (stockholder_assignments i)))
      (range 1 11) field_mapping in
  dict_update field_mapping (dict_of_items (lookup_all data_get remaining_display)).

(** The catalog: which source key each output label finally reads. *)
Definition sec_gis_catalog : dict string := build_field_mapping (fun key => key).

(** The body of the cleaning loop:
    [if value is None or str(value).lower() == "null"]. *)
Definition clean_value (v : value) : string :=
  match v with
  | VNone => ""
  | _ => if String.eqb (lower (py_str v)) "null" then "" else py_str v
  end.

(** [for field, value in field_mapping.items(): cleaned_mapping[field] = ...] *)
Definition clean_mapping (field_mapping : dict value) : dict string :=
  fold_left
    (fun cleaned_mapping '(field, v) => dict_set cleaned_mapping field (clean_value v))
    (items field_mapping) [].

(** [map_sec_gis_fields(json_data)].  Text is parsed with [json.loads],
    whose error is not caught here; [data.get] needs a dictionary. *)
Definition map_sec_gis_fields (json_data : value) : result (dict string) :=
  let loaded :=
    match json_data with
    | VStr text =>
        match json_loads text with
        | Some data => Ok data
        | None => Raise JSONDecodeError
        end
    | data => Ok data
    end in
  match loaded with
  | Raise e => Raise e
  | Ok (VDict data) =>
      Ok (clean_mapping
            (build_field_mapping (fun key => dict_get_default data key (VStr ""))))
  | Ok _ => Raise AttributeError
  end.

(* ================================================================== *)
(** * The reconciliation engine *)
(* ================================================================== *)

(** [normalize_value(value)]: the folding of null spellings is commented
    out in the source. *)
Definition normalize_value (v : value) : string :=
  match v with
  | VNone => ""
  | _ => strip (py_str v)
  end.

(** A data frame of cells: its column labels (pairwise distinct) and its
    rows, each row holding one cell per column. *)
Record DataFrame : Type := {
  columns : list string;
  rows : list (list value)
}.

(** [row[col]]; a cell the row does not hold reads as pandas' missing
    value, the float [nan]. *)
Fixpoint row_get (cols : list string) (row : list value) (col : string) : value :=
  match cols, row with
  | c :: cols', cell :: row' => if String.eqb c col then cell else row_get cols' row' col
  | _, _ => VFloat "nan"
  end.

(** The status of a comparison row, and the text the source writes for it. *)
Inductive Status : Type :=
| PerfectMatch
| VeryClose
| Similar
| MissingInJson
| Mismatch.

Definition status_text (s : Status) : string :=
  match s with
  | PerfectMatch => "✅ Perfect Match"
  | VeryClose => "🟨 Very Close"
  | Similar => "🟧 Similar"
  | MissingInJson => "❓ Missing in JSON"
  | Mismatch => "❌ Mismatch"
  end.

(** One record of [comparison_results].  The source stores the score as
    text ([f"{score:.2%}"]); the record keeps the number. *)
Record ComparisonRow : Type := {
  Field : string;
  JSON_Value : string;
  Ground_Truth : string;
  Row_Status : Status;
  Similarity_Score : Q
}.

(** The "most comprehensive transform" of a field name. *)
Definition comprehensive_transform (field_name : string) : string :=
  replace "'" "" (replace "." "" (replace "≥" "" (replace ")" "" (replace "(" ""
    (replace "-" "_" (replace "/" "_" (replace " " "_" (lower field_name)))))))).

(** [base_transforms], as first written. *)
Definition base_transforms (field_name : string) : list string :=
  [ comprehensive_transform field_name;
    replace "-" "_" (replace "/" "_" (replace " " "_" field_name));
    replace " " "_" (lower field_name);
    lower (replace " " "" field_name) ].

(** The display [field_mappings = {...}], in the order written (some
    entries are written twice, with the same value). *)
Definition field_mappings : dict string :=
  dict_of_items
  [ ("Document Type", "document_type");
    ("For the year", "for_the_year");
    ("Corporate Name", "business_trade_name");
    ("Business/Trade Name", "business_trade_name");
    ("Date Registered", "date_registered");
    ("Fiscal Year End", "fiscal_year_end");
    ("SEC Registration Number", "sec_registration_number");
    ("Corporate TIN", "corporate_tin");
    ("Website/URL", "website_url");
    ("Principal Office Address", "principal_office_address");
    ("Business Address", "business_address");
    ("Official e-mail address", "official_email");
    ("Alternate Email Address", "alternate_email");
    ("Official Mobile Number", "official_mobile");
    ("Alternate Mobile Number", "alternate_mobile");
    ("Primary Purpose/Industry", "primary_purpose_industry");
    ("Industry Classification", "industry_classification");
    ("Geographical Code", "geographical_code");
    ("Parent Company Name", "parent_company_name");
    ("Parent Company SEC Reg. No.", "parent_company_sec_reg_no");
    ("Parent Company Address", "parent_company_address");
    ("Subsidiary/Affiliate", "subsidiary_affiliate");
    ("Subsidiary/Affiliate SEC Reg. No.", "subsidiary_affiliate_sec_reg_no");
    ("Subsidiary/Affiliate Address", "subsidiary_affiliate_address");
    ("External Auditor", "external_auditor");
    ("Auditor SEC Accreditation Number", "auditor_sec_accreditation_number");
    ("Covered Person (AML)", "covered_person_aml");
    ("AMLA Category 1", "amla_category_1");
    ("AMLA Category 2", "amla_category_2");
    ("AMLA Category 3", "amla_category_3");
    ("AMLA Category 4", "amla_category_4");
    ("AMLA Category 5", "amla_category_5");
    ("AMLA Category 6", "amla_category_6");
    ("AMLA Category 7", "amla_category_7");
    ("AMLA Category 8", "amla_category_8");
    ("AMLA Compliance Status", "amla_compliance_status");
    ("Auth Capital Stock - Type of Shares 1", "auth_capital_stock_type_of_shares_1");
    ("Auth Capital Stock - Number of Shares 1", "auth_capital_stock_number_of_shares_1");
    ("Auth Capital Stock - Par / Stated Value 1", "auth_capital_stock_par_stated_value_1");
    ("Auth Capital Stock - Amount (PhP) 1", "auth_capital_stock_amount_php_1");
    ("Authorized Capital Stock", "auth_capital_stock_amount_php_1");
    ("Filipino Subscribed Capital - Type of Shares 1", "filipino_subscribed_capital_type_of_shares_1");
    ("Filipino Subscribed Capital - Number of Shares 1", "filipino_subscribed_capital_number_of_shares_1");
    ("Filipino Subscribed Capital - Par / Stated Value 1", "filipino_subscribed_capital_par_stated_value_1");
    ("Filipino Subscribed Capital - Amount (PhP) 1", "filipino_subscribed_capital_amount_php_1");
    ("Foreign Subscribed Capital - Type of Shares 1", "foreign_subscribed_capital_type_of_shares_1");
    ("Foreign Subscribed Capital - Number of Shares 1", "foreign_subscribed_capital_number_of_shares_1");
    ("Foreign Subscribed Capital - Par / Stated Value 1", "foreign_subscribed_capital_par_stated_value_1");
    ("Foreign Subscribed Capital - Amount (PhP) 1", "foreign_subscribed_capital_amount_php_1");
    ("Filipino Paid-Up Capital - Type of Shares 1", "filipino_paid_up_capital_type_of_shares_1");
    ("Filipino Paid-up Capital Number of Shares 1", "filipino_paid_up_capital_number_of_shares_1");
    ("Filipino Paid-Up Capital - Par / Stated Value 1", "filipino_paid_up_capital_par_stated_value_1");
    ("Filipino Paid-Up Capital - Amount (PhP) 1", "filipino_paid_up_capital_amount_php_1");
    ("Foreign Paid-Up Capital - Type of Shares 1", "foreign_paid_up_capital_type_of_shares_1");
    ("Foreign Paid-up Capital Number of Shares 1", "foreign_paid_up_capital_number_of_shares_1");
    ("Foreign Paid-Up Capital - Par / Stated Value 1", "foreign_paid_up_capital_par_stated_value_1");
    ("Foreign Paid-Up Capital - Amount (PhP) 1", "foreign_paid_up_capital_amount_php_1");
    ("Subscribed Capital_Filipino", "filipino_subscribed_capital_amount_php_1");
    ("Subscribed Capital_Foreign", "foreign_subscribed_capital_amount_php_1");
    ("Subscribed Capital_% Foreigh Equity", "subscribed_capital_foreign_equity_percentage");
    ("Subscribed Capital_Total", "filipino_subscribed_capital_amount_php_1");
    ("Paid-up Capital_Filipino", "filipino_paid_up_capital_amount_php_1");
    ("Paid-up Capital_Foreign", "foreign_paid_up_capital_amount_php_1");
    ("Paid-up Capital_% Foreigh Equity", "paid_up_capital_foreign_equity_percentage");
    ("Paid-up Capital_% Foreign Equity", "paid_up_capital_foreign_equity_percentage");
    ("Paid-Up Capital_Total", "filipino_paid_up_capital_amount_php_1");
    ("Director/Officer_Name", "director_officer_name");
    ("Director/Officer_Address", "director_officer_address");
    ("Director/Officer_Nationality", "director_officer_nationality");
    ("Director/Officer_INC'R", "director_officer_inc_r");
    ("Director/Officer_Board", "director_officer_board");
    ("Director/Officer_Gender", "director_officer_gender");
    ("Director/Officer_Stock Holder", "director_officer_stock_holder");
    ("Director/Officer_Officer", "director_officer_officer");
    ("Director/Officer_Exec Comm.", "director_officer_exec_comm");
    ("Director/Officer_TIN", "director_officer_tin");
    ("Total Number of Stockholders", "total_number_stockholders");
    ("Number of Stockholders with ≥100 shares", "number_stockholders_100_plus_shares");
    ("Total Assets (Latest Audited FS)", "total_assets");
    ("Stockholder_Name", "stockholder_name");
    ("Stockholder_Nationality", "stockholder_nationality");
    ("Stockholder_Address", "stockholder_address");
    ("Stockholder_Total Shares Subscribed_No.", "stockholder_shares_subscribed_number");
    ("Stockholder_Total Shares Subscribed_Amount (PHP)", "stockholder_shares_subscribed_amount");
    ("Stockholder_% of Ownership", "stockholder_ownership_percentage");
    ("Stockholder_Amount Paid (PHP)", "stockholder_amount_paid");
    ("Stockholder_TIN", "stockholder_tin");
    ("Subscribed Capital_Total (PHP) (from Stockholder detail pages)", "filipino_subscribed_capital_amount_php_1");
    ("Paid-Up Capital_Total (PHP) (from Stockholder detail pages)", "filipino_paid_up_capital_amount_php_1");
    ("Unrestricted Retained Earnings (PHP)", "");
    ("Prior year Dividends_Cash (PHP)", "prior_year_dividends_cash");
    ("Prior year Dividends_Stock (PHP)", "prior_year_dividends_stock");
    ("Prior year Dividends_Property (PHP)", "prior_year_dividends_property");
    ("Prior year Dividends_Total (PHP)", "prior_year_dividends_total");
    ("Share Issuance_Date", "share_issuance_date");
    ("Share Issuance_No", "share_issuance_number");
    ("Share Issuance_Amount (PHP)", "share_issuance_amount");
    ("SEC License Type", "sec_license_type");
    ("SEC Licnese Date", "sec_license_date");
    ("SEC Ops start", "sec_ops_start");
    ("BSP License Type", "bsp_license_type");
    ("BSP Licnese Date", "bsp_license_date");
    ("BSP Ops start", "bsp_ops_start");
    ("IC License Type", "ic_license_type");
    ("IC Licnese Date", "ic_license_date");
    ("IC Ops start", "ic_ops_start");
    ("Total Comp (PHP)", "total_compensation");
    ("No Officers", "number_officers");
    ("No Employees", "number_employees");
    ("Total Manpower", "total_manpower");
    ("UBO_Name", "ubo_name");
    ("UBO_Address", "ubo_address");
    ("UBO_Naitonality", "ubo_nationality");
    ("UBO_DOB", "ubo_dob");
    ("UBO_TIN", "ubo_tin");
    ("UBO_% ownership", "ubo_ownership_percentage");
    ("UBO_Type", "ubo_type");
    ("UBO_Category", "ubo_category");
    ("Director/Officer_INC'R", "director_officer_inc_r");
    ("Director/Officer_Exec Comm.", "director_officer_exec_comm");
    ("Stockholder_Total Shares Subscribed_No.", "stockholder_shares_subscribed_number");
    ("Stockholder_Total Shares Subscribed_Amount (PHP)", "stockholder_shares_subscribed_amount");
    ("Stockholder_Amount Paid (PHP)", "stockholder_amount_paid");
    ("Share Issuance_Date", "share_issuance_date");
    ("Share Issuance_No", "share_issuance_number") ].

Definition single_entry_fields : list string :=
  [ "UBO_";
    "Corporate Name";
    "AMLA Compliance Status";
    "Subscribed Capital_Total";
    "Paid-Up Capital_Total";
    "Total Number of Stockholders";
    "Number of Stockholders with ≥100 shares";
    "Total Assets (Latest Audited FS)";
    "Document Type";
    "For the year";
    "Business/Trade Name";
    "Date Registered";
    "Fiscal Year End";
    "SEC Registration Number";
    "Corporate TIN";
    "Website/URL";
    "Principal Office Address";
    "Business Address";
    "Official e-mail address";
    "Alternate Email Address";
    "Official Mobile Number";
    "Alternate Mobile Number";
    "Primary Purpose/Industry";
    "Industry Classification";
    "Geographical Code";
    "Parent Company Name";
    "Parent Company SEC Reg. No.";
    "Parent Company Address";
    "Subsidiary/Affiliate";
    "Subsidiary/Affiliate SEC Reg. No.";
    "Subsidiary/Affiliate Address";
    "External Auditor";
    "Auditor SEC Accreditation Number";
    "Covered Person (AML)" ].

(** [[x for x in l if not (x in seen or seen.add(x))]], with [seen] the
    elements met so far. *)
Fixpoint remove_duplicates (seen l : list string) : list string :=
  match l with
  | [] => []
  | x :: rest =>
      if mem x seen then remove_duplicates seen rest
      else x :: remove_duplicates (x :: seen) rest
  end.

(** [field_name.startswith(('Director/Officer', 'Stockholder', 'AMLA Category'))] *)
Definition is_repeated_field (field_name : string) : bool :=
  existsb (startswith field_name) ["Director/Officer"; "Stockholder"; "AMLA Category"].

(** [any(field_name.startswith(prefix) or field_name == prefix
         for prefix in single_entry_fields)] *)
Definition is_single_entry (field_name : string) : bool :=
  existsb (fun p => startswith field_name p || String.eqb field_name p)
    single_entry_fields.

(** The list [possible_keys] as it stands when the lookup starts. *)
Definition possible_keys (field_name : string) (current_count : nat) : list string :=
  let possible_keys := [field_name] in
  let base_transforms := base_transforms field_name in
  let base_transforms :=
    match dict_get field_mappings field_name with
    | Some mapped_field =>
        if nonempty mapped_field then mapped_field :: base_transforms
        else base_transforms
    | None => base_transforms
    end in
  let possible_keys := (possible_keys ++ base_transforms)%list in
  let possible_keys := remove_duplicates [] possible_keys in
  if is_repeated_field field_name then
    match dict_get field_mappings field_name with
    | Some base_mapped =>
        if nonempty base_mapped
        then (base_mapped ++ "_" ++ str_of_nat current_count) :: possible_keys
        else (comprehensive_transform field_name ++ "_" ++ str_of_nat current_count)
               :: possible_keys
    | None =>
        (comprehensive_transform field_name ++ "_" ++ str_of_nat current_count)
          :: possible_keys
    end
  else possible_keys.

(** [for key in possible_keys: if key in flattened_data: ...; break],
    starting from [flattened_value = ""]. *)
Fixpoint first_present (flattened_data : dict value) (possible_keys : list string)
  : string :=
  match possible_keys with
  | [] => ""
  | key :: rest =>
      match dict_get flattened_data key with
      | Some v => normalize_value v
      | None => first_present flattened_data rest
      end
  end.

(** The value taken from the flattened JSON for a field. *)
Definition resolve (flattened_data : dict value) (field_name : string)
    (current_count : nat) : string :=
  if is_single_entry field_name && (1 <? current_count)%nat then ""
  else
    match dict_get field_mappings field_name with
    | Some "" => ""
    | _ => first_present flattened_data (possible_keys field_name current_count)
    end.

(** [x > y] on scores.  The source compares the float [2.0 * M / T] with
    the floats 0.9 and 0.7.  The quotient is rounded to the nearest float
    and so are the two constants; rounding is monotone, and [2M/T] differs
    from 9/10 (from 7/10) by at least [1/(10 T)] when it differs at all, so
    the comparison of floats and the comparison of rationals agree as long
    as the two strings have fewer than 10^15 characters together. *)
Definition Qgtb (x y : Q) : bool := negb (Qle_bool x y).

(** "Determine match status". *)
Definition match_status (flattened_value truth_value : string) : Status :=
  let flattened_vs_truth := similarity_score flattened_value truth_value in
  let exact_match := String.eqb flattened_value truth_value in
  if exact_match then PerfectMatch
  else if Qgtb flattened_vs_truth (9 # 10) then VeryClose
  else if Qgtb flattened_vs_truth (7 # 10) then Similar
  else if String.eqb flattened_value "" then MissingInJson
  else Mismatch.

(** Counting the occurrences of a field name: the counters after the
    row, and [current_count]. *)
Definition count_field (field_counters : dict nat) (field_name : string)
  : dict nat * nat :=
  let field_counters :=
    if dict_mem field_counters field_name then field_counters
    else dict_set field_counters field_name O in
  let current_count := S (dict_get_default field_counters field_name O) in
  (dict_set field_counters field_name current_count, current_count).

(** The body of the loop once the occurrence is counted: the record
    appended to [comparison_results]. *)
Definition comparison_record (flattened_data : dict value)
    (field_name truth_value : string) (current_count : nat) : ComparisonRow :=
  let flattened_value := resolve flattened_data field_name current_count in
  let flattened_vs_truth := similarity_score flattened_value truth_value in
  let status := match_status flattened_value truth_value in
  let display_field :=
    if (1 <? current_count)%nat
    then field_name ++ " (" ++ str_of_nat current_count ++ ")"
    else field_name in
  {| Field := display_field;
     JSON_Value := flattened_value;
     Ground_Truth := truth_value;
     Row_Status := status;
     Similarity_Score := flattened_vs_truth |}.

(** The body of the loop for a row that is not skipped. *)
Definition compare_row (flattened_data : dict value) (field_counters : dict nat)
    (field_name truth_value : string) : dict nat * ComparisonRow :=
  let '(field_counters, current_count) := count_field field_counters field_name in
  (field_counters,
   comparison_record flattened_data field_name truth_value current_count).

(** [for _, row in ground_truth_df.iterrows()].  A [Field] cell that is
    not a [str] is skipped when it is falsy and has no [strip] otherwise. *)
Fixpoint compare_rows (flattened_data : dict value) (cols : list string)
    (truth_col : string) (remaining : list (list value))
    (field_counters : dict nat) (comparison_results : list ComparisonRow)
  : result (list ComparisonRow) :=
  match remaining with
  | [] => Ok comparison_results
  | row :: rest =>
      let truth_value := normalize_value (row_get cols row truth_col) in
      match row_get cols row "Field" with
      | VStr field_name =>
          if negb (nonempty field_name) || String.eqb (strip field_name) ""
          then compare_rows flattened_data cols truth_col rest
                 field_counters comparison_results
          else
            let '(field_counters, record) :=
              compare_row flattened_data field_counters field_name truth_value in
            compare_rows flattened_data cols truth_col rest
              field_counters (comparison_results ++ [record])%list
      | cell =>
          if truthy cell then Raise AttributeError
          else compare_rows flattened_data cols truth_col rest
                 field_counters comparison_results
      end
  end.

(** What a call leaves behind: the messages given to [st.error], and the
    data frame returned (as the list of its records; [pd.DataFrame()] is
    the empty list) or the exception raised. *)
Record Outcome : Type := {
  st_error : list string;
  returned : result (list ComparisonRow)
}.

(** [compare_with_ground_truth(flattened_data, ground_truth_df)] *)
Definition compare_with_ground_truth (flattened_data : dict value)
    (ground_truth_df : DataFrame) : Outcome :=
  if negb (mem "Field" (columns ground_truth_df)) then
    {| st_error := ["Ground truth data must have a 'Field' column"];
       returned := Ok [] |}
  else
    let value_columns :=
      filter (fun col => negb (String.eqb col "Field")) (columns ground_truth_df) in
    match value_columns with
    | [] =>
        {| st_error :=
             ["Ground truth data must have at least 1 value column (ground truth)"];
           returned := Ok [] |}
    | truth_col :: _ =>
        {| st_error := [];
           returned :=
             compare_rows flattened_data (columns ground_truth_df) truth_col
               (rows ground_truth_df) [] [] |}
    end.


(* ================================================================== *)
(** * The loop, row by row *)
(* ================================================================== *)

(** The rows of the ground truth that the loop does not skip, as pairs of
    the field name and the normalised ground-truth value; the exception
    the loop raises on a [Field] cell that has no [strip]. *)
Fixpoint ground_truth_rows (cols : list string) (truth_col : string)
    (remaining : list (list value)) : result (list (string * string)) :=
  match remaining with
  | [] => Ok []
  | row :: rest =>
      let truth_value := normalize_value (row_get cols row truth_col) in
      match row_get cols row "Field" with
      | VStr field_name =>
          if negb (nonempty field_name) || String.eqb (strip field_name) ""
          then ground_truth_rows cols truth_col rest
          else
            match ground_truth_rows cols truth_col rest with
            | Ok l => Ok ((field_name, truth_value) :: l)
            | Raise e => Raise e
            end
      | cell =>
          if truthy cell then Raise AttributeError
          else ground_truth_rows cols truth_col rest
      end
  end.

(** The records the loop appends for a list of such pairs, from given
    counters; [reconcile] starts from the empty [field_counters]. *)
Fixpoint reconcile_from (flattened_data : dict value) (field_counters : dict nat)
    (ground_truth : list (string * string)) : list ComparisonRow :=
  match ground_truth with
  | [] => []
  | (field_name, truth_value) :: rest =>
      let '(field_counters, record) :=
        compare_row flattened_data field_counters field_name truth_value in
      record :: reconcile_from flattened_data field_counters rest
  end.

Definition reconcile (flattened_data : dict value)
    (ground_truth : list (string * string)) : list ComparisonRow :=
  reconcile_from flattened_data [] ground_truth.

End Runtime.

(* ================================================================== *)
(** * Definitions the properties are stated with *)
(* ================================================================== *)

(** The column read as the ground truth: the first one that is not
    [Field], in a frame that has a [Field] column. *)
Definition truth_column (df : DataFrame) : option string :=
  if mem "Field" (columns df)
  then hd_error (filter (fun col => negb (String.eqb col "Field")) (columns df))
  else None.

(** How many times a label occurs in a list of labels. *)
Definition occurrences (label : string) (labels : list string) : nat :=
  length (filter (String.eqb label) labels).

(** The classification of a comparison as the specification words it:
    the first condition that holds decides, in this order. *)
Definition classify_spec {U : Unicode} (resolved truth : string) : Status :=
  if string_dec resolved truth then PerfectMatch
  else if Qlt_le_dec (9 # 10) (similarity_score resolved truth) then VeryClose
  else if Qlt_le_dec (7 # 10) (similarity_score resolved truth) then Similar
  else if string_dec resolved "" then MissingInJson
  else Mismatch.

(** The flat map holds scalars only. *)
Definition all_scalar (d : dict value) : Prop :=
  Forall (fun v => is_scalar v = true) (values d).

(** The counters hold, for every label, the number of times it has
    occurred in [seen]. *)
Definition counters_agree (field_counters : dict nat) (seen : list string) : Prop :=
  forall label, dict_get_default field_counters label 0%nat = occurrences label seen.

(** Modelled from the spec: the comprehensive transform of a label, as
    the specification words it.  "Lowercase; replace each of the
    characters space, slash and hyphen with an underscore; strip the
    characters (, ), ≥, full stop and apostrophe (deletion, not
    replacement)." *)
Definition comprehensive_transform_spec {U : Unicode} (label : string) : string :=
  let lowercase := lower label in
  let replaced :=
    fold_left (fun s character => replace character "_" s) [" "; "/"; "-"] lowercase in
  fold_left (fun s character => replace character "" s) ["("; ")"; "≥"; "."; "'"]
    replaced.

(** The key tried first for a repeated label. *)
Definition numbered_key {U : Unicode} (field_name : string) (count : nat) : string :=
  match dict_get field_mappings field_name with
  | Some stem =>
      if nonempty stem then stem ++ "_" ++ str_of_nat count
      else comprehensive_transform field_name ++ "_" ++ str_of_nat count
  | None => comprehensive_transform field_name ++ "_" ++ str_of_nat count
  end.

(** The length of the run of elements that are not popular which ends
    just before position [m] of [s]. *)
Fixpoint unpopular_run {A} (eqb : A -> A -> bool) (s : list A) (m : nat) : nat :=
  match m with
  | O => O
  | S m' =>
      match nth_error s m' with
      | Some x => if popular eqb s x then O else S (unpopular_run eqb s m')
      | None => O
      end
  end.

(** A run time to evaluate examples with: it quotes a string with
    apostrophes and parses the text "null" only. *)
Definition sample_repr_str (s : string) : string := "'" ++ s ++ "'".

Definition sample_json_loads (text : string) : option value :=
  if String.eqb text "null" then Some VNone else None.

(** White space to write examples with: U+00A0 and U+2003. *)
Definition no_break_space : string := bytes [194; 160]%nat.
Definition em_space : string := bytes [226; 128; 131]%nat.
Definition tabulation : string := bytes [9]%nat.

(** A Unicode database to evaluate examples with: it knows no cased
    character outside ASCII. *)
Definition sample_unicode : Unicode.
Proof.
  refine {| unicode_lower := lower_ascii |}.
  - intros s H. destruct s; [congruence | discriminate].
  - intros s. induction s as [|c s IH]; [reflexivity|].
    cbn [lower_ascii]. rewrite IH. f_equal.
    destruct c as [[] [] [] [] [] [] [] []]; reflexivity.
Defined.

(** A block that lies inside the ranges [alo, ahi) of [a] and [blo, bhi)
    of [b]. *)
Definition block_in_range (alo ahi blo bhi : nat) (best : Match) : Prop :=
  let '(besti, bestj, bestsize) := best in
  (alo <= besti /\ besti + bestsize <= ahi
   /\ blo <= bestj /\ bestj + bestsize <= bhi)%nat.

(** The queue of [get_matching_blocks] holds ranges, and this much is
    left to examine in it. *)
Definition range_ok (r : nat * nat * nat * nat) : Prop :=
  let '(alo, ahi, blo, bhi) := r in (alo <= ahi /\ blo <= bhi)%nat.

Fixpoint queue_measure (queue : list (nat * nat * nat * nat)) : nat :=
  match queue with
  | [] => O
  | (alo, ahi, _, _) :: queue' => (2 * (ahi - alo) + 1 + queue_measure queue')%nat
  end.


(* ================================================================== *)
(** * The structure analyzer *)
(* ================================================================== *)

(** One entry of [analysis['arrays']]. *)
Record ArrayInfo : Type := {
  array_path : string;
  array_length : nat;
  array_type : string
}.

(** The dictionary [analysis]. *)
Record Analysis : Type := {
  arrays : list ArrayInfo;
  nested_objects : list string;
  primitive_fields : nat
}.

Definition empty_analysis : Analysis :=
  {| arrays := []; nested_objects := []; primitive_fields := 0 |}.

(** The three statements that take a [sub_analysis] in: [extend], [extend]
    and [+=]. *)
Definition absorb (analysis sub_analysis : Analysis) : Analysis :=
  {| arrays := (arrays analysis ++ arrays sub_analysis)%list;
     nested_objects := (nested_objects analysis ++ nested_objects sub_analysis)%list;
     primitive_fields := primitive_fields analysis + primitive_fields sub_analysis |}.

(** [analysis['arrays'].append({'path': ..., 'length': ..., 'type': 'array'})] *)
Definition append_array (analysis : Analysis) (path : string) (len : nat) : Analysis :=
  {| arrays := (arrays analysis
                ++ [ {| array_path := path; array_length := len; array_type := "array" |} ])%list;
     nested_objects := nested_objects analysis;
     primitive_fields := primitive_fields analysis |}.

(** [analysis['nested_objects'].append(current_path)] *)
Definition append_nested (analysis : Analysis) (path : string) : Analysis :=
  {| arrays := arrays analysis;
     nested_objects := (nested_objects analysis ++ [path])%list;
     primitive_fields := primitive_fields analysis |}.

(** [analysis['primitive_fields'] += 1] *)
Definition count_primitive (analysis : Analysis) : Analysis :=
  {| arrays := arrays analysis;
     nested_objects := nested_objects analysis;
     primitive_fields := primitive_fields analysis + 1 |}.

(** [analyze_recursive(obj, path)]: the loop over the entries of a
    dictionary carries [analysis]; [value[:1]] is the first element of a
    list that has one. *)
Fixpoint analyze_recursive (obj : value) (path : string) : Analysis :=
  match obj with
  | VDict entries =>
      (fix loop (l : list (string * value)) (analysis : Analysis) : Analysis :=
         match l with
         | [] => analysis
         | (key, v) :: rest =>
             let current_path :=
               if nonempty path then (path ++ "." ++ key)%string else key in
             loop rest
               match v with
               | VList elems =>
                   let analysis := append_array analysis current_path (length elems) in
                   match elems with
                   | item :: _ =>
                       absorb analysis
                         (analyze_recursive item (current_path ++ "[0]")%string)
                   | [] => analysis
                   end
               | VDict _ =>
                   absorb (append_nested analysis current_path)
                     (analyze_recursive v current_path)
               | _ => count_primitive analysis
               end
         end) entries empty_analysis
  | _ => empty_analysis
  end.

(** The loop of [analyze_recursive] over the entries of a dictionary, from
    a given [analysis]. *)
Fixpoint analyze_entries (path : string) (entries : list (string * value))
    (analysis : Analysis) : Analysis :=
  match entries with
  | [] => analysis
  | (key, v) :: rest =>
      let current_path :=
        if nonempty path then (path ++ "." ++ key)%string else key in
      analyze_entries path rest
        match v with
        | VList elems =>
            let analysis := append_array analysis current_path (length elems) in
            match elems with
            | item :: _ =>
                absorb analysis (analyze_recursive item (current_path ++ "[0]")%string)
            | [] => analysis
            end
        | VDict _ =>
            absorb (append_nested analysis current_path)
              (analyze_recursive v current_path)
        | _ => count_primitive analysis
        end
  end.

Section Analyzer.

(** [json.loads(text)]: [None] stands for [json.JSONDecodeError]. *)
Variable json_loads : string -> option value.

(** [analyze_json_structure(json_data)]: the error of [json.loads] is not
    caught. *)
Definition analyze_json_structure (json_data : value) : result Analysis :=
  match json_data with
  | VStr text =>
      match json_loads text with
      | Some data => Ok (analyze_recursive data "")
      | None => Raise JSONDecodeError
      end
  | data => Ok (analyze_recursive data "")
  end.

End Analyzer.

(* ================================================================== *)
(** * Field names for display *)
(* ================================================================== *)

Definition is_lower (c : ascii) : bool :=
  (97 <=? nat_of_ascii c)%nat && (nat_of_ascii c <=? 122)%nat.

(** A cased character, among the ASCII ones: a letter. *)
Definition is_cased (c : ascii) : bool := is_upper c || is_lower c.

Definition upper_char (c : ascii) : ascii :=
  if is_lower c then ascii_of_nat (nat_of_ascii c - 32) else c.

(** [s.title()]: a character that follows a cased character is put in
    lower case, any other character in upper case. *)
Fixpoint title_from (previous_is_cased : bool) (s : string) : string :=
  match s with
  | EmptyString => EmptyString
  | String c s' =>
      String (if previous_is_cased then lower_char c else upper_char c)
        (title_from (is_cased c) s')
  end.

Definition title (s : string) : string := title_from false s.

(** [format_field_name(field_name)] *)
Definition format_field_name (field_name : string) : string :=
  title (replace "_" " " field_name).

(* ================================================================== *)
(** * The summary of a comparison *)
(* ================================================================== *)

(** The dictionary [create_comparison_summary] returns for a frame that
    is not empty; the accuracy is the rational its float rounds. *)
Record Summary : Type := {
  total_fields : nat;
  perfect_matches : nat;
  very_close : nat;
  similar : nat;
  missing : nat;
  mismatches : nat;
  accuracy_percentage : Q
}.

(** [len(comparison_df[comparison_df['Status'] == text])] *)
Definition count_status (comparison_df : list ComparisonRow) (text : string) : nat :=
  length (filter (fun r => String.eqb (status_text (Row_Status r)) text) comparison_df).

(** [create_comparison_summary(comparison_df)]; [None] is the empty
    dictionary returned for an empty frame. *)
Definition create_comparison_summary (comparison_df : list ComparisonRow)
  : option Summary :=
  match comparison_df with
  | [] => None
  | _ =>
      let total_fields := length comparison_df in
      let perfect_matches := count_status comparison_df "✅ Perfect Match" in
      let very_close := count_status comparison_df "🟨 Very Close" in
      let similar := count_status comparison_df "🟧 Similar" in
      let missing := count_status comparison_df "❓ Missing in JSON" in
      let mismatches := count_status comparison_df "❌ Mismatch" in
      Some {| total_fields := total_fields;
              perfect_matches := perfect_matches;
              very_close := very_close;
              similar := similar;
              missing := missing;
              mismatches := mismatches;
              accuracy_percentage :=
                if (0 <? total_fields)%nat
                then (Z.of_nat (perfect_matches + very_close) # Pos.of_nat total_fields)
                     * 100
                else 0 |}
  end.

(* ================================================================== *)
(** * The test script for the transforms *)
(* ================================================================== *)


(* ================================================================== *)
(** * More definitions the properties are stated with *)
(* ================================================================== *)

(** The characters of a string. *)
Definition chars (s : string) : list ascii := list_ascii_of_string s.

(** A value with no list anywhere inside. *)
Fixpoint no_arrays (v : value) : bool :=
  match v with
  | VList _ => false
  | VDict entries =>
      (fix all (l : list (string * value)) : bool :=
         match l with
         | [] => true
         | (_, x) :: rest => no_arrays x && all rest
         end) entries
  | _ => true
  end.

(** The sum of the sizes of a list of blocks. *)
Definition total_size (blocks : list Match) : nat :=
  fold_right (fun triple acc => (snd triple + acc)%nat) O blocks.

(** What is left to match, in [a] and in [b], in the ranges of a queue. *)
Fixpoint queue_a (queue : list (nat * nat * nat * nat)) : nat :=
  match queue with
  | [] => O
  | (alo, ahi, _, _) :: queue' => (ahi - alo + queue_a queue')%nat
  end.

Fixpoint queue_b (queue : list (nat * nat * nat * nat)) : nat :=
  match queue with
  | [] => O
  | (_, _, blo, bhi) :: queue' => (bhi - blo + queue_b queue')%nat
  end.

(** The [Field] cell of a row makes the loop raise: it is not a [str]
    and it is truthy. *)
Definition field_cell_raises (cell : value) : bool :=
  match cell with
  | VStr _ => false
  | _ => truthy cell
  end.

(** The [Field] cell of a row the loop keeps: a [str] that is not empty
    and not white space only. *)
Definition field_cell_kept (cell : value) : bool :=
  match cell with
  | VStr field_name =>
      negb (negb (nonempty field_name) || String.eqb (strip field_name) "")
  | _ => false
  end.

(** The [Field] cells of a frame, row by row. *)
Definition field_cells (df : DataFrame) : list value :=
  map (fun row => row_get (columns df) row "Field") (rows df).

(** The [data] the three entry points work on: the text parsed, or the
    structure given; [None] when [json.loads] fails. *)
Definition parsed (json_loads : string -> option value) (json_data : value)
  : option value :=
  match json_data with
  | VStr text => json_loads text
  | data => Some data
  end.

(** A string with [f] applied to every character. *)
Fixpoint smap (f : ascii -> ascii) (s : string) : string :=
  match s with
  | EmptyString => EmptyString
  | String c s' => String (f c) (smap f s')
  end.

(** What [replace('_', ' ')] does to one character. *)
Definition underscore_to_space (c : ascii) : ascii :=
  if Ascii.eqb c "_" then " "%char else c.

(** [c in s] for a character. *)
Definition occurs (c : ascii) (s : string) : bool :=
  existsb (Ascii.eqb c) (chars s).

(** ASCII text: the strings on which a byte is a character, and on which
    [title] is [str.title]. *)
Definition ascii_text (s : string) : Prop :=
  Forall (fun c => (nat_of_ascii c < 128)%nat) (chars s).

(** The characters of a string are read back from their bytes: a list
    of characters, each a byte followed by continuation bytes, all but the
    first starting with a byte that continues nothing. *)
Fixpoint continuation_bytes (s : string) : bool :=
  match s with
  | EmptyString => true
  | String c s' => is_continuation c && continuation_bytes s'
  end.

Definition is_character (p : string) : Prop :=
  match p with
  | EmptyString => False
  | String _ tail => continuation_bytes tail = true
  end.

Definition starts_character (p : string) : Prop :=
  match p with
  | EmptyString => False
  | String c _ => is_continuation c = false
  end.

Definition characters (l : list string) : Prop :=
  match l with
  | [] => True
  | p :: rest =>
      is_character p /\ Forall (fun q => is_character q /\ starts_character q) rest
  end.

(* ================================================================== *)
(*                          Properties                                 *)
(* ================================================================== *)

(* ================================================================== *)
(** * Properties of dictionaries *)
(* ================================================================== *)

Section DictFacts.

Context {V : Type}.
Implicit Types (d : dict V) (k : string) (v : V).

Lemma dict_get_set_same d k v : dict_get (dict_set d k v) k = Some v.
Proof.
  induction d as [|[k' v'] d IH]; simpl.
  - now rewrite String.eqb_refl.
  - destruct (String.eqb k' k) eqn:E; simpl; rewrite E; auto.
Qed.

Lemma dict_get_set_other d k k' v :
  k <> k' -> dict_get (dict_set d k v) k' = dict_get d k'.
Proof.
  intros Hne. induction d as [|[k0 v0] d IH]; simpl.
  - destruct (String.eqb k k') eqn:E; auto.
    apply String.eqb_eq in E. contradiction.
  - destruct (String.eqb k0 k) eqn:E; simpl.
    + apply String.eqb_eq in E. subst k0.
      destruct (String.eqb k k') eqn:E'; auto.
      apply String.eqb_eq in E'. contradiction.
    + now rewrite IH.
Qed.

Lemma dict_get_default_set_same d k v default :
  dict_get_default (dict_set d k v) k default = v.
Proof. unfold dict_get_default. now rewrite dict_get_set_same. Qed.

Lemma dict_get_default_set_other d k k' v default :
  k <> k' ->
  dict_get_default (dict_set d k v) k' default = dict_get_default d k' default.
Proof. intros H. unfold dict_get_default. now rewrite dict_get_set_other. Qed.

Lemma keys_dict_set_present d k v :
  In k (keys d) -> keys (dict_set d k v) = keys d.
Proof.
  induction d as [|[k' v'] d IH]; simpl; [tauto|].
  intros H. destruct (String.eqb k' k) eqn:E; simpl; auto.
  f_equal. apply IH. destruct H as [H|H]; auto.
  subst. now rewrite String.eqb_refl in E.
Qed.

(** A new key goes to the end. *)
Lemma dict_set_fresh d k v : ~ In k (keys d) -> dict_set d k v = (d ++ [(k, v)])%list.
Proof.
  induction d as [|[k' v'] d IH]; simpl; auto.
  intros H. destruct (String.eqb k' k) eqn:E.
  - apply String.eqb_eq in E. tauto.
  - f_equal. apply IH. tauto.
Qed.

Lemma in_keys_dict_set d k v k' :
  In k' (keys (dict_set d k v)) <-> k' = k \/ In k' (keys d).
Proof.
  induction d as [|[k0 v0] d IH]; simpl.
  - intuition.
  - destruct (String.eqb k0 k) eqn:E; simpl.
    + apply String.eqb_eq in E. subst. intuition.
    + rewrite IH. intuition.
Qed.

(** Assignment keeps the keys pairwise distinct. *)
Lemma NoDup_keys_dict_set d k v : NoDup (keys d) -> NoDup (keys (dict_set d k v)).
Proof.
  induction d as [|[k0 v0] d IH]; simpl; intros H.
  - constructor; [simpl; tauto | constructor].
  - inversion H as [|? ? Hnin Hnd]; subst.
    destruct (String.eqb k0 k) eqn:E; simpl.
    + now constructor.
    + constructor; auto.
      rewrite in_keys_dict_set. intros [->|Hin]; auto.
      now rewrite String.eqb_refl in E.
Qed.

Lemma NoDup_keys_assign_all (pairs : list (string * V)) d :
  NoDup (keys d) -> NoDup (keys (assign_all d pairs)).
Proof.
  revert d. induction pairs as [|[k v] pairs IH]; simpl; intros d H; auto.
  apply IH. now apply NoDup_keys_dict_set.
Qed.

Lemma NoDup_keys_dict_of_items (pairs : list (string * V)) :
  NoDup (keys (dict_of_items pairs)).
Proof. apply (NoDup_keys_assign_all pairs []). constructor. Qed.

(** A property of the values survives assignment. *)
Lemma Forall_values_dict_set (P : V -> Prop) d k v :
  Forall P (values d) -> P v -> Forall P (values (dict_set d k v)).
Proof.
  induction d as [|[k0 v0] d IH]; simpl; intros H Hv.
  - repeat constructor. exact Hv.
  - inversion H; subst.
    destruct (String.eqb k0 k); simpl; constructor; auto.
Qed.

Lemma Forall_values_assign_all (P : V -> Prop) (pairs : list (string * V)) d :
  Forall P (values d) -> Forall P (map snd pairs) ->
  Forall P (values (assign_all d pairs)).
Proof.
  revert d. induction pairs as [|[k v] pairs IH]; simpl; intros d Hd Hp; auto.
  inversion Hp; subst. apply IH; auto. now apply Forall_values_dict_set.
Qed.

Lemma Forall_values_dict_of_items (P : V -> Prop) (pairs : list (string * V)) :
  Forall P (map snd pairs) -> Forall P (values (dict_of_items pairs)).
Proof. intros H. apply (Forall_values_assign_all P pairs []); [constructor | exact H]. Qed.

End DictFacts.

(* ================================================================== *)
(** * Properties of the flattener *)
(* ================================================================== *)

Lemma flatten_dict_VDict entries parent_key sep :
  flatten_dict (VDict entries) parent_key sep
  = dict_of_items (flatten_entries parent_key sep entries).
Proof.
  simpl. f_equal.
  induction entries as [|[key v] rest IH]; simpl; [reflexivity|].
  now rewrite IH.
Qed.

Lemma flatten_dict_VList_cons item rest parent_key sep :
  flatten_dict (VList (item :: rest)) parent_key sep
  = dict_of_items (flatten_elems parent_key sep 0 (item :: rest)).
Proof.
  cbn [flatten_dict flatten_elems]. do 2 f_equal.
  generalize 1%nat.
  induction rest as [|x l IH]; intros i; cbn [flatten_elems]; [reflexivity|].
  now rewrite IH.
Qed.

Lemma flatten_dict_VList_nil parent_key sep :
  flatten_dict (VList []) parent_key sep = [(parent_key, VStr "[]")].
Proof. reflexivity. Qed.

Lemma flatten_dict_scalar_case obj parent_key sep :
  is_scalar obj = true -> flatten_dict obj parent_key sep = [(parent_key, obj)].
Proof. destruct obj; simpl; intros H; try reflexivity; discriminate. Qed.

Lemma all_scalar_app (l1 l2 : list (string * value)) :
  Forall (fun v => is_scalar v = true) (map snd l1) ->
  Forall (fun v => is_scalar v = true) (map snd l2) ->
  Forall (fun v => is_scalar v = true) (map snd (l1 ++ l2)).
Proof. intros H1 H2. rewrite map_app. apply Forall_app. now split. Qed.

(** The inner function never leaves a list or a dictionary among the
    values, whatever the parent key and the separator. *)
Lemma flatten_dict_all_scalar obj :
  forall parent_key sep, all_scalar (flatten_dict obj parent_key sep).
Proof.
  induction obj as [ | b | n | r | s | l IH | l IH ] using value_nested_ind;
    intros parent_key sep;
    try (rewrite flatten_dict_scalar_case by reflexivity;
         repeat constructor).
  - destruct l as [|item rest].
    + rewrite flatten_dict_VList_nil. repeat constructor.
    + rewrite flatten_dict_VList_cons.
      apply Forall_values_dict_of_items.
      generalize 0%nat. revert IH. generalize (item :: rest). clear item rest.
      intros l IH. induction IH as [|x l Hx _ IHl]; intros i;
        cbn [flatten_elems]; [constructor|].
      apply all_scalar_app; [|apply IHl].
      destruct (is_dict_or_list x) eqn:E.
      * apply Hx.
      * constructor; [|constructor]. cbn [snd]. unfold is_scalar. now rewrite E.
  - rewrite flatten_dict_VDict.
    apply Forall_values_dict_of_items.
    induction IH as [|[key v] l Hx _ IHl]; cbn [flatten_entries]; [constructor|].
    apply all_scalar_app; [|apply IHl]. apply Hx.
Qed.

Lemma flatten_entries_app parent_key sep l1 l2 :
  flatten_entries parent_key sep (l1 ++ l2)
  = (flatten_entries parent_key sep l1 ++ flatten_entries parent_key sep l2)%list.
Proof.
  induction l1 as [|[key v] l1 IH]; simpl; [reflexivity|].
  now rewrite IH, app_assoc.
Qed.

Lemma flatten_elems_app parent_key sep l1 l2 : forall i,
  flatten_elems parent_key sep i (l1 ++ l2)
  = (flatten_elems parent_key sep i l1
     ++ flatten_elems parent_key sep (i + length l1) l2)%list.
Proof.
  induction l1 as [|x l1 IH]; intros i; cbn [flatten_elems app length].
  - now rewrite Nat.add_0_r.
  - rewrite IH, app_assoc. now rewrite Nat.add_succ_comm.
Qed.

(** C5.  Whatever the document, every value of the flat map that
    [flatten_json_data] returns is a scalar (null, a boolean, a number or a
    string): no list and no dictionary survives.  The call returns for
    every parsed document; on text it raises [ValueError] exactly when
    [json.loads] rejects the text.  An empty array is kept as the string
    "[]" under its own key. *)
Theorem flatten_values_are_scalars :
  forall (json_loads : string -> option value) (D : value),
    match flatten_json_data json_loads D with
    | Ok flat =>
        Forall (fun v => is_scalar v = true) (values flat)
        /\ (forall text, D = VStr text ->
              exists data, json_loads text = Some data
                           /\ flat = flatten_dict data "" "_")
        /\ ((forall text, D <> VStr text) -> flat = flatten_dict D "" "_")
    | Raise e =>
        e = ValueError /\ exists text, D = VStr text /\ json_loads text = None
    end
    /\ (forall parent_key sep,
          flatten_dict (VList []) parent_key sep = [(parent_key, VStr "[]")])
    /\ flatten_json_data json_loads (VDict [("a", VList [])])
       = Ok [("a", VStr "[]")].
Proof.
  intros json_loads D. split; [|split; [intros; reflexivity | reflexivity]].
  destruct D; cbn [flatten_json_data];
    try (split; [apply flatten_dict_all_scalar|];
         split; [intros text H; discriminate | reflexivity]).
  destruct (json_loads s) as [data|] eqn:E.
  - split; [apply flatten_dict_all_scalar|]. split.
    + intros text H. injection H as <-. now exists data.
    + intros H. now destruct (H s).
  - split; [reflexivity|]. now exists s.
Qed.

(** C10.  An empty object contributes no key: flattened alone it gives the
    empty map; as an entry of an object it can be removed without changing
    the result; as an element of an array it adds nothing to the pairs
    collected for the other elements (which keep their indices).  So
    [flatten({"a": {}})] is the empty map, while an empty array in the same
    place gives the string "[]" under the parent key. *)
Theorem empty_object_contributes_no_key :
  (forall parent_key sep, flatten_dict (VDict []) parent_key sep = [])
  /\ (forall before key after parent_key sep,
        flatten_dict (VDict (before ++ (key, VDict []) :: after)) parent_key sep
        = flatten_dict (VDict (before ++ after)) parent_key sep)
  /\ (forall before after parent_key sep i,
        flatten_elems parent_key sep i (before ++ VDict [] :: after)
        = (flatten_elems parent_key sep i before
           ++ flatten_elems parent_key sep (i + length before + 1) after)%list)
  /\ (forall json_loads,
        flatten_json_data json_loads (VDict [("a", VDict [])]) = Ok []
        /\ flatten_json_data json_loads (VDict [("a", VList [])])
           = Ok [("a", VStr "[]")])
  /\ (forall key parent_key sep,
        flatten_dict (VDict [(key, VList [])]) parent_key sep
        = [(if nonempty parent_key then parent_key ++ sep ++ key else key,
            VStr "[]")]).
Proof.
  split; [reflexivity|]. split; [|split; [|split]].
  - intros before key after parent_key sep.
    rewrite !flatten_dict_VDict, !flatten_entries_app. reflexivity.
  - intros before after parent_key sep i.
    rewrite flatten_elems_app. cbn [flatten_elems is_dict_or_list].
    rewrite Nat.add_1_r. reflexivity.
  - intros json_loads. split; reflexivity.
  - intros key parent_key sep. reflexivity.
Qed.

(* ================================================================== *)
(** * Properties of the SEC GIS mapper *)
(* ================================================================== *)

Section FieldMappingFacts.

Context {V W : Type} (f : V -> W).

Lemma dict_map_dict_set (d : dict V) k v :
  dict_set (dict_map f d) k (f v) = dict_map f (dict_set d k v).
Proof.
  induction d as [|[k0 v0] d IH]; simpl; [reflexivity|].
  destruct (String.eqb k0 k); simpl; [reflexivity|]. now rewrite IH.
Qed.

Lemma dict_map_assign_all (pairs : list (string * V)) (d : dict V) :
  assign_all (dict_map f d) (map (fun kv => (fst kv, f (snd kv))) pairs) = dict_map f (assign_all d pairs).
Proof.
  revert d. induction pairs as [|[k v] pairs IH]; intros d; simpl; [reflexivity|].
  now rewrite dict_map_dict_set, IH.
Qed.

Lemma dict_map_dict_of_items (pairs : list (string * V)) :
  dict_of_items (map (fun kv => (fst kv, f (snd kv))) pairs) = dict_map f (dict_of_items pairs).
Proof. apply (dict_map_assign_all pairs []). Qed.

Lemma dict_map_dict_update (d other : dict V) :
  dict_update (dict_map f d) (dict_map f other) = dict_map f (dict_update d other).
Proof. apply dict_map_assign_all. Qed.

Lemma dict_get_dict_map (d : dict V) k :
  dict_get (dict_map f d) k = option_map f (dict_get d k).
Proof.
  induction d as [|[k0 v0] d IH]; simpl; [reflexivity|].
  now destruct (String.eqb k0 k).
Qed.

Lemma keys_dict_map (d : dict V) : keys (dict_map f d) = keys d.
Proof. unfold keys, dict_map. rewrite map_map. now apply map_ext. Qed.

End FieldMappingFacts.

Lemma lookup_all_second {V} (data_get : string -> V) table :
  lookup_all data_get table
  = map (fun kv => (fst kv, data_get (snd kv))) (lookup_all (fun key => key) table).
Proof.
  unfold lookup_all. rewrite map_map. apply map_ext. now intros [label key].
Qed.

Lemma assign_loop_natural {V} (data_get : string -> V)
    (table : nat -> list (string * string)) (indices : list nat) (d : dict string) :
  fold_left (fun fm i => assign_all fm (lookup_all data_get (table i)))
    indices (dict_map data_get d)
  = dict_map data_get
      (fold_left (fun fm i => assign_all fm (lookup_all (fun key => key) (table i)))
         indices d).
Proof.
  revert d. induction indices as [|i indices IH]; intros d; simpl; [reflexivity|].
  rewrite lookup_all_second, dict_map_assign_all. apply IH.
Qed.

(** The mapping is the catalog with every source key looked up: the order
    of the assignments and the repeated labels are those of the catalog,
    whatever the document holds. *)
Lemma build_field_mapping_catalog {V} (data_get : string -> V) :
  build_field_mapping data_get = dict_map data_get sec_gis_catalog.
Proof.
  unfold sec_gis_catalog, build_field_mapping.
  rewrite (lookup_all_second data_get field_mapping_display).
  rewrite (lookup_all_second data_get stockholder_totals_display).
  rewrite (lookup_all_second data_get remaining_display).
  rewrite !dict_map_dict_of_items.
  rewrite assign_loop_natural, dict_map_dict_update.
  rewrite assign_loop_natural, dict_map_dict_update.
  reflexivity.
Qed.

Lemma NoDup_keys_assign_loop {V} (data_get : string -> V)
    (table : nat -> list (string * string)) (indices : list nat) (d : dict V) :
  NoDup (keys d) ->
  NoDup (keys (fold_left (fun fm i => assign_all fm (lookup_all data_get (table i)))
                 indices d)).
Proof.
  revert d. induction indices as [|i indices IH]; intros d H; simpl; [exact H|].
  apply IH. now apply NoDup_keys_assign_all.
Qed.

Lemma NoDup_keys_build_field_mapping {V} (data_get : string -> V) :
  NoDup (keys (build_field_mapping data_get)).
Proof.
  unfold build_field_mapping, dict_update.
  apply (NoDup_keys_assign_all (V := V)).
  apply NoDup_keys_assign_loop.
  apply (NoDup_keys_assign_all (V := V)).
  apply NoDup_keys_assign_loop.
  apply NoDup_keys_dict_of_items.
Qed.

Section MapperFacts.

Context {U : Unicode}.
Variable repr_str : string -> string.
Variable json_loads : string -> option value.

Lemma clean_mapping_from (l : list (string * value)) : forall acc,
  NoDup (keys acc ++ keys l) ->
  fold_left (fun cleaned '(field, v) => dict_set cleaned field (clean_value repr_str v))
    l acc
  = (acc ++ dict_map (clean_value repr_str) l)%list.
Proof.
  induction l as [|[field v] l IH]; intros acc H; simpl.
  - now rewrite app_nil_r.
  - rewrite dict_set_fresh.
    + rewrite IH.
      * now rewrite <- app_assoc.
      * unfold keys in *. rewrite map_app. simpl. rewrite <- app_assoc. exact H.
    + apply NoDup_remove_2 in H. intros Hin. apply H.
      apply in_or_app. now left.
Qed.

(** On a dictionary the cleaning loop changes the values only. *)
Lemma clean_mapping_dict_map (field_mapping : dict value) :
  NoDup (keys field_mapping) ->
  clean_mapping repr_str field_mapping = dict_map (clean_value repr_str) field_mapping.
Proof. intros H. apply (clean_mapping_from field_mapping []). exact H. Qed.

Lemma map_sec_gis_fields_dict (data : dict value) :
  map_sec_gis_fields repr_str json_loads (VDict data)
  = Ok (dict_map
          (fun key => clean_value repr_str (dict_get_default data key (VStr "")))
          sec_gis_catalog).
Proof.
  unfold map_sec_gis_fields. cbv beta iota zeta.
  rewrite clean_mapping_dict_map by apply NoDup_keys_build_field_mapping.
  rewrite build_field_mapping_catalog.
  unfold dict_map. rewrite map_map. reflexivity.
Qed.

(** C7.  For every document that is a dictionary and every output field
    of the mapper, with the source key the catalog gives it: the field is
    the empty string when the key is absent, when its value is [None] and
    when the text of its value is "null" in any letter case; it is the
    text [str(value)] for every other value.  The output has the labels of
    the catalog, in its order.  On the document of the specification's
    scenario, "Document Type" is "GIS", "Director/Officer 1 Name" is "X"
    and "Director/Officer 2 Name" is empty.  Text that parses to a
    dictionary is mapped as that dictionary. *)
Theorem map_sec_gis_fields_entry :
  (forall (data : dict value) (label key : string),
      dict_get sec_gis_catalog label = Some key ->
      exists output,
        map_sec_gis_fields repr_str json_loads (VDict data) = Ok output
        /\ keys output = keys sec_gis_catalog
        /\ dict_get output label
           = Some match dict_get data key with
                  | None => ""
                  | Some VNone => ""
                  | Some v =>
                      if String.eqb (lower (py_str repr_str v)) "null" then ""
                      else py_str repr_str v
                  end)
  /\ (exists output,
        map_sec_gis_fields repr_str json_loads
          (VDict [("document_type", VStr "GIS"); ("director_officer_name_1", VStr "X")])
        = Ok output
        /\ dict_get output "Document Type" = Some "GIS"
        /\ dict_get output "Director/Officer 1 Name" = Some "X"
        /\ dict_get output "Director/Officer 2 Name" = Some "")
  /\ (forall text data,
        json_loads text = Some (VDict data) ->
        map_sec_gis_fields repr_str json_loads (VStr text)
        = map_sec_gis_fields repr_str json_loads (VDict data)).
Proof.
  split; [|split].
  - intros data label key Hkey.
    eexists. split; [apply map_sec_gis_fields_dict|]. split.
    + apply keys_dict_map.
    + rewrite dict_get_dict_map, Hkey. cbn [option_map]. f_equal.
      unfold dict_get_default.
      destruct (dict_get data key) as [v|]; [|reflexivity].
      destruct v; reflexivity.
  - eexists. split; [apply map_sec_gis_fields_dict|].
    rewrite !dict_get_dict_map.
    split; [|split]; vm_compute; reflexivity.
  - intros text data H. unfold map_sec_gis_fields. now rewrite H.
Qed.

(** C9.  Where the second [update] names a label twice, the value written
    last is the one kept: the two "from Stockholder detail pages" totals
    carry the cleaned values of [filipino_subscribed_capital_amount_php_1]
    and [filipino_paid_up_capital_amount_php_1], for every document.  The
    keys written first for them are in the display, and no output field
    reads them. *)
Theorem duplicate_labels_keep_last_value :
  forall (data : dict value),
    exists output,
      map_sec_gis_fields repr_str json_loads (VDict data) = Ok output
      /\ dict_get output "Subscribed Capital_Total (PHP) (from Stockholder detail pages)"
         = Some (clean_value repr_str
                   (dict_get_default data "filipino_subscribed_capital_amount_php_1"
                      (VStr "")))
      /\ dict_get output "Paid-Up Capital_Total (PHP) (from Stockholder detail pages)"
         = Some (clean_value repr_str
                   (dict_get_default data "filipino_paid_up_capital_amount_php_1"
                      (VStr "")))
      /\ In ("Subscribed Capital_Total (PHP) (from Stockholder detail pages)",
             "subscribed_capital_total_from_stockholders") remaining_display
      /\ In ("Paid-Up Capital_Total (PHP) (from Stockholder detail pages)",
             "paid_up_capital_total_from_stockholders") remaining_display
      /\ ~ In "subscribed_capital_total_from_stockholders" (values sec_gis_catalog)
      /\ ~ In "paid_up_capital_total_from_stockholders" (values sec_gis_catalog).
Proof.
  intros data. eexists. split; [apply map_sec_gis_fields_dict|].
  rewrite !dict_get_dict_map.
  assert (Hdec : forall x l, mem x l = false -> ~ In x l).
  { intros x l Hm Hin. unfold mem in Hm.
    assert (existsb (String.eqb x) l = true) as Ht
      by (apply existsb_exists; exists x; split; [exact Hin | apply String.eqb_refl]).
    congruence. }
  split; [reflexivity|]. split; [reflexivity|].
  split; [simpl; tauto|]. split; [simpl; tauto|].
  split; apply Hdec; vm_compute; reflexivity.
Qed.

End MapperFacts.

(* ================================================================== *)
(** * Properties of the reconciliation engine *)
(* ================================================================== *)

Lemma Qgtb_true (x y : Q) : Qgtb x y = true <-> (y < x)%Q.
Proof.
  unfold Qgtb. rewrite negb_true_iff.
  split.
  - intros H. apply Qnot_le_lt. intros Hle.
    apply Qle_bool_iff in Hle. congruence.
  - intros H. destruct (Qle_bool x y) eqn:E; [|reflexivity].
    apply Qle_bool_iff in E. exfalso. exact (Qlt_not_le _ _ H E).
Qed.

Lemma Qgtb_false (x y : Q) : Qgtb x y = false <-> (x <= y)%Q.
Proof.
  unfold Qgtb. rewrite negb_false_iff. apply Qle_bool_iff.
Qed.

(** The status the code computes is the one the specification words. *)
Lemma match_status_classify {U : Unicode} (resolved truth : string) :
  match_status resolved truth = classify_spec resolved truth.
Proof.
  unfold match_status, classify_spec.
  destruct (string_dec resolved truth) as [->|Hne].
  - now rewrite String.eqb_refl.
  - apply String.eqb_neq in Hne. rewrite Hne.
    destruct (Qlt_le_dec (9 # 10) (similarity_score resolved truth)) as [H9|H9].
    + apply Qgtb_true in H9. now rewrite H9.
    + apply Qgtb_false in H9. rewrite H9.
      destruct (Qlt_le_dec (7 # 10) (similarity_score resolved truth)) as [H7|H7].
      * apply Qgtb_true in H7. now rewrite H7.
      * apply Qgtb_false in H7. rewrite H7.
        destruct (string_dec resolved "") as [->|He]; [reflexivity|].
        apply String.eqb_neq in He. now rewrite He.
Qed.

(** Nothing matches the empty string. *)
Lemma ratio_nil_l {A} (eqb : A -> A -> bool) (b : list A) :
  ratio eqb [] b = calculate_ratio 0 (length b).
Proof. reflexivity. Qed.

Lemma lower_ascii_nonempty (s : string) : s <> "" -> lower_ascii s <> "".
Proof. destruct s; [congruence | discriminate]. Qed.

(** Lowering leaves something of a string that is not empty. *)
Lemma lower_nonempty {U : Unicode} (s : string) : s <> "" -> lower s <> "".
Proof.
  intros H. unfold lower. destruct (is_ascii s).
  - now apply lower_ascii_nonempty.
  - now apply unicode_lower_nonempty.
Qed.

Lemma code_points_nonempty (s : string) : s <> "" -> code_points s <> [].
Proof.
  destruct s as [|c s]; [congruence|]. intros _. cbn [code_points].
  destruct s as [|c' s]; [discriminate|].
  destruct (is_continuation c'); [|discriminate].
  destruct (code_points (String c' s)); discriminate.
Qed.

Lemma similarity_score_empty_l {U : Unicode} (truth : string) :
  truth <> "" -> (similarity_score "" truth == 0)%Q.
Proof.
  intros H. unfold similarity_score.
  assert (String.eqb "" truth = false) as ->
    by (apply String.eqb_neq; congruence).
  change (code_points (lower "")) with (@nil string).
  rewrite ratio_nil_l.
  pose proof (code_points_nonempty _ (lower_nonempty truth H)) as Hne.
  destruct (code_points (lower truth)) as [|p l]; [congruence|].
  reflexivity.
Qed.

Lemma match_status_empty_l {U : Unicode} (truth : string) :
  match_status "" truth = if String.eqb truth "" then PerfectMatch else MissingInJson.
Proof.
  unfold match_status.
  destruct truth as [|c truth]; [reflexivity|].
  cbn [String.eqb].
  assert (H : (similarity_score "" (String c truth) == 0)%Q)
    by (apply similarity_score_empty_l; discriminate).
  assert (H9 : Qgtb (similarity_score "" (String c truth)) (9 # 10) = false)
    by (apply Qgtb_false; rewrite H; discriminate).
  assert (H7 : Qgtb (similarity_score "" (String c truth)) (7 # 10) = false)
    by (apply Qgtb_false; rewrite H; discriminate).
  now rewrite H9, H7.
Qed.

(** ** Counting the occurrences of a label *)

Lemma occurrences_snoc label seen field_name :
  occurrences label (seen ++ [field_name])
  = (occurrences label seen + if String.eqb label field_name then 1 else 0)%nat.
Proof.
  unfold occurrences. rewrite filter_app, length_app. cbn [filter].
  now destruct (String.eqb label field_name).
Qed.

Lemma counters_agree_nil : counters_agree [] [].
Proof. intros label. reflexivity. Qed.

Lemma count_field_agree field_counters seen field_name :
  counters_agree field_counters seen ->
  snd (count_field field_counters field_name) = S (occurrences field_name seen)
  /\ counters_agree (fst (count_field field_counters field_name)) (seen ++ [field_name]).
Proof.
  intros H. unfold count_field.
  set (fc := if dict_mem field_counters field_name then field_counters
             else dict_set field_counters field_name 0%nat).
  assert (Hfc : forall label,
             dict_get_default fc label 0%nat = occurrences label seen).
  { intros label. rewrite <- H. unfold fc, dict_mem.
    destruct (dict_get field_counters field_name) as [c|] eqn:E; [reflexivity|].
    destruct (string_dec field_name label) as [<-|Hne].
    - rewrite dict_get_default_set_same. unfold dict_get_default. now rewrite E.
    - now rewrite dict_get_default_set_other. }
  cbn [fst snd]. split.
  - now rewrite Hfc.
  - intros label. rewrite occurrences_snoc.
    destruct (string_dec field_name label) as [<-|Hne].
    + rewrite dict_get_default_set_same, String.eqb_refl, Hfc. lia.
    + rewrite dict_get_default_set_other by exact Hne.
      assert (String.eqb label field_name = false) as ->
        by (apply String.eqb_neq; congruence).
      rewrite Hfc. lia.
Qed.

Section ReconcileFacts.

Context {U : Unicode}.
Variable repr_str : string -> string.

(** The loop appends, for the rows it keeps and in their order, the
    records of [reconcile_from]; it raises where [ground_truth_rows] does. *)
Lemma compare_rows_reconcile flattened_data cols truth_col remaining :
  forall field_counters comparison_results,
    compare_rows repr_str flattened_data cols truth_col remaining field_counters comparison_results
    = match ground_truth_rows repr_str cols truth_col remaining with
      | Ok ground_truth =>
          Ok (comparison_results
              ++ reconcile_from repr_str flattened_data field_counters ground_truth)%list
      | Raise e => Raise e
      end.
Proof.
  induction remaining as [|row rest IH]; intros fc acc;
    cbn [compare_rows ground_truth_rows].
  - now rewrite app_nil_r.
  - destruct (row_get cols row "Field") as [ | b | n | r | field_name | l | l ];
      try (destruct (truthy _); [reflexivity | apply IH]).
    destruct (negb (nonempty field_name) || String.eqb (strip field_name) "");
      [apply IH|].
    destruct (compare_row repr_str flattened_data fc field_name _) as [fc' record] eqn:E.
    rewrite IH.
    destruct (ground_truth_rows repr_str cols truth_col rest) as [l|e]; [|reflexivity].
    cbn [reconcile_from]. rewrite E. now rewrite <- app_assoc.
Qed.

Lemma compare_with_ground_truth_reconcile flattened_data df truth_col :
  truth_column df = Some truth_col ->
  compare_with_ground_truth repr_str flattened_data df
  = {| st_error := [];
       returned :=
         match ground_truth_rows repr_str (columns df) truth_col (rows df) with
         | Ok ground_truth => Ok (reconcile repr_str flattened_data ground_truth)
         | Raise e => Raise e
         end |}.
Proof.
  unfold truth_column, compare_with_ground_truth.
  destruct (mem "Field" (columns df)); [|discriminate]. cbn [negb].
  destruct (filter _ (columns df)) as [|c others]; [discriminate|].
  intros H. injection H as ->.
  now rewrite compare_rows_reconcile.
Qed.

(** The [n]-th record is built from the [n]-th kept row and the number
    of times its label has occurred so far, the row itself included. *)
Lemma reconcile_from_nth flattened_data ground_truth :
  forall field_counters seen n field_name truth_value,
    counters_agree field_counters seen ->
    nth_error ground_truth n = Some (field_name, truth_value) ->
    nth_error (reconcile_from repr_str flattened_data field_counters ground_truth) n
    = Some (comparison_record repr_str flattened_data field_name truth_value
              (S (occurrences field_name (seen ++ map fst (firstn n ground_truth))))).
Proof.
  induction ground_truth as [|[f t] rest IH];
    intros fc seen n field_name truth_value Hfc Hn.
  - now destruct n.
  - cbn [reconcile_from]. unfold compare_row.
    destruct (count_field_agree fc seen f Hfc) as [Hc Hfc'].
    destruct (count_field fc f) as [fc' c]. cbn [fst snd] in Hc, Hfc'.
    destruct n as [|n]; cbn [nth_error firstn map] in *.
    + injection Hn as -> ->. now rewrite app_nil_r, Hc.
    + rewrite (IH fc' (seen ++ [f])%list n field_name truth_value Hfc' Hn).
      now rewrite <- app_assoc.
Qed.

Lemma occurrences_firstn_S (ground_truth : list (string * string)) n field_name truth_value :
  nth_error ground_truth n = Some (field_name, truth_value) ->
  occurrences field_name (map fst (firstn (S n) ground_truth))
  = S (occurrences field_name (map fst (firstn n ground_truth))).
Proof.
  intros Hn.
  assert (H : firstn (S n) ground_truth
              = (firstn n ground_truth ++ [(field_name, truth_value)])%list).
  { revert n Hn. induction ground_truth as [|[f t] rest IH]; intros n Hn.
    - now destruct n.
    - destruct n as [|n]; cbn [nth_error] in Hn.
      + now injection Hn as -> ->.
      + cbn [firstn app]. f_equal. now apply IH. }
  rewrite H, map_app. cbn [map fst]. rewrite occurrences_snoc.
  rewrite String.eqb_refl. lia.
Qed.

Lemma reconcile_nth flattened_data ground_truth n field_name truth_value :
  nth_error ground_truth n = Some (field_name, truth_value) ->
  nth_error (reconcile repr_str flattened_data ground_truth) n
  = Some (comparison_record repr_str flattened_data field_name truth_value
            (occurrences field_name (map fst (firstn (S n) ground_truth)))).
Proof.
  intros Hn. unfold reconcile.
  rewrite (reconcile_from_nth flattened_data ground_truth [] [] n field_name truth_value
             counters_agree_nil Hn).
  now rewrite (occurrences_firstn_S ground_truth n field_name truth_value Hn).
Qed.

Lemma reconcile_from_Forall (P : ComparisonRow -> Prop) flattened_data :
  (forall field_name truth_value count,
      P (comparison_record repr_str flattened_data field_name truth_value count)) ->
  forall ground_truth field_counters,
    Forall P (reconcile_from repr_str flattened_data field_counters ground_truth).
Proof.
  intros HP. induction ground_truth as [|[f t] rest IH]; intros fc;
    cbn [reconcile_from]; [constructor|].
  unfold compare_row. destruct (count_field fc f) as [fc' c].
  constructor; [apply HP | apply IH].
Qed.

(** Every record the call returns is a record of the loop body. *)
Lemma compare_with_ground_truth_Forall (P : ComparisonRow -> Prop) flattened_data df out :
  (forall field_name truth_value count,
      P (comparison_record repr_str flattened_data field_name truth_value count)) ->
  returned (compare_with_ground_truth repr_str flattened_data df) = Ok out ->
  Forall P out.
Proof.
  intros HP. unfold compare_with_ground_truth.
  destruct (negb (mem "Field" (columns df))).
  - cbn [returned]. intros H. injection H as <-. constructor.
  - destruct (filter _ (columns df)) as [|truth_col others]; cbn [returned].
    + intros H. injection H as <-. constructor.
    + rewrite compare_rows_reconcile.
      destruct (ground_truth_rows _ _ _ _) as [l|e]; [|discriminate].
      intros H. injection H as <-. cbn [app].
      now apply reconcile_from_Forall.
Qed.

End ReconcileFacts.

(** ** The tables *)

Lemma dict_get_In {V} (d : dict V) k v : dict_get d k = Some v -> In (k, v) d.
Proof.
  induction d as [|[k0 v0] d IH]; simpl; [discriminate|].
  destruct (String.eqb k0 k) eqn:E.
  - apply String.eqb_eq in E. intros H. injection H as ->. subst. now left.
  - intros H. right. now apply IH.
Qed.

(** One label only is marked as having no JSON counterpart. *)
Lemma explicitly_missing_field field_name :
  dict_get field_mappings field_name = Some "" ->
  field_name = "Unrestricted Retained Earnings (PHP)".
Proof.
  intros H. apply dict_get_In in H.
  vm_compute in H.
  repeat (destruct H as [H|H]; [try discriminate H; now injection H|]).
  contradiction.
Qed.

Lemma is_repeated_field_iff field_name :
  is_repeated_field field_name = true
  <-> startswith field_name "Director/Officer" = true
      \/ startswith field_name "Stockholder" = true
      \/ startswith field_name "AMLA Category" = true.
Proof.
  unfold is_repeated_field. cbn [existsb].
  rewrite !orb_true_iff. intuition discriminate.
Qed.

Lemma is_single_entry_iff field_name :
  is_single_entry field_name = true
  <-> exists p, In p single_entry_fields
                /\ (startswith field_name p = true \/ field_name = p).
Proof.
  unfold is_single_entry. rewrite existsb_exists.
  split; intros [p [Hin H]]; exists p; split; auto.
  - apply orb_true_iff in H. destruct H as [H|H]; [now left|].
    right. now apply String.eqb_eq.
  - apply orb_true_iff. destruct H as [H|H]; [now left|].
    right. now apply String.eqb_eq.
Qed.

Lemma startswith_append field_name p :
  startswith field_name p = true -> exists rest, field_name = p ++ rest.
Proof.
  unfold startswith. revert field_name.
  induction p as [|c p IH]; intros field_name H.
  - now exists field_name.
  - destruct field_name as [|c' field_name]; [discriminate|].
    cbn [prefix] in H. destruct (ascii_dec c c') as [->|]; [|discriminate].
    destruct (IH _ H) as [rest ->]. now exists rest.
Qed.

(** No repeated label is a single-entry label, and none is marked as
    having no JSON counterpart. *)
Lemma repeated_field_not_single_entry field_name :
  is_repeated_field field_name = true -> is_single_entry field_name = false.
Proof.
  intros H. apply is_repeated_field_iff in H.
  destruct H as [H|[H|H]]; apply startswith_append in H;
    destruct H as [rest ->]; reflexivity.
Qed.

Lemma repeated_field_not_explicitly_missing field_name :
  is_repeated_field field_name = true ->
  dict_get field_mappings field_name <> Some "".
Proof.
  intros H He. apply explicitly_missing_field in He. subst. discriminate.
Qed.

Section ReconcileClaims.

Context {U : Unicode}.
Variable repr_str : string -> string.

(** The record of the [n]-th kept row of a frame that has its columns. *)
Lemma compare_with_ground_truth_nth flattened_data df truth_col ground_truth
    n field_name truth_value :
  truth_column df = Some truth_col ->
  ground_truth_rows repr_str (columns df) truth_col (rows df) = Ok ground_truth ->
  nth_error ground_truth n = Some (field_name, truth_value) ->
  exists out,
    compare_with_ground_truth repr_str flattened_data df
    = {| st_error := []; returned := Ok out |}
    /\ length out = length ground_truth
    /\ nth_error out n
       = Some (comparison_record repr_str flattened_data field_name truth_value
                 (occurrences field_name (map fst (firstn (S n) ground_truth)))).
Proof.
  intros Hcol Hrows Hn.
  exists (reconcile repr_str flattened_data ground_truth).
  rewrite (compare_with_ground_truth_reconcile _ _ _ _ Hcol), Hrows.
  split; [reflexivity|]. split; [|now apply reconcile_nth].
  unfold reconcile. generalize (@nil (string * nat)).
  clear. induction ground_truth as [|[f t] rest IH]; intros fc; [reflexivity|].
  cbn [reconcile_from]. unfold compare_row.
  destruct (count_field fc f) as [fc' c]. cbn [length]. now rewrite IH.
Qed.

(** C1.  Every record returned carries the status the specification
    words, the first condition that holds deciding: equal strings give
    PerfectMatch; else a similarity above 0.9 gives VeryClose; else one
    above 0.7 gives Similar; else an empty resolved value gives
    MissingInJson; else Mismatch.  The similarity is that of the resolved
    value and the ground truth.  Two empty strings are a PerfectMatch. *)
Theorem status_follows_classification :
  (forall flattened_data df out,
      returned (compare_with_ground_truth repr_str flattened_data df) = Ok out ->
      Forall (fun r =>
                Row_Status r = classify_spec (JSON_Value r) (Ground_Truth r)
                /\ Similarity_Score r
                   = similarity_score (JSON_Value r) (Ground_Truth r)) out)
  /\ classify_spec "" "" = PerfectMatch
  /\ compare_with_ground_truth repr_str []
       {| columns := ["Field"; "Ground Truth"];
          rows := [[VStr "Website/URL"; VStr ""]] |}
     = {| st_error := [];
          returned :=
            Ok [ {| Field := "Website/URL";
                    JSON_Value := "";
                    Ground_Truth := "";
                    Row_Status := PerfectMatch;
                    Similarity_Score := 1 |} ] |}.
Proof.
  split; [|split; [reflexivity | vm_compute; reflexivity]].
  intros flattened_data df out H.
  apply (compare_with_ground_truth_Forall repr_str _ flattened_data df out); [|exact H].
  intros field_name truth_value count. cbn [comparison_record Row_Status
    JSON_Value Ground_Truth Similarity_Score].
  split; [apply match_status_classify | reflexivity].
Qed.

Lemma resolve_single_entry_repeat flattened_data field_name count :
  is_single_entry field_name = true -> (1 < count)%nat ->
  resolve repr_str flattened_data field_name count = "".
Proof.
  intros Hs Hc. unfold resolve. rewrite Hs.
  apply Nat.ltb_lt in Hc. now rewrite Hc.
Qed.

(** C2.  In a frame that has its columns, a kept row whose label is a
    single-entry label (an entry of [single_entry_fields] is a prefix of
    it, or equal to it) and has occurred before resolves to the empty
    string, whatever the flat map holds: the record has the empty JSON
    value, and its status is MissingInJson unless the ground truth is
    empty too.  In the scenario of the specification the first row is a
    PerfectMatch on "Acme Inc" and the second is MissingInJson. *)
Theorem single_entry_repeat_resolves_to_empty :
  (forall flattened_data df truth_col ground_truth n field_name truth_value,
      truth_column df = Some truth_col ->
      ground_truth_rows repr_str (columns df) truth_col (rows df) = Ok ground_truth ->
      nth_error ground_truth n = Some (field_name, truth_value) ->
      is_single_entry field_name = true ->
      (1 < occurrences field_name (map fst (firstn (S n) ground_truth)))%nat ->
      exists out r,
        returned (compare_with_ground_truth repr_str flattened_data df) = Ok out
        /\ nth_error out n = Some r
        /\ JSON_Value r = ""
        /\ Ground_Truth r = truth_value
        /\ Row_Status r
           = if String.eqb truth_value "" then PerfectMatch else MissingInJson)
  /\ (forall flattened_data field_name count,
        is_single_entry field_name = true -> (1 < count)%nat ->
        resolve repr_str flattened_data field_name count = "")
  /\ (forall field_name,
        is_single_entry field_name = true
        <-> exists p, In p single_entry_fields
                      /\ (startswith field_name p = true \/ field_name = p))
  /\ compare_with_ground_truth repr_str [("business_trade_name", VStr "Acme Inc")]
       {| columns := ["Field"; "Ground Truth"];
          rows := [ [VStr "Corporate Name"; VStr "Acme Inc"];
                    [VStr "Corporate Name"; VStr "Should Be Empty"] ] |}
     = {| st_error := [];
          returned :=
            Ok [ {| Field := "Corporate Name";
                    JSON_Value := "Acme Inc";
                    Ground_Truth := "Acme Inc";
                    Row_Status := PerfectMatch;
                    Similarity_Score := 1 |};
                 {| Field := "Corporate Name (2)";
                    JSON_Value := "";
                    Ground_Truth := "Should Be Empty";
                    Row_Status := MissingInJson;
                    Similarity_Score := 0 # 15 |} ] |}.
Proof.
  split; [|split; [|split]].
  - intros flattened_data df truth_col ground_truth n field_name truth_value
      Hcol Hrows Hn Hs Hc.
    destruct (compare_with_ground_truth_nth flattened_data df truth_col ground_truth
                n field_name truth_value Hcol Hrows Hn) as [out [Hout [_ Hnth]]].
    exists out. eexists. rewrite Hout. split; [reflexivity|]. split; [exact Hnth|].
    cbn [comparison_record JSON_Value Ground_Truth Row_Status].
    rewrite (resolve_single_entry_repeat _ _ _ Hs Hc).
    split; [reflexivity|]. split; [reflexivity|]. apply match_status_empty_l.
  - exact resolve_single_entry_repeat.
  - exact is_single_entry_iff.
  - vm_compute. reflexivity.
Qed.

Lemma possible_keys_repeated field_name count :
  is_repeated_field field_name = true ->
  possible_keys field_name count
  = numbered_key field_name count
      :: remove_duplicates []
           (field_name
              :: match dict_get field_mappings field_name with
                 | Some mapped_field =>
                     if nonempty mapped_field
                     then mapped_field :: base_transforms field_name
                     else base_transforms field_name
                 | None => base_transforms field_name
                 end).
Proof.
  intros H. unfold possible_keys, numbered_key. rewrite H. cbn [app].
  destruct (dict_get field_mappings field_name) as [stem|]; [|reflexivity].
  now destruct (nonempty stem).
Qed.

(** The source's transform does what the specification words. *)
Lemma comprehensive_transform_refines label :
  comprehensive_transform label = comprehensive_transform_spec label.
Proof. reflexivity. Qed.

(** C3.  For a label that starts with "Director/Officer", "Stockholder"
    or "AMLA Category", the candidate list starts with the numbered key:
    the stem the override table gives the label when that stem is not
    empty, the comprehensive transform of the label otherwise (lowercase;
    space, slash and hyphen replaced by an underscore; parentheses, the
    sign ≥, full stop and apostrophe deleted), then "_" and the count.
    The count of a kept row is the number of times its label has occurred
    so far, the row included, and a numbered key that is in the flat map
    decides the value.  In the scenario of the specification both rows are
    a PerfectMatch and the second is displayed as "Stockholder_Name (2)";
    a label with no override, "Stockholder_Tax ID No. (TIN)", is looked up
    under "stockholder_tax_id_no_tin_1" and "stockholder_tax_id_no_tin_2". *)
Theorem repeated_label_numbered_key_first :
  (forall field_name count,
      is_repeated_field field_name = true ->
      possible_keys field_name count
      = ((match dict_get field_mappings field_name with
          | Some stem =>
              if nonempty stem then stem else comprehensive_transform_spec field_name
          | None => comprehensive_transform_spec field_name
          end) ++ "_" ++ str_of_nat count)
          :: remove_duplicates []
               (field_name
                  :: match dict_get field_mappings field_name with
                     | Some mapped_field =>
                         if nonempty mapped_field
                         then mapped_field :: base_transforms field_name
                         else base_transforms field_name
                     | None => base_transforms field_name
                     end))
  /\ (forall label,
        comprehensive_transform label
        = replace "'" "" (replace "." "" (replace "≥" "" (replace ")" "" (replace "(" ""
            (replace "-" "_" (replace "/" "_" (replace " " "_" (lower label)))))))))
  /\ (dict_get field_mappings "Stockholder_Tax ID No. (TIN)" = None
      /\ comprehensive_transform_spec "Stockholder_Tax ID No. (TIN)"
         = "stockholder_tax_id_no_tin"
      /\ comprehensive_transform_spec "Director/Officer_Co-Owner's Share"
         = "director_officer_co_owners_share")
  /\ (forall field_name,
        is_repeated_field field_name = true
        <-> startswith field_name "Director/Officer" = true
            \/ startswith field_name "Stockholder" = true
            \/ startswith field_name "AMLA Category" = true)
  /\ (forall flattened_data df truth_col ground_truth n field_name truth_value,
        truth_column df = Some truth_col ->
        ground_truth_rows repr_str (columns df) truth_col (rows df) = Ok ground_truth ->
        nth_error ground_truth n = Some (field_name, truth_value) ->
        is_repeated_field field_name = true ->
        let count := occurrences field_name (map fst (firstn (S n) ground_truth)) in
        exists out r,
          returned (compare_with_ground_truth repr_str flattened_data df) = Ok out
          /\ nth_error out n = Some r
          /\ JSON_Value r
             = first_present repr_str flattened_data (possible_keys field_name count)
          /\ (forall v,
                dict_get flattened_data (hd "" (possible_keys field_name count)) = Some v ->
                JSON_Value r = normalize_value repr_str v))
  /\ compare_with_ground_truth repr_str
       [("stockholder_name_1", VStr "Alice"); ("stockholder_name_2", VStr "Bob")]
       {| columns := ["Field"; "Ground Truth"];
          rows := [ [VStr "Stockholder_Name"; VStr "Alice"];
                    [VStr "Stockholder_Name"; VStr "Bob"] ] |}
     = {| st_error := [];
          returned :=
            Ok [ {| Field := "Stockholder_Name";
                    JSON_Value := "Alice";
                    Ground_Truth := "Alice";
                    Row_Status := PerfectMatch;
                    Similarity_Score := 1 |};
                 {| Field := "Stockholder_Name (2)";
                    JSON_Value := "Bob";
                    Ground_Truth := "Bob";
                    Row_Status := PerfectMatch;
                    Similarity_Score := 1 |} ] |}
  /\ compare_with_ground_truth repr_str
       [ ("stockholder_tax_id_no_tin_1", VStr "111");
         ("stockholder_tax_id_no_tin_2", VStr "222");
         ("Stockholder_Tax ID No. (TIN)", VStr "333") ]
       {| columns := ["Field"; "Ground Truth"];
          rows := [ [VStr "Stockholder_Tax ID No. (TIN)"; VStr "111"];
                    [VStr "Stockholder_Tax ID No. (TIN)"; VStr "222"] ] |}
     = {| st_error := [];
          returned :=
            Ok [ {| Field := "Stockholder_Tax ID No. (TIN)";
                    JSON_Value := "111";
                    Ground_Truth := "111";
                    Row_Status := PerfectMatch;
                    Similarity_Score := 1 |};
                 {| Field := "Stockholder_Tax ID No. (TIN) (2)";
                    JSON_Value := "222";
                    Ground_Truth := "222";
                    Row_Status := PerfectMatch;
                    Similarity_Score := 1 |} ] |}.
Proof.
  split; [|split; [|split; [|split; [|split; [|split]]]]].
  - intros field_name count H. rewrite (possible_keys_repeated _ _ H).
    unfold numbered_key. rewrite <- (comprehensive_transform_refines field_name).
    destruct (dict_get field_mappings field_name) as [stem|]; [|reflexivity].
    now destruct (nonempty stem).
  - reflexivity.
  - split; [vm_compute; reflexivity|]. split; vm_compute; reflexivity.
  - exact is_repeated_field_iff.
  - intros flattened_data df truth_col ground_truth n field_name truth_value
      Hcol Hrows Hn Hr count.
    destruct (compare_with_ground_truth_nth flattened_data df truth_col ground_truth
                n field_name truth_value Hcol Hrows Hn) as [out [Hout [_ Hnth]]].
    exists out. eexists. rewrite Hout. split; [reflexivity|]. split; [exact Hnth|].
    fold count. cbn [comparison_record JSON_Value].
    assert (Hres : resolve repr_str flattened_data field_name count
                   = first_present repr_str flattened_data
                       (possible_keys field_name count)).
    { unfold resolve. rewrite (repeated_field_not_single_entry _ Hr). cbn [andb].
      pose proof (repeated_field_not_explicitly_missing _ Hr) as Hm.
      destruct (dict_get field_mappings field_name) as [[|c s]|];
        [congruence | reflexivity | reflexivity]. }
    split; [exact Hres|]. intros v Hv. rewrite Hres.
    rewrite (possible_keys_repeated _ _ Hr) in *. cbn [hd] in Hv.
    cbn [first_present]. now rewrite Hv.
  - vm_compute. reflexivity.
  - vm_compute. reflexivity.
Qed.

(** C4, as the code has it.  When the frame has no "Field" column, or
    has one and no other column, the call raises nothing: it gives one
    message to [st.error] and returns the empty data frame. *)
Theorem missing_columns_are_reported :
  forall flattened_data df,
    (~ In "Field" (columns df)
     \/ (forall col, In col (columns df) -> col = "Field")) ->
    returned (compare_with_ground_truth repr_str flattened_data df) = Ok []
    /\ (st_error (compare_with_ground_truth repr_str flattened_data df)
        = ["Ground truth data must have a 'Field' column"]
        \/ st_error (compare_with_ground_truth repr_str flattened_data df)
           = ["Ground truth data must have at least 1 value column (ground truth)"]).
Proof.
  intros flattened_data df H. unfold compare_with_ground_truth.
  destruct (mem "Field" (columns df)) eqn:Hmem; cbn [negb].
  - assert (Hall : forall col, In col (columns df) -> col = "Field").
    { destruct H as [H|H]; [|exact H].
      exfalso. apply H. unfold mem in Hmem. apply existsb_exists in Hmem.
      destruct Hmem as [x [Hin Hx]]. apply String.eqb_eq in Hx. now subst. }
    assert (Hf : filter (fun col => negb (String.eqb col "Field")) (columns df) = []).
    { clear -Hall. induction (columns df) as [|c l IH]; [reflexivity|].
      cbn [filter]. rewrite (Hall c) by now left. cbn.
      apply IH. intros col Hin. apply Hall. now right. }
    rewrite Hf. cbn. split; [reflexivity | now right].
  - cbn. split; [reflexivity | now left].
Qed.

Lemma match_status_missing resolved truth :
  match_status resolved truth = MissingInJson -> resolved = "".
Proof.
  unfold match_status.
  destruct (String.eqb resolved truth); [discriminate|].
  destruct (Qgtb _ _); [discriminate|].
  destruct (Qgtb _ _); [discriminate|].
  destruct (String.eqb resolved "") eqn:E; [|discriminate].
  intros _. now apply String.eqb_eq.
Qed.

(** C6.  Normalisation maps [None] to the empty string and trims every
    other value of the white space [str.strip] removes, that of Unicode
    included, and does nothing else: a value whose trimmed text is "N/A",
    "null", "na" or "none" keeps that text.  Such a value against the
    same text is a PerfectMatch, and it is never MissingInJson, a status
    only an empty resolved value can have.  "N/A" followed by a no-break
    space and "N/A" after an em space are both compared as "N/A". *)
Theorem null_spellings_are_not_folded :
  (forall s,
      In (strip s) ["N/A"; "null"; "na"; "none"] ->
      normalize_value repr_str (VStr s) = strip s
      /\ normalize_value repr_str (VStr s) <> ""
      /\ match_status (normalize_value repr_str (VStr s))
           (normalize_value repr_str (VStr s)) = PerfectMatch
      /\ (forall truth,
            match_status (normalize_value repr_str (VStr s)) truth <> MissingInJson))
  /\ normalize_value repr_str VNone = ""
  /\ (forall v, v <> VNone -> normalize_value repr_str v = strip (py_str repr_str v))
  /\ (forall flattened_data df out,
        returned (compare_with_ground_truth repr_str flattened_data df) = Ok out ->
        Forall (fun r => Row_Status r = MissingInJson -> JSON_Value r = "") out)
  /\ compare_with_ground_truth repr_str [("website_url", VStr "N/A")]
       {| columns := ["Field"; "Ground Truth"];
          rows := [[VStr "Website/URL"; VStr " N/A "]] |}
     = {| st_error := [];
          returned :=
            Ok [ {| Field := "Website/URL";
                    JSON_Value := "N/A";
                    Ground_Truth := "N/A";
                    Row_Status := PerfectMatch;
                    Similarity_Score := 1 |} ] |}
  /\ compare_with_ground_truth repr_str
       [("website_url", VStr ("N/A" ++ no_break_space))]
       {| columns := ["Field"; "Ground Truth"];
          rows := [[VStr "Website/URL"; VStr (em_space ++ "N/A")]] |}
     = {| st_error := [];
          returned :=
            Ok [ {| Field := "Website/URL";
                    JSON_Value := "N/A";
                    Ground_Truth := "N/A";
                    Row_Status := PerfectMatch;
                    Similarity_Score := 1 |} ] |}.
Proof.
  split; [|split; [reflexivity|split; [|split; [|split]]]].
  - intros s Hs. cbn [normalize_value py_str].
    assert (Hne : strip s <> "").
    { cbn [In] in Hs. intros He. rewrite He in Hs.
      intuition discriminate. }
    split; [reflexivity|]. split; [exact Hne|]. split.
    + unfold match_status. now rewrite String.eqb_refl.
    + intros truth Hm. apply match_status_missing in Hm. contradiction.
  - intros v Hv. destruct v; try reflexivity. congruence.
  - intros flattened_data df out H.
    apply (compare_with_ground_truth_Forall repr_str _ flattened_data df out); [|exact H].
    intros field_name truth_value count.
    cbn [comparison_record Row_Status JSON_Value]. apply match_status_missing.
  - vm_compute. reflexivity.
  - vm_compute. reflexivity.
Qed.

End ReconcileClaims.

(* ================================================================== *)
(** * Properties of [SequenceMatcher]: a sequence against itself *)
(* ================================================================== *)

Section SequenceAgainstItself.

Local Open Scope nat_scope.

Variable A : Type.
Variable eqb : A -> A -> bool.
Hypothesis eqb_eq : forall x y, eqb x y = true <-> x = y.

Lemma eqb_same x : eqb x x = true.
Proof. now apply eqb_eq. Qed.

(** *** The index lists of [b2j] *)

Lemma In_indices_from x (b : list A) : forall i0 j,
  In j (indices_from eqb x i0 b)
  <-> exists m, j = i0 + m /\ nth_error b m = Some x.
Proof.
  induction b as [|y b IH]; intros i0 j; cbn [indices_from].
  - split; [contradiction|]. intros [m [_ H]]. now destruct m.
  - assert (Hrec : In j (indices_from eqb x (S i0) b)
                   <-> exists m, j = i0 + S m /\ nth_error b m = Some x).
    { rewrite IH. split; intros [m [H1 H2]]; exists m; split; auto; lia. }
    destruct (eqb y x) eqn:E.
    + apply eqb_eq in E. subst y. cbn [In]. rewrite Hrec. split.
      * intros [H|[m [H1 H2]]].
        -- exists 0. split; [lia | reflexivity].
        -- exists (S m). now split.
      * intros [[|m] [H1 H2]].
        -- left. lia.
        -- right. exists m. now split.
    + rewrite Hrec. split.
      * intros [m [H1 H2]]. exists (S m). now split.
      * intros [[|m] [H1 H2]].
        -- cbn in H2. injection H2 as ->. rewrite eqb_same in E. discriminate.
        -- exists m. now split.
Qed.

Lemma indices_from_sorted x (b : list A) : forall i0,
  StronglySorted lt (indices_from eqb x i0 b).
Proof.
  induction b as [|y b IH]; intros i0; cbn [indices_from]; [constructor|].
  destruct (eqb y x); [|apply IH].
  constructor; [apply IH|].
  apply Forall_forall. intros j Hj.
  apply In_indices_from in Hj. destruct Hj as [m [-> _]]. lia.
Qed.

Variable s : list A.

(** A run of elements that are not popular is no longer than the prefix
    it lies in. *)
Lemma unpopular_run_le m : unpopular_run eqb s m <= m.
Proof.
  induction m as [|m IH]; cbn [unpopular_run]; [lia|].
  destruct (nth_error s m) as [x|]; [|lia].
  destruct (popular eqb s x); lia.
Qed.

Lemma unpopular_run_S m x :
  nth_error s m = Some x -> popular eqb s x = false ->
  unpopular_run eqb s (S m) = S (unpopular_run eqb s m).
Proof. intros H1 H2. cbn [unpopular_run]. now rewrite H1, H2. Qed.

Lemma unpopular_run_popular m x :
  nth_error s m = Some x -> popular eqb s x = true ->
  unpopular_run eqb s (S m) = 0.
Proof. intros H1 H2. cbn [unpopular_run]. now rewrite H1, H2. Qed.

(** *** One row of the search

    With [a] and [b] the same sequence, [j2len] is bounded by the runs of
    unpopular elements, and the best block so far lies on the diagonal. *)

Section Row.

Variable i : nat.
Variable j2len : nat -> nat.
Hypothesis Hi : i < length s.
Hypothesis Hrow : forall j, j2lenget j2len j <= unpopular_run eqb s j.
Hypothesis Hcol : forall j, j2lenget j2len j <= unpopular_run eqb s i.
Hypothesis Hdiag : j2lenget j2len i = unpopular_run eqb s i.
Hypothesis Hrun : unpopular_run eqb s (S i) = S (unpopular_run eqb s i).

Lemma scan_row_diagonal (js : list nat) :
  forall newj2len d sz,
    StronglySorted lt js ->
    (forall j, In j js ->
       j < length s /\ unpopular_run eqb s (S j) = S (unpopular_run eqb s j)) ->
    (forall m, m <= i -> unpopular_run eqb s m <= sz) ->
    d + sz <= S i ->
    In i js \/ unpopular_run eqb s (S i) <= sz ->
    exists new' d' sz',
      scan_row 0 (length s) i j2len js newj2len (d, d, sz) = (new', (d', d', sz'))
      /\ (forall m, m <= S i -> unpopular_run eqb s m <= sz')
      /\ d' + sz' <= S i
      /\ (forall x, new' x = if existsb (Nat.eqb x) js
                             then S (j2lenget j2len x) else newj2len x).
Proof.
  induction js as [|j js IH]; intros newj2len d sz Hsorted Hjs Hbest Hd Hor.
  - exists newj2len, d, sz. cbn [scan_row existsb].
    split; [reflexivity|]. split; [|split; [exact Hd | reflexivity]].
    intros m Hm. destruct Hor as [[]|Hor].
    destruct (Nat.eq_dec m (S i)) as [->|]; [exact Hor | apply Hbest; lia].
  - inversion Hsorted as [|? ? Hsorted' Hlt]; subst.
    destruct (Hjs j (or_introl eq_refl)) as [Hj Hrunj].
    cbn [scan_row]. change (j <? 0) with false. cbv iota.
    assert (Hbhi : (length s <=? j) = false) by (apply Nat.leb_gt; exact Hj).
    rewrite Hbhi.
    set (k := j2lenget j2len j + 1).
    set (newj2len' := fun x => if x =? j then k else newj2len x).
    assert (Hk : exists d2 sz2,
               (if sz <? k then (i + 1 - k, j + 1 - k, k) else (d, d, sz))
               = (d2, d2, sz2)
               /\ (forall m, m <= i -> unpopular_run eqb s m <= sz2)
               /\ d2 + sz2 <= S i
               /\ (In i js \/ unpopular_run eqb s (S i) <= sz2)).
    { destruct (lt_eq_lt_dec j i) as [[Hji|Hji]|Hji].
      - (* a column to the left of the diagonal *)
        assert (k <= sz).
        { unfold k. specialize (Hrow j). specialize (Hbest (S j) Hji). lia. }
        assert ((sz <? k) = false) as -> by (apply Nat.ltb_ge; lia).
        exists d, sz. repeat split; auto.
        destruct Hor as [[Hor|Hor]|Hor]; [lia | now left | now right].
      - (* the diagonal *)
        subst j. assert (Hkrun : k = unpopular_run eqb s (S i))
          by (unfold k; rewrite Hdiag, Hrun; lia).
        pose proof (unpopular_run_le (S i)) as Hle.
        destruct (sz <? k) eqn:E.
        + apply Nat.ltb_lt in E. exists (i + 1 - k), k.
          split; [reflexivity|]. split; [|split; [lia | right; lia]].
          intros m Hm. specialize (Hbest m Hm). lia.
        + apply Nat.ltb_ge in E. exists d, sz.
          split; [reflexivity|]. split; [exact Hbest|]. split; [exact Hd|].
          right. lia.
      - (* a column to the right of the diagonal *)
        assert (Hsz : unpopular_run eqb s (S i) <= sz).
        { destruct Hor as [[Hor|Hor]|Hor]; [lia | | exact Hor].
          rewrite Forall_forall in Hlt. specialize (Hlt i Hor). lia. }
        assert (k <= sz) by (unfold k; specialize (Hcol j); lia).
        assert ((sz <? k) = false) as -> by (apply Nat.ltb_ge; lia).
        exists d, sz. repeat split; auto. }
    destruct Hk as [d2 [sz2 [Hbest' [Hbest2 [Hd2 Hor2]]]]].
    rewrite Hbest'.
    destruct (IH newj2len' d2 sz2 Hsorted'
                (fun j' H => Hjs j' (or_intror H)) Hbest2 Hd2 Hor2)
      as [new' [d' [sz' [Hscan [H1 [H2 H3]]]]]].
    exists new', d', sz'. split; [exact Hscan|]. split; [exact H1|].
    split; [exact H2|].
    intros x. rewrite H3. cbn [existsb]. unfold newj2len'.
    destruct (existsb (Nat.eqb x) js); [now rewrite orb_true_r|].
    rewrite orb_false_r. destruct (x =? j) eqn:E; [|reflexivity].
    apply Nat.eqb_eq in E. subst x. unfold k. lia.
Qed.

End Row.

(** *** All the rows *)

Lemma scan_rows_diagonal : forall k i j2len d sz,
  i + k = length s ->
  (forall j, j2lenget j2len j <= unpopular_run eqb s j) ->
  (forall j, j2lenget j2len j <= unpopular_run eqb s i) ->
  j2lenget j2len i = unpopular_run eqb s i ->
  (forall m, m <= i -> unpopular_run eqb s m <= sz) ->
  d + sz <= i ->
  exists d' sz',
    scan_rows eqb s s 0 (length s) (seq i k) j2len (d, d, sz) = (d', d', sz')
    /\ d' + sz' <= length s.
Proof.
  induction k as [|k IH]; intros i j2len d sz Hik Hrow Hcol Hdiag Hbest Hd.
  - exists d, sz. split; [reflexivity | lia].
  - cbn [seq scan_rows].
    assert (Hi : i < length s) by lia.
    destruct (nth_error s i) as [x|] eqn:Hx;
      [|apply nth_error_None in Hx; lia].
    unfold b2j. destruct (popular eqb s x) eqn:Hpop.
    + (* a popular element: [b2j] has no entry for it *)
      cbn [scan_row].
      pose proof (unpopular_run_popular i x Hx Hpop) as Hzero.
      apply IH; try lia.
      * intros [|j]; cbn [j2lenget]; lia.
      * intros [|j]; cbn [j2lenget]; lia.
      * cbn [j2lenget]. lia.
      * intros m Hm. destruct (Nat.eq_dec m (S i)) as [->|]; [lia|].
        apply Hbest. lia.
    + pose proof (unpopular_run_S i x Hx Hpop) as Hrun.
      assert (Hjs : forall j, In j (indices_from eqb x 0 s) ->
                      j < length s
                      /\ unpopular_run eqb s (S j) = S (unpopular_run eqb s j)).
      { intros j Hj. apply In_indices_from in Hj.
        destruct Hj as [m [-> Hm]]. cbn [Nat.add]. split.
        - apply nth_error_Some. congruence.
        - now apply (unpopular_run_S m x). }
      assert (Hin : In i (indices_from eqb x 0 s))
        by (apply In_indices_from; exists i; now split).
      destruct (scan_row_diagonal i j2len Hi Hrow Hcol Hdiag Hrun
                  (indices_from eqb x 0 s) (fun _ => 0) d sz
                  (indices_from_sorted x s 0) Hjs Hbest
                  (Nat.le_trans _ _ _ Hd (Nat.le_succ_diag_r i))
                  (or_introl Hin))
        as [new' [d' [sz' [Hscan [H1 [H2 H3]]]]]].
      rewrite Hscan.
      assert (Hnew : forall j,
                 j2lenget new' (S j)
                 = if existsb (Nat.eqb j) (indices_from eqb x 0 s)
                   then S (j2lenget j2len j) else 0)
        by (intros j; cbn [j2lenget]; apply H3).
      assert (Hmem : forall j,
                 existsb (Nat.eqb j) (indices_from eqb x 0 s) = true ->
                 unpopular_run eqb s (S j) = S (unpopular_run eqb s j)).
      { intros j Hj. apply existsb_exists in Hj.
        destruct Hj as [j' [Hj' Heq]]. apply Nat.eqb_eq in Heq. subst j'.
        now apply Hjs. }
      apply IH; try lia.
      * intros [|j]; [cbn [j2lenget]; lia|]. rewrite Hnew.
        destruct (existsb _ _) eqn:E; [|lia].
        rewrite (Hmem j E). specialize (Hrow j). lia.
      * intros [|j]; [cbn [j2lenget]; lia|]. rewrite Hnew.
        destruct (existsb _ _) eqn:E; [|lia].
        rewrite Hrun. specialize (Hcol j). lia.
      * rewrite Hnew.
        assert (existsb (Nat.eqb i) (indices_from eqb x 0 s) = true) as ->.
        { apply existsb_exists. exists i. split; [exact Hin | apply Nat.eqb_refl]. }
        rewrite Hrun, Hdiag. reflexivity.
      * exact H1.
Qed.

(** *** The extensions *)

Lemma isbjunk_at_false (b : list A) j : isbjunk_at b j = false.
Proof. unfold isbjunk_at. now destruct (nth_error b j). Qed.

Lemma same_at_diagonal j : j < length s -> same_at eqb s s j j = true.
Proof.
  intros H. unfold same_at.
  destruct (nth_error s j) as [x|] eqn:E; [apply eqb_same|].
  apply nth_error_None in E. lia.
Qed.

Lemma extend_left_diagonal : forall d sz,
  d + sz <= length s ->
  extend_left eqb s s 0 0 false d (d, d, sz) = (0, 0, sz + d).
Proof.
  induction d as [|d IH]; intros sz H; cbn [extend_left].
  - now rewrite Nat.add_0_r.
  - cbn [Nat.ltb Nat.leb andb]. rewrite isbjunk_at_false.
    replace (S d - 1) with d by lia.
    rewrite same_at_diagonal by lia. cbn [Bool.eqb andb].
    rewrite IH by lia. f_equal. lia.
Qed.

Lemma extend_right_diagonal : forall fuel sz,
  sz + fuel = length s ->
  extend_right eqb s s (length s) (length s) false fuel (0, 0, sz) = (0, 0, length s).
Proof.
  induction fuel as [|fuel IH]; intros sz H; cbn [extend_right].
  - rewrite Nat.add_0_r in H. now subst.
  - cbn [Nat.add]. assert ((sz <? length s) = true) as -> by (apply Nat.ltb_lt; lia).
    rewrite isbjunk_at_false, same_at_diagonal by lia. cbn [Bool.eqb andb].
    apply IH. lia.
Qed.

Lemma extend_left_junk (a b : list A) alo blo fuel best :
  extend_left eqb a b alo blo true fuel best = best.
Proof.
  destruct fuel as [|fuel]; [reflexivity|]. cbn [extend_left].
  destruct best as [[besti bestj] bestsize].
  rewrite isbjunk_at_false. cbn [Bool.eqb].
  now rewrite andb_false_r.
Qed.

Lemma extend_right_junk (a b : list A) ahi bhi fuel best :
  extend_right eqb a b ahi bhi true fuel best = best.
Proof.
  destruct fuel as [|fuel]; [reflexivity|]. cbn [extend_right].
  destruct best as [[besti bestj] bestsize].
  rewrite isbjunk_at_false. cbn [Bool.eqb].
  now rewrite andb_false_r.
Qed.

(** The longest match of a sequence with itself is the whole sequence. *)
Lemma find_longest_match_same :
  find_longest_match eqb s s 0 (length s) 0 (length s) = (0, 0, length s).
Proof.
  unfold find_longest_match. rewrite Nat.sub_0_r.
  destruct (scan_rows_diagonal (length s) 0 (fun _ => 0) 0 0) as [d [sz [Hscan Hd]]];
    try (intros [|j]; cbn [j2lenget]; lia); try reflexivity.
  { intros m Hm. assert (m = 0) as -> by lia. reflexivity. }
  rewrite extend_right_junk, extend_left_junk, Hscan.
  unfold left_fuel. cbn [fst].
  rewrite extend_left_diagonal by exact Hd.
  unfold right_fuel. cbn [fst snd Nat.add].
  apply extend_right_diagonal. lia.
Qed.

Lemma get_matching_blocks_same :
  s <> [] ->
  get_matching_blocks eqb s s = [(0, 0, length s); (length s, length s, 0)].
Proof.
  intros Hs. unfold get_matching_blocks, queue_fuel.
  replace (2 * length s + 1) with (S (2 * length s)) by lia.
  cbn [blocks_loop]. rewrite find_longest_match_same.
  destruct (length s) as [|n] eqn:Hn.
  - destruct s; [contradiction | discriminate].
  - cbn [Nat.eqb Nat.add].
    rewrite Nat.ltb_irrefl. change (0 <? 0) with false. cbn [andb app].
    destruct (2 * S n) as [|fuel]; reflexivity.
Qed.

(** The ratio of a sequence with itself is 1. *)
Lemma ratio_same : (ratio eqb s s == 1)%Q.
Proof.
  destruct s as [|x l] eqn:Hs; [reflexivity|]. rewrite <- Hs.
  unfold ratio. rewrite get_matching_blocks_same by (rewrite Hs; discriminate).
  cbn [fold_right snd]. rewrite !Nat.add_0_r.
  rewrite Hs. cbn [length Nat.add calculate_ratio].
  unfold Qeq. cbn [Qnum Qden].
  rewrite <- Pos.of_nat_succ, Zpos_P_of_succ_nat. lia.
Qed.

End SequenceAgainstItself.

(** C8.  Two strings with the same lower-case form have similarity 1,
    whatever their characters.  For a string and itself the exact-equality
    shortcut answers; "ABC" and "abc" are different strings, and the
    ratio of their common lower-case form answers: the ratio of any
    sequence of characters with itself is 1. *)
Theorem similarity_of_equal_lowercase {U : Unicode} :
  (forall a b : string, lower a = lower b -> (similarity_score a b == 1)%Q)
  /\ (forall x : string, String.eqb x x = true /\ similarity_score x x = 1%Q)
  /\ (String.eqb "ABC" "abc" = false /\ (similarity_score "ABC" "abc" == 1)%Q)
  /\ (forall s : list string, (ratio String.eqb s s == 1)%Q).
Proof.
  assert (H : forall a b : string, lower a = lower b -> (similarity_score a b == 1)%Q).
  { intros a b Hl. unfold similarity_score.
    destruct (String.eqb a b); [reflexivity|].
    rewrite Hl. apply ratio_same. apply String.eqb_eq. }
  split; [exact H|]. split.
  - intros x. unfold similarity_score. rewrite String.eqb_refl. now split.
  - split; [split; [reflexivity | apply H; reflexivity]|].
    intros s. apply ratio_same. apply String.eqb_eq.
Qed.

(* ================================================================== *)
(** * Properties of [SequenceMatcher]: the loops end *)
(* ================================================================== *)

Section SequenceMatcherTotal.

Local Open Scope nat_scope.

Variable A : Type.
Variable eqb : A -> A -> bool.
Variables a b : list A.

(** The fuel of the two extension loops is never what stops them. *)
Lemma extend_left_fuel alo blo junk : forall fuel best,
  left_fuel best <= fuel ->
  extend_left eqb a b alo blo junk fuel best
  = extend_left eqb a b alo blo junk (left_fuel best) best.
Proof.
  induction fuel as [|fuel IH]; intros [[besti bestj] bestsize] H;
    unfold left_fuel in *; cbn [fst] in *.
  - now replace besti with 0 by lia.
  - destruct besti as [|besti]; cbn [extend_left].
    + change (alo <? 0) with false. reflexivity.
    + destruct (_ && _ && _ && _); [|reflexivity].
      replace (S besti - 1) with besti by lia.
      rewrite IH by (cbn [fst]; lia). reflexivity.
Qed.

Lemma extend_right_fuel ahi bhi junk : forall fuel best,
  right_fuel ahi best <= fuel ->
  extend_right eqb a b ahi bhi junk fuel best
  = extend_right eqb a b ahi bhi junk (right_fuel ahi best) best.
Proof.
  induction fuel as [|fuel IH]; intros [[besti bestj] bestsize] H;
    unfold right_fuel in *; cbn [fst snd] in *.
  - now replace (ahi - (besti + bestsize)) with 0 by lia.
  - destruct (ahi - (besti + bestsize)) as [|m] eqn:E; cbn [extend_right].
    + assert ((besti + bestsize <? ahi) = false) as -> by (apply Nat.ltb_ge; lia).
      reflexivity.
    + destruct (_ && _ && _ && _); [|reflexivity].
      rewrite IH by (cbn [fst snd]; lia).
      f_equal. cbn [fst snd]. lia.
Qed.

(** The block found lies inside the ranges searched. *)
Lemma scan_row_in_range alo ahi blo bhi i j2len :
  alo <= i < ahi ->
  (forall j, j2lenget j2len j <= i - alo /\ j2lenget j2len j <= j - blo) ->
  forall js newj2len best new' best',
    block_in_range alo ahi blo bhi best ->
    (forall j, newj2len j <= S i - alo /\ newj2len j <= S j - blo) ->
    scan_row blo bhi i j2len js newj2len best = (new', best') ->
    block_in_range alo ahi blo bhi best'
    /\ (forall j, new' j <= S i - alo /\ new' j <= S j - blo).
Proof.
  intros Hi Hj2. induction js as [|j js IH];
    intros newj2len best new' best' Hbest Hnew Hscan; cbn [scan_row] in Hscan.
  - injection Hscan as <- <-. now split.
  - destruct (j <? blo) eqn:Hlo; [now apply (IH newj2len best)|].
    destruct (bhi <=? j) eqn:Hhi; [injection Hscan as <- <-; now split|].
    apply Nat.ltb_ge in Hlo. apply Nat.leb_gt in Hhi.
    destruct best as [[besti bestj] bestsize].
    destruct (Hj2 j) as [Hk1 Hk2].
    eapply IH; [| |exact Hscan].
    + destruct (bestsize <? j2lenget j2len j + 1); [|exact Hbest].
      unfold block_in_range in *. lia.
    + intros x. cbv beta. destruct (x =? j) eqn:E; [|apply Hnew].
      apply Nat.eqb_eq in E. subst x. lia.
Qed.

Lemma scan_rows_in_range alo ahi blo bhi : forall k i j2len best,
  alo <= i -> i + k <= ahi ->
  (forall j, j2lenget j2len j <= i - alo /\ j2lenget j2len j <= j - blo) ->
  block_in_range alo ahi blo bhi best ->
  block_in_range alo ahi blo bhi (scan_rows eqb a b blo bhi (seq i k) j2len best).
Proof.
  induction k as [|k IH]; intros i j2len best Hlo Hhi Hj2 Hbest; cbn [seq scan_rows].
  - exact Hbest.
  - destruct (scan_row blo bhi i j2len _ (fun _ => 0) best) as [new' best'] eqn:E.
    apply (scan_row_in_range alo ahi blo bhi i j2len) in E;
      [ | lia | exact Hj2 | exact Hbest | intros j; lia ].
    destruct E as [Hbest' Hnew']. apply IH; auto; try lia.
    intros [|j]; cbn [j2lenget]; [lia|].
    destruct (Hnew' j). lia.
Qed.

Lemma extend_left_in_range alo ahi blo bhi junk : forall fuel best,
  block_in_range alo ahi blo bhi best ->
  block_in_range alo ahi blo bhi (extend_left eqb a b alo blo junk fuel best).
Proof.
  induction fuel as [|fuel IH]; intros [[besti bestj] bestsize] H;
    cbn [extend_left]; [exact H|].
  destruct (alo <? besti) eqn:E1; [|exact H].
  destruct (blo <? bestj) eqn:E2; [|exact H].
  cbn [andb]. destruct (_ && _); [|exact H].
  apply Nat.ltb_lt in E1, E2. apply IH. unfold block_in_range in *. lia.
Qed.

Lemma extend_right_in_range alo ahi blo bhi junk : forall fuel best,
  block_in_range alo ahi blo bhi best ->
  block_in_range alo ahi blo bhi (extend_right eqb a b ahi bhi junk fuel best).
Proof.
  induction fuel as [|fuel IH]; intros [[besti bestj] bestsize] H;
    cbn [extend_right]; [exact H|].
  destruct (besti + bestsize <? ahi) eqn:E1; [|exact H].
  destruct (bestj + bestsize <? bhi) eqn:E2; [|exact H].
  cbn [andb]. destruct (_ && _); [|exact H].
  apply Nat.ltb_lt in E1, E2. apply IH. unfold block_in_range in *. lia.
Qed.

Lemma find_longest_match_in_range alo ahi blo bhi :
  alo <= ahi -> blo <= bhi ->
  block_in_range alo ahi blo bhi (find_longest_match eqb a b alo ahi blo bhi).
Proof.
  intros Ha Hb. unfold find_longest_match.
  apply extend_right_in_range, extend_left_in_range,
        extend_right_in_range, extend_left_in_range.
  apply scan_rows_in_range; try lia.
  - intros [|j]; cbn [j2lenget]; lia.
  - unfold block_in_range. lia.
Qed.

(** The queue empties before the fuel does. *)
Lemma blocks_loop_returns : forall fuel queue matching_blocks,
  Forall range_ok queue ->
  queue_measure queue <= fuel ->
  exists blocks, blocks_loop eqb a b fuel queue matching_blocks = Some blocks.
Proof.
  induction fuel as [|fuel IH]; intros queue acc Hok Hm.
  - destruct queue as [|[[[alo ahi] blo] bhi] queue]; [now exists acc|].
    cbn [queue_measure] in Hm. lia.
  - destruct queue as [|[[[alo ahi] blo] bhi] queue]; [now exists acc|].
    inversion Hok as [|? ? Hrange Hok']; subst.
    destruct Hrange as [Ha Hb].
    cbn [queue_measure] in Hm. cbn [blocks_loop].
    pose proof (find_longest_match_in_range alo ahi blo bhi Ha Hb) as Hr.
    destruct (find_longest_match eqb a b alo ahi blo bhi) as [[i j] k].
    unfold block_in_range in Hr.
    destruct (k =? 0) eqn:Hk; [apply IH; [exact Hok' | lia]|].
    apply Nat.eqb_neq in Hk.
    apply IH.
    + destruct ((i + k <? ahi) && (j + k <? bhi)) eqn:E2;
        destruct ((alo <? i) && (blo <? j)) eqn:E1;
        repeat (apply Forall_cons; [unfold range_ok; lia|]); exact Hok'.
    + destruct ((i + k <? ahi) && (j + k <? bhi));
        destruct ((alo <? i) && (blo <? j)); cbn [queue_measure]; lia.
Qed.

(** [get_matching_blocks] never falls back on the empty list. *)
Lemma get_matching_blocks_fuel :
  exists blocks,
    blocks_loop eqb a b (queue_fuel a) [(0, length a, 0, length b)] [] = Some blocks.
Proof.
  apply blocks_loop_returns.
  - constructor; [unfold range_ok; lia | constructor].
  - unfold queue_fuel. cbn [queue_measure]. lia.
Qed.

End SequenceMatcherTotal.

(* ================================================================== *)
(** * More on strings and dictionaries *)
(* ================================================================== *)

Lemma append_inj_l (p s1 s2 : string) : p ++ s1 = p ++ s2 -> s1 = s2.
Proof.
  induction p as [|c p IH]; cbn [append]; intros H; [exact H|].
  injection H as H. now apply IH.
Qed.

Lemma prefix_nil (s : string) : prefix "" s = true.
Proof. now destruct s. Qed.

Lemma prefix_append (p s : string) : prefix p (p ++ s) = true.
Proof.
  induction p as [|c p IH]; cbn [append prefix]; [apply prefix_nil|].
  destruct (ascii_dec c c); [exact IH | congruence].
Qed.

Lemma prefix_trans (p q s : string) :
  prefix p q = true -> prefix q s = true -> prefix p s = true.
Proof.
  revert q s. induction p as [|c p IH]; intros q s Hpq Hqs; [apply prefix_nil|].
  destruct q as [|c1 q]; [discriminate|]. destruct s as [|c2 s]; [discriminate|].
  cbn [prefix] in *.
  destruct (ascii_dec c c1) as [->|]; [|discriminate].
  destruct (ascii_dec c1 c2) as [->|]; [|discriminate].
  now apply (IH q s).
Qed.

Lemma to_uint_nonnil (n : nat) : Nat.to_uint n <> Decimal.Nil.
Proof.
  pose proof (DecimalNat.Unsigned.to_of (Nat.to_uint n)) as H.
  rewrite DecimalNat.Unsigned.of_to in H. rewrite H.
  unfold Decimal.unorm. destruct (Decimal.nzhead (Nat.to_uint n)); discriminate.
Qed.

(** Two numbers with the same decimal text are equal. *)
Lemma str_of_nat_inj (n m : nat) : str_of_nat n = str_of_nat m -> n = m.
Proof.
  unfold str_of_nat. intros H.
  apply DecimalNat.Unsigned.to_uint_inj.
  assert (Hs : Some (Nat.to_uint n) = Some (Nat.to_uint m)).
  { rewrite <- (NilZero.usu (Nat.to_uint n)) by apply to_uint_nonnil.
    rewrite <- (NilZero.usu (Nat.to_uint m)) by apply to_uint_nonnil.
    now rewrite H. }
  now injection Hs.
Qed.

Section DictMore.

Context {V : Type}.

Lemma assign_all_app (d : dict V) (l1 l2 : list (string * V)) :
  assign_all d (l1 ++ l2) = assign_all (assign_all d l1) l2.
Proof. unfold assign_all. apply fold_left_app. Qed.

Lemma assign_all_fresh (l : list (string * V)) : forall d,
  NoDup (keys d ++ map fst l) -> assign_all d l = (d ++ l)%list.
Proof.
  induction l as [|[k v] l IH]; intros d H; cbn [assign_all fold_left fst snd].
  - now rewrite app_nil_r.
  - rewrite dict_set_fresh.
    + fold (assign_all (d ++ [(k, v)])%list l). rewrite IH.
      * now rewrite <- app_assoc.
      * unfold keys in *. rewrite map_app. cbn [map fst].
        rewrite <- app_assoc. exact H.
    + cbn [map fst] in H. apply NoDup_remove_2 in H.
      intros Hin. apply H. apply in_or_app. now left.
Qed.

(** Pairs with distinct keys are stored as they are. *)
Lemma dict_of_items_NoDup (l : list (string * V)) :
  NoDup (map fst l) -> dict_of_items l = l.
Proof. intros H. apply (assign_all_fresh l []). exact H. Qed.

Lemma dict_get_assign_all_other (l : list (string * V)) : forall d k,
  ~ In k (map fst l) -> dict_get (assign_all d l) k = dict_get d k.
Proof.
  induction l as [|[k0 v0] l IH]; intros d k H; cbn [assign_all fold_left fst snd];
    [reflexivity|].
  fold (assign_all (dict_set d k0 v0) l). cbn [map fst In] in H.
  rewrite IH by tauto. apply dict_get_set_other. tauto.
Qed.

(** Of the pairs that have a key, the last one gives its value. *)
Lemma dict_get_dict_of_items_last (before after : list (string * V)) k v :
  ~ In k (map fst after) ->
  dict_get (dict_of_items (before ++ (k, v) :: after)) k = Some v.
Proof.
  intros H. unfold dict_of_items. fold (assign_all (@nil (string * V)) (before ++ (k, v) :: after)).
  rewrite assign_all_app. cbn [assign_all fold_left fst snd].
  fold (assign_all (dict_set (assign_all [] before) k v) after).
  rewrite dict_get_assign_all_other by exact H.
  apply dict_get_set_same.
Qed.

Lemma in_keys_assign_all (l : list (string * V)) : forall d k,
  In k (keys (assign_all d l)) -> In k (keys d) \/ In k (map fst l).
Proof.
  induction l as [|[k0 v0] l IH]; intros d k H; cbn [assign_all fold_left fst snd] in H;
    [now left|].
  fold (assign_all (dict_set d k0 v0) l) in H.
  apply IH in H. cbn [map fst In]. destruct H as [H|H]; [|tauto].
  apply in_keys_dict_set in H. destruct H as [->|H]; [right; now left | now left].
Qed.

Lemma in_keys_dict_of_items (l : list (string * V)) k :
  In k (keys (dict_of_items l)) -> In k (map fst l).
Proof.
  intros H. apply (in_keys_assign_all l [] k) in H. now destruct H.
Qed.

End DictMore.

(* ================================================================== *)
(** * More on the flattener *)
(* ================================================================== *)

Lemma flatten_dict_is_dict obj parent_key sep :
  NoDup (keys (flatten_dict obj parent_key sep)).
Proof.
  destruct obj as [ | | | | | [|item rest] | entries ];
    try (rewrite flatten_dict_scalar_case by reflexivity;
         constructor; [intros [] | constructor]).
  - rewrite flatten_dict_VList_nil. constructor; [intros [] | constructor].
  - rewrite flatten_dict_VList_cons. apply NoDup_keys_dict_of_items.
  - rewrite flatten_dict_VDict. apply NoDup_keys_dict_of_items.
Qed.

(** A dictionary of scalars with distinct keys is already flat. *)
Lemma flatten_entries_flat sep (d : list (string * value)) :
  Forall (fun v => is_scalar v = true) (map snd d) ->
  flatten_entries "" sep d = d.
Proof.
  induction d as [|[key v] d IH]; intros H; cbn [flatten_entries]; [reflexivity|].
  cbn [map snd] in H. inversion H as [|? ? Hv Hd]; subst.
  cbn [nonempty]. rewrite (flatten_dict_scalar_case v key sep Hv).
  cbn [items app]. now rewrite IH.
Qed.

(** X1.  Flattening is idempotent: a dictionary with distinct keys whose
    values are all scalars is returned unchanged, so flattening the result
    of [flatten_dict] again gives the same flat map, keys and order
    included. *)
Theorem flatten_is_idempotent :
  (forall (d : dict value) sep,
      NoDup (keys d) -> Forall (fun v => is_scalar v = true) (values d) ->
      flatten_dict (VDict d) "" sep = d)
  /\ (forall obj parent_key sep,
        flatten_dict (VDict (flatten_dict obj parent_key sep)) "" sep
        = flatten_dict obj parent_key sep).
Proof.
  assert (H : forall (d : dict value) sep,
             NoDup (keys d) -> Forall (fun v => is_scalar v = true) (values d) ->
             flatten_dict (VDict d) "" sep = d).
  { intros d sep Hk Hv. rewrite flatten_dict_VDict.
    rewrite (flatten_entries_flat sep d Hv). now apply dict_of_items_NoDup. }
  split; [exact H|].
  intros obj parent_key sep. apply H.
  - apply flatten_dict_is_dict.
  - apply flatten_dict_all_scalar.
Qed.

Lemma flatten_is_idempotent_witness :
  flatten_dict (VDict [("a_b", VInt 1); ("c_0", VStr "x"); ("d", VNone)]) "" "_"
  = [("a_b", VInt 1); ("c_0", VStr "x"); ("d", VNone)].
Proof.
  apply (proj1 flatten_is_idempotent).
  - repeat constructor; cbn; intuition discriminate.
  - repeat constructor.
Defined.

Lemma flatten_elems_scalars parent_key sep (elems : list value) : forall i,
  Forall (fun v => is_scalar v = true) elems ->
  flatten_elems parent_key sep i elems
  = map (fun ix => (parent_key ++ sep ++ str_of_nat (fst ix), snd ix))
      (combine (seq i (length elems)) elems).
Proof.
  induction elems as [|x elems IH]; intros i H; cbn [flatten_elems]; [reflexivity|].
  inversion H as [|? ? Hx Hrest]; subst.
  unfold is_scalar in Hx. apply negb_true_iff in Hx. rewrite Hx.
  cbn [length seq combine map fst snd app]. now rewrite IH.
Qed.

Lemma numbered_keys_NoDup parent_key sep (elems : list value) i :
  NoDup (map fst
           (map (fun ix : nat * value =>
                   (parent_key ++ sep ++ str_of_nat (fst ix), snd ix))
              (combine (seq i (length elems)) elems))).
Proof.
  rewrite map_map. cbn [fst].
  assert (Hnd : NoDup (map fst (combine (seq i (length elems)) elems))).
  { assert (map fst (combine (seq i (length elems)) elems) = seq i (length elems)) as ->.
    { revert i. induction elems as [|x elems IH]; intros i; [reflexivity|].
      cbn [length seq combine map fst]. now rewrite IH. }
    apply seq_NoDup. }
  revert Hnd. generalize (combine (seq i (length elems)) elems). intros l.
  induction l as [|[n x] l IH]; cbn [map fst]; intros Hnd; [constructor|].
  inversion Hnd as [|? ? Hn Hl]; subst. constructor; [|now apply IH].
  intros Hin. apply Hn. apply in_map_iff in Hin.
  destruct Hin as [[m y] [Heq Hin]]. cbn [fst] in Heq.
  apply append_inj_l, append_inj_l, str_of_nat_inj in Heq. subst m.
  apply in_map_iff. now exists (n, y).
Qed.

(** X2.  A non-empty array of scalars is flattened to one entry per
    element, in the order of the array: element [i] is stored under the
    parent key, the separator and the decimal text of [i], and no element is
    lost or merged. *)
Theorem flatten_array_of_scalars :
  forall (elems : list value) parent_key sep,
    elems <> [] ->
    Forall (fun v => is_scalar v = true) elems ->
    flatten_dict (VList elems) parent_key sep
    = map (fun ix => (parent_key ++ sep ++ str_of_nat (fst ix), snd ix))
        (combine (seq 0 (length elems)) elems)
    /\ length (flatten_dict (VList elems) parent_key sep) = length elems.
Proof.
  intros elems parent_key sep Hne Hs.
  destruct elems as [|item rest]; [congruence|].
  rewrite flatten_dict_VList_cons, (flatten_elems_scalars _ _ _ 0 Hs).
  rewrite dict_of_items_NoDup by apply numbered_keys_NoDup.
  split; [reflexivity|].
  rewrite length_map, length_combine, length_seq. apply Nat.min_id.
Qed.

Lemma flatten_array_of_scalars_witness :
  flatten_dict (VList [VInt 7; VStr "x"; VNone]) "a" "_"
  = [("a_0", VInt 7); ("a_1", VStr "x"); ("a_2", VNone)]
  /\ length (flatten_dict (VList [VInt 7; VStr "x"; VNone]) "a" "_") = 3%nat.
Proof.
  apply (flatten_array_of_scalars [VInt 7; VStr "x"; VNone] "a" "_").
  - discriminate.
  - repeat constructor.
Defined.

(** X3.  When several paths of an object synthesise the same key, the
    flat map keeps one entry for it and the value is that of the path
    collected last. *)
Theorem flatten_last_write_wins :
  forall entries parent_key sep before key v after,
    flatten_entries parent_key sep entries = (before ++ (key, v) :: after)%list ->
    ~ In key (map fst after) ->
    dict_get (flatten_dict (VDict entries) parent_key sep) key = Some v
    /\ NoDup (keys (flatten_dict (VDict entries) parent_key sep)).
Proof.
  intros entries parent_key sep before key v after H Hlast.
  split; [|apply flatten_dict_is_dict].
  rewrite flatten_dict_VDict, H. now apply dict_get_dict_of_items_last.
Qed.

Lemma flatten_last_write_wins_witness :
  dict_get
    (flatten_dict (VDict [("a", VDict [("b", VInt 1)]); ("a_b", VInt 2)]) "" "_")
    "a_b" = Some (VInt 2)
  /\ NoDup
       (keys (flatten_dict (VDict [("a", VDict [("b", VInt 1)]); ("a_b", VInt 2)]) "" "_")).
Proof.
  apply (flatten_last_write_wins
           [("a", VDict [("b", VInt 1)]); ("a_b", VInt 2)] "" "_"
           [("a_b", VInt 1)] "a_b" (VInt 2) []).
  - reflexivity.
  - intros [].
Defined.

Lemma flatten_keys_prefix obj :
  forall parent_key sep key,
    In key (keys (flatten_dict obj parent_key sep)) -> prefix parent_key key = true.
Proof.
  assert (Hself : forall s, prefix s s = true).
  { intros s. induction s as [|c s IH]; cbn [prefix]; [reflexivity|].
    destruct (ascii_dec c c); [exact IH | congruence]. }
  induction obj as [ | b | n | r | s | l IH | l IH ] using value_nested_ind;
    intros parent_key sep key Hin;
    try (rewrite flatten_dict_scalar_case in Hin by reflexivity;
         cbn in Hin; destruct Hin as [<-|[]]; apply Hself).
  - destruct l as [|item rest].
    + rewrite flatten_dict_VList_nil in Hin. cbn in Hin.
      destruct Hin as [<-|[]]. apply Hself.
    + rewrite flatten_dict_VList_cons in Hin. apply in_keys_dict_of_items in Hin.
      revert Hin. generalize 0%nat. revert IH. generalize (item :: rest).
      clear item rest. intros l IH.
      induction IH as [|x l Hx _ IHl]; intros i Hin; cbn [flatten_elems] in Hin;
        [destruct Hin|].
      rewrite map_app in Hin. apply in_app_or in Hin.
      destruct Hin as [Hin|Hin]; [|now apply (IHl (S i))].
      destruct (is_dict_or_list x).
      * apply (prefix_trans _ (parent_key ++ sep ++ str_of_nat i));
          [apply prefix_append | now apply (Hx _ sep)].
      * cbn in Hin. destruct Hin as [<-|[]]. apply prefix_append.
  - rewrite flatten_dict_VDict in Hin. apply in_keys_dict_of_items in Hin.
    induction IH as [|[k v] l Hx _ IHl]; cbn [flatten_entries] in Hin;
      [destruct Hin|].
    rewrite map_app in Hin. apply in_app_or in Hin.
    destruct Hin as [Hin|Hin]; [|now apply IHl].
    cbn [snd] in Hx. apply Hx in Hin.
    destruct parent_key as [|c parent_key]; [apply prefix_nil|].
    cbn [nonempty] in Hin.
    apply (prefix_trans _ (String c parent_key ++ sep ++ k)); [apply prefix_append | exact Hin].
Qed.

(** X4.  Every key of the flat map of a sub-document starts with the
    path of that sub-document: with the parent key it was flattened
    under. *)
Theorem flatten_keys_start_with_parent :
  forall obj parent_key sep key,
    In key (keys (flatten_dict obj parent_key sep)) ->
    startswith key parent_key = true.
Proof. intros obj parent_key sep key H. now apply (flatten_keys_prefix obj _ sep). Qed.

Lemma flatten_keys_start_with_parent_witness :
  startswith "doc_a_0_b" "doc" = true.
Proof.
  apply (flatten_keys_start_with_parent
           (VDict [("a", VList [VDict [("b", VInt 1)]])]) "doc" "_" "doc_a_0_b").
  vm_compute. now left.
Defined.

(* ================================================================== *)
(** * Properties of the structure analyzer *)
(* ================================================================== *)

Lemma analyze_recursive_VDict entries path :
  analyze_recursive (VDict entries) path = analyze_entries path entries empty_analysis.
Proof.
  cbn [analyze_recursive]. generalize empty_analysis.
  induction entries as [|[key v] rest IH]; intros analysis; cbn [analyze_entries];
    [reflexivity|].
  apply IH.
Qed.

Lemma analyze_recursive_not_dict obj path :
  (forall entries, obj <> VDict entries) -> analyze_recursive obj path = empty_analysis.
Proof. destruct obj; intros H; try reflexivity. now destruct (H entries). Qed.

Lemma analyze_entries_app path l1 l2 : forall analysis,
  analyze_entries path (l1 ++ l2) analysis
  = analyze_entries path l2 (analyze_entries path l1 analysis).
Proof.
  induction l1 as [|[key v] l1 IH]; intros analysis; cbn [app analyze_entries];
    [reflexivity|].
  apply IH.
Qed.

(** X5.  Only the first element of an array is analysed: whatever
    follows it can be replaced by as many other elements without changing
    the analysis of the object that holds the array. *)
Theorem analyze_samples_first_element :
  forall before key item tail tail' after path,
    length tail = length tail' ->
    analyze_recursive (VDict (before ++ (key, VList (item :: tail)) :: after)) path
    = analyze_recursive (VDict (before ++ (key, VList (item :: tail')) :: after)) path.
Proof.
  intros before key item tail tail' after path H.
  rewrite !analyze_recursive_VDict, !analyze_entries_app.
  cbn [analyze_entries length]. now rewrite H.
Qed.

Lemma analyze_samples_first_element_witness :
  analyze_recursive
    (VDict [("arr", VList [VDict [("x", VInt 1)]; VDict [("x", VInt 2); ("y", VList [])]])]) ""
  = analyze_recursive
      (VDict [("arr", VList [VDict [("x", VInt 1)]; VNone])]) "".
Proof.
  apply (analyze_samples_first_element [] "arr" (VDict [("x", VInt 1)])
           [VDict [("x", VInt 2); ("y", VList [])]] [VNone] [] "").
  reflexivity.
Defined.

(** X6.  What is not an object is not analysed.  The analysis of a
    document that is an array or a scalar is empty; and an array whose first
    element is not an object adds its own record (path and length) and
    nothing else, so scalars held in arrays are not counted as primitive
    fields and an array held directly in an array is not reported. *)
Theorem analyze_looks_into_objects_only :
  (forall obj path,
      (forall entries, obj <> VDict entries) ->
      analyze_recursive obj path = empty_analysis)
  /\ (forall json_loads elems,
        analyze_json_structure json_loads (VList elems) = Ok empty_analysis)
  /\ (forall before key elems after path,
        (forall item rest entries, elems = item :: rest -> item <> VDict entries) ->
        analyze_recursive (VDict (before ++ (key, VList elems) :: after)) path
        = analyze_entries path after
            (append_array (analyze_entries path before empty_analysis)
               (if nonempty path then path ++ "." ++ key else key) (length elems))).
Proof.
  split; [exact analyze_recursive_not_dict|]. split; [reflexivity|].
  intros before key elems after path H.
  rewrite analyze_recursive_VDict, analyze_entries_app. cbn [analyze_entries].
  destruct elems as [|item rest]; [reflexivity|].
  rewrite analyze_recursive_not_dict by (intros entries; now apply (H item rest)).
  f_equal. unfold absorb, append_array. cbn.
  now rewrite !app_nil_r, Nat.add_0_r.
Qed.

Lemma analyze_looks_into_objects_only_witness :
  analyze_recursive (VDict [("tags", VList [VStr "a"; VStr "b"; VStr "c"])]) ""
  = {| arrays := [ {| array_path := "tags"; array_length := 3; array_type := "array" |} ];
       nested_objects := [];
       primitive_fields := 0 |}.
Proof.
  refine (eq_trans
            (proj2 (proj2 analyze_looks_into_objects_only)
               [] "tags" [VStr "a"; VStr "b"; VStr "c"] [] "" _) _).
  - intros item rest entries H. injection H as <- _. discriminate.
  - reflexivity.
Defined.

Lemma primitive_fields_analyze_entries path entries : forall analysis,
  primitive_fields (analyze_entries path entries analysis)
  = (primitive_fields analysis
     + primitive_fields (analyze_entries path entries empty_analysis))%nat.
Proof.
  induction entries as [|[key v] rest IH]; intros analysis; cbn [analyze_entries].
  - cbn. lia.
  - rewrite IH. symmetry. rewrite IH. symmetry.
    destruct v as [ | | | | | [|item tail] | sub ]; cbn; lia.
Qed.

Lemma arrays_analyze_entries path entries : forall analysis,
  arrays (analyze_entries path entries analysis)
  = (arrays analysis ++ arrays (analyze_entries path entries empty_analysis))%list.
Proof.
  induction entries as [|[key v] rest IH]; intros analysis; cbn [analyze_entries].
  - cbn. now rewrite app_nil_r.
  - rewrite IH. symmetry. rewrite IH. symmetry.
    destruct v as [ | | | | | [|item tail] | sub ]; cbn;
      rewrite ?app_nil_r; rewrite <- ?app_assoc; reflexivity.
Qed.

Lemma length_assign_all {V} (l : list (string * V)) : forall d,
  (length (assign_all d l) <= length d + length l)%nat.
Proof.
  induction l as [|[k v] l IH]; intros d; cbn [assign_all fold_left fst snd length];
    [lia|].
  fold (assign_all (dict_set d k v) l). specialize (IH (dict_set d k v)).
  assert (length (dict_set d k v) <= S (length d))%nat.
  { clear. induction d as [|[k0 v0] d IHd]; cbn [dict_set length]; [lia|].
    destruct (String.eqb k0 k); cbn [length]; lia. }
  lia.
Qed.

Lemma length_dict_of_items {V} (l : list (string * V)) :
  (length (dict_of_items l) <= length l)%nat.
Proof. apply (length_assign_all l []). Qed.

Lemma no_arrays_VDict entries :
  no_arrays (VDict entries) = true <-> Forall (fun kv => no_arrays (snd kv) = true) entries.
Proof.
  cbn [no_arrays]. induction entries as [|[k v] rest IH].
  - split; [constructor | reflexivity].
  - rewrite andb_true_iff, IH. split.
    + intros [H1 H2]. now constructor.
    + intros H. inversion H; subst. now split.
Qed.

Lemma flat_count_le_primitive_fields obj :
  forall entries, obj = VDict entries -> no_arrays obj = true ->
  forall parent_key sep path,
    (length (flatten_dict obj parent_key sep)
     <= primitive_fields (analyze_recursive obj path))%nat
    /\ arrays (analyze_recursive obj path) = [].
Proof.
  induction obj as [ | b | n | r | s | l IH | l IH ] using value_nested_ind;
    intros entries Heq Hno; try discriminate.
  injection Heq as <-. apply no_arrays_VDict in Hno.
  intros parent_key sep path.
  rewrite flatten_dict_VDict, analyze_recursive_VDict.
  assert (H : (length (flatten_entries parent_key sep l)
               <= primitive_fields (analyze_entries path l empty_analysis))%nat
              /\ arrays (analyze_entries path l empty_analysis) = []).
  { induction l as [|[key v] rest IHrest]; [split; [cbn; lia | reflexivity]|].
    inversion IH as [|? ? Hv IH']; subst. inversion Hno as [|? ? Hnv Hno']; subst.
    destruct (IHrest IH' Hno') as [Hlen Harr].
    cbn [flatten_entries analyze_entries]. rewrite length_app.
    rewrite primitive_fields_analyze_entries, arrays_analyze_entries, Harr.
    cbn [snd] in Hv, Hnv.
    destruct v as [ | | | | | elems | sub ]; try discriminate;
      try (cbn; split; [lia | reflexivity]).
    destruct (Hv sub eq_refl Hnv
                (if nonempty parent_key then parent_key ++ sep ++ key else key) sep
                (if nonempty path then path ++ "." ++ key else key)) as [H1 H2].
    unfold items. cbn [absorb append_nested empty_analysis primitive_fields arrays app].
    rewrite H2. split; [lia | reflexivity]. }
  destruct H as [Hlen Harr]. split; [|exact Harr].
  pose proof (length_dict_of_items (flatten_entries parent_key sep l)). lia.
Qed.

(** X7.  For an object with no array anywhere inside, the analyzer
    reports no array, and the number of primitive fields it counts is at
    least the number of entries of the flat map of the same object (two paths
    that synthesise the same flat key are counted twice and stored once). *)
Theorem primitive_fields_bound_flat_map :
  forall entries parent_key sep path,
    no_arrays (VDict entries) = true ->
    (length (flatten_dict (VDict entries) parent_key sep)
     <= primitive_fields (analyze_recursive (VDict entries) path))%nat
    /\ arrays (analyze_recursive (VDict entries) path) = [].
Proof.
  intros entries parent_key sep path H.
  now apply (flat_count_le_primitive_fields (VDict entries) entries eq_refl H).
Qed.

Lemma primitive_fields_bound_flat_map_witness :
  (length (flatten_dict (VDict [("a", VDict [("b", VInt 1)]); ("a_b", VInt 2)]) "" "_")
   <= primitive_fields
        (analyze_recursive (VDict [("a", VDict [("b", VInt 1)]); ("a_b", VInt 2)]) ""))%nat
  /\ arrays (analyze_recursive (VDict [("a", VDict [("b", VInt 1)]); ("a_b", VInt 2)]) "")
     = [].
Proof.
  apply (primitive_fields_bound_flat_map
           [("a", VDict [("b", VInt 1)]); ("a_b", VInt 2)] "" "_" "").
  reflexivity.
Defined.

(* ================================================================== *)
(** * Properties of the summary *)
(* ================================================================== *)

Lemma count_status_cons r df text :
  count_status (r :: df) text
  = ((if String.eqb (status_text (Row_Status r)) text then 1 else 0)
     + count_status df text)%nat.
Proof.
  unfold count_status. cbn [filter].
  now destruct (String.eqb (status_text (Row_Status r)) text).
Qed.

(** A status has exactly one of the five texts. *)
Lemma status_text_indicator (st : Status) :
  ((if String.eqb (status_text st) "✅ Perfect Match" then 1 else 0)
   + (if String.eqb (status_text st) "🟨 Very Close" then 1 else 0)
   + (if String.eqb (status_text st) "🟧 Similar" then 1 else 0)
   + (if String.eqb (status_text st) "❓ Missing in JSON" then 1 else 0)
   + (if String.eqb (status_text st) "❌ Mismatch" then 1 else 0))%nat = 1%nat.
Proof. destruct st; vm_compute; reflexivity. Qed.

(** Every record is counted under exactly one of the five status texts. *)
Lemma count_status_partition (df : list ComparisonRow) :
  (count_status df "✅ Perfect Match" + count_status df "🟨 Very Close"
   + count_status df "🟧 Similar" + count_status df "❓ Missing in JSON"
   + count_status df "❌ Mismatch")%nat
  = length df.
Proof.
  induction df as [|r df IH]; [reflexivity|].
  rewrite !count_status_cons. cbn [length]. rewrite <- IH.
  pose proof (status_text_indicator (Row_Status r)) as H. lia.
Qed.

Lemma Zpos_of_nat (n : nat) : (0 < n)%nat -> Zpos (Pos.of_nat n) = Z.of_nat n.
Proof.
  destruct n as [|n]; [lia|]. intros _.
  now rewrite <- Pos.of_nat_succ, Zpos_P_of_succ_nat, Nat2Z.inj_succ.
Qed.

Lemma percentage_bounds (a t : nat) :
  (0 < t)%nat -> (a <= t)%nat ->
  (0 <= (Z.of_nat a # Pos.of_nat t) * 100)%Q
  /\ ((Z.of_nat a # Pos.of_nat t) * 100 <= 100)%Q
  /\ (((Z.of_nat a # Pos.of_nat t) * 100 == 100)%Q <-> a = t).
Proof.
  intros Ht Ha. unfold Qle, Qeq, Qmult. cbn [Qnum Qden].
  rewrite !Pos.mul_1_r, (Zpos_of_nat t Ht).
  repeat split; try lia.
Qed.

(** X8.  The summary of a frame that is not empty: the five counts add
    up to the total, which is the number of records; the accuracy is
    (perfect + very close) / total * 100, lies between 0 and 100, and is 100
    exactly when no record is Similar, MissingInJson or Mismatch.  The empty
    frame, and only it, gets the empty dictionary. *)
Theorem summary_counts_add_up :
  forall comparison_df summary,
    create_comparison_summary comparison_df = Some summary ->
    total_fields summary = length comparison_df
    /\ (perfect_matches summary + very_close summary + similar summary
        + missing summary + mismatches summary)%nat = total_fields summary
    /\ (0 <= accuracy_percentage summary)%Q
    /\ (accuracy_percentage summary <= 100)%Q
    /\ ((accuracy_percentage summary == 100)%Q
        <-> (similar summary + missing summary + mismatches summary)%nat = 0%nat)
    /\ (create_comparison_summary [] = None)
    /\ comparison_df <> [].
Proof.
  intros df summary H.
  destruct df as [|r df]; [discriminate|].
  unfold create_comparison_summary in H.
  apply (f_equal (fun o => match o with Some x => x | None => summary end)) in H.
  cbv beta iota in H. rewrite <- H. clear H summary.
  cbn [total_fields perfect_matches very_close similar missing mismatches
       accuracy_percentage].
  pose proof (count_status_partition (r :: df)) as Hsum.
  set (n := length (r :: df)) in *.
  assert (Hn : (0 < n)%nat) by (unfold n; cbn [length]; lia).
  assert ((0 <? n)%nat = true) as -> by now apply Nat.ltb_lt.
  destruct (percentage_bounds
              (count_status (r :: df) "✅ Perfect Match"
               + count_status (r :: df) "🟨 Very Close") n Hn ltac:(lia))
    as [H0 [H100 Hiff]].
  split; [reflexivity|]. split; [exact Hsum|]. split; [exact H0|].
  split; [exact H100|]. split; [|split; [reflexivity | discriminate]].
  rewrite Hiff. lia.
Qed.

(* ================================================================== *)
(** * Properties of [SequenceMatcher]: the size of the matching blocks *)
(* ================================================================== *)

Section SequenceMatcherBounds.

Local Open Scope nat_scope.

Variable A : Type.
Variable eqb : A -> A -> bool.
Variables a b : list A.

Lemma total_size_app (l1 l2 : list Match) :
  total_size (l1 ++ l2) = total_size l1 + total_size l2.
Proof.
  induction l1 as [|x l1 IH]; [reflexivity|].
  cbn [app]. unfold total_size in *. cbn [fold_right]. rewrite IH. lia.
Qed.

Lemma total_size_cons (x : Match) (l : list Match) :
  total_size (x :: l) = snd x + total_size l.
Proof. reflexivity. Qed.

Lemma total_size_snoc (l : list Match) (x : Match) :
  total_size (l ++ [x]) = total_size l + snd x.
Proof.
  rewrite total_size_app, total_size_cons. change (total_size []) with 0. lia.
Qed.

(** Sorting moves the blocks and keeps their sizes. *)
Lemma total_size_insert_block (x : Match) (l : list Match) :
  total_size (insert_block x l) = snd x + total_size l.
Proof.
  induction l as [|y l IH]; [reflexivity|].
  cbn [insert_block]. destruct (block_leb x y); [reflexivity|].
  rewrite !total_size_cons, IH. lia.
Qed.

Lemma total_size_sort_blocks (l : list Match) :
  total_size (sort_blocks l) = total_size l.
Proof.
  induction l as [|x l IH]; [reflexivity|].
  unfold sort_blocks in *. cbn [fold_right].
  now rewrite total_size_insert_block, IH.
Qed.

(** Collapsing adjacent blocks adds their sizes up. *)
Lemma total_size_collapse (blocks : list Match) : forall i1 j1 k1 non_adjacent,
  total_size (collapse i1 j1 k1 blocks non_adjacent)
  = total_size non_adjacent + k1 + total_size blocks.
Proof.
  induction blocks as [|[[i2 j2] k2] rest IH]; intros i1 j1 k1 acc; cbn [collapse].
  - destruct (k1 =? 0) eqn:E.
    + apply Nat.eqb_eq in E. subst. change (total_size []) with 0. lia.
    + rewrite total_size_snoc. change (total_size []) with 0. cbn [snd]. lia.
  - rewrite total_size_cons. cbn [snd].
    destruct ((i1 + k1 =? i2) && (j1 + k1 =? j2)).
    + rewrite IH. lia.
    + rewrite IH. destruct (k1 =? 0) eqn:E.
      * apply Nat.eqb_eq in E. subst. lia.
      * rewrite total_size_snoc. cbn [snd]. lia.
Qed.

(** The blocks found so far and the ranges still queued never hold more
    than the two sequences do: a block is taken out of the range that is
    split around it. *)
Lemma blocks_loop_size : forall fuel queue matching_blocks blocks,
  Forall range_ok queue ->
  blocks_loop eqb a b fuel queue matching_blocks = Some blocks ->
  total_size blocks <= total_size matching_blocks + queue_a queue
  /\ total_size blocks <= total_size matching_blocks + queue_b queue.
Proof.
  induction fuel as [|fuel IH]; intros queue acc blocks Hok Hloop.
  - destruct queue as [|[[[alo ahi] blo] bhi] queue]; [|discriminate].
    cbn [blocks_loop] in Hloop. injection Hloop as <-. lia.
  - destruct queue as [|[[[alo ahi] blo] bhi] queue].
    + cbn [blocks_loop] in Hloop. injection Hloop as <-. lia.
    + inversion Hok as [|? ? Hrange Hok']; subst.
      destruct Hrange as [Ha Hb].
      cbn [blocks_loop] in Hloop. cbn [queue_a queue_b].
      pose proof (find_longest_match_in_range A eqb a b alo ahi blo bhi Ha Hb) as Hr.
      destruct (find_longest_match eqb a b alo ahi blo bhi) as [[i j] k].
      unfold block_in_range in Hr.
      destruct (k =? 0) eqn:Hk.
      * apply IH in Hloop; [lia | exact Hok'].
      * apply IH in Hloop.
        -- rewrite total_size_snoc in Hloop. cbn [snd] in Hloop.
           destruct ((i + k <? ahi) && (j + k <? bhi));
             destruct ((alo <? i) && (blo <? j));
             cbn [queue_a queue_b] in Hloop; lia.
        -- destruct ((i + k <? ahi) && (j + k <? bhi));
             destruct ((alo <? i) && (blo <? j));
             repeat (apply Forall_cons; [unfold range_ok; lia|]); exact Hok'.
Qed.

(** The matching blocks cover no more than either sequence holds. *)
Lemma get_matching_blocks_size :
  total_size (get_matching_blocks eqb a b) <= length a
  /\ total_size (get_matching_blocks eqb a b) <= length b.
Proof.
  unfold get_matching_blocks.
  rewrite total_size_snoc, total_size_collapse, total_size_sort_blocks.
  change (total_size []) with 0. cbn [snd].
  destruct (blocks_loop eqb a b (queue_fuel a) [(0, length a, 0, length b)] [])
    as [blocks|] eqn:E.
  - apply blocks_loop_size in E.
    + change (total_size []) with 0 in E. cbn [queue_a queue_b] in E. lia.
    + constructor; [unfold range_ok; lia | constructor].
  - change (total_size []) with 0. lia.
Qed.

Lemma ratio_bounds :
  (0 <= ratio eqb a b)%Q
  /\ (ratio eqb a b <= 1)%Q
  /\ (ratio eqb a b * inject_Z (Z.of_nat (length a + length b))
      <= inject_Z (Z.of_nat (2 * Nat.min (length a) (length b))))%Q.
Proof.
  unfold ratio.
  change (fold_right _ 0 (get_matching_blocks eqb a b))
    with (total_size (get_matching_blocks eqb a b)).
  destruct get_matching_blocks_size as [Ha Hb].
  set (m := total_size (get_matching_blocks eqb a b)) in *.
  unfold calculate_ratio.
  destruct (length a + length b) as [|n] eqn:E.
  - assert (length a = 0) as -> by lia. assert (length b = 0) as -> by lia.
    split; [|split]; unfold Qle, Qmult, inject_Z; cbn; lia.
  - rewrite <- E.
    assert (Hp : Zpos (Pos.of_nat (length a + length b))
                 = Z.of_nat (length a + length b)) by (apply Zpos_of_nat; lia).
    unfold Qle, Qmult, inject_Z. cbn [Qnum Qden].
    rewrite ?Pos.mul_1_r, ?Z.mul_1_r, Hp.
    split; [|split]; nia.
Qed.

End SequenceMatcherBounds.

(** X9.  A similarity score lies between 0 and 1, and it is at most
    twice the length of the shorter lowered string over the sum of the
    lengths of the two, lengths counted in characters: the matching blocks
    of [SequenceMatcher] hold no more characters than the shorter sequence
    has. *)
Theorem similarity_score_in_unit_interval {U : Unicode} :
  forall val1 val2 : string,
    let n1 := length (code_points (lower val1)) in
    let n2 := length (code_points (lower val2)) in
    (0 <= similarity_score val1 val2)%Q
    /\ (similarity_score val1 val2 <= 1)%Q
    /\ (similarity_score val1 val2 * inject_Z (Z.of_nat (n1 + n2))
        <= inject_Z (Z.of_nat (2 * Nat.min n1 n2)))%Q.
Proof.
  intros val1 val2 n1 n2. unfold similarity_score.
  destruct (String.eqb val1 val2) eqn:E.
  - apply String.eqb_eq in E. subst val2. subst n1 n2.
    rewrite Nat.min_id.
    split; [|split]; unfold Qle, Qmult, inject_Z; cbn [Qnum Qden]; lia.
  - exact (ratio_bounds string String.eqb (code_points (lower val1))
             (code_points (lower val2))).
Qed.

(* ================================================================== *)
(** * More properties of the reconciliation *)
(* ================================================================== *)

(** ** Trimming *)

Lemma rstrip_cons (p : string) (l : list string) :
  rstrip l <> [] -> rstrip (p :: l) = p :: rstrip l.
Proof.
  intros H. cbn [rstrip]. destruct (rstrip l); [congruence | reflexivity].
Qed.

Lemma rstrip_idempotent (l : list string) : rstrip (rstrip l) = rstrip l.
Proof.
  induction l as [|p l IH]; [reflexivity|].
  destruct (rstrip l) as [|p' r] eqn:E.
  - cbn [rstrip]. rewrite E.
    destruct (is_whitespace p) eqn:Hp; [reflexivity|]. cbn [rstrip]. now rewrite Hp.
  - rewrite (rstrip_cons p l) by (rewrite E; discriminate).
    rewrite E. rewrite (rstrip_cons p (p' :: r)) by (rewrite IH; discriminate).
    now rewrite IH.
Qed.

Lemma lstrip_rstrip_lstrip (l : list string) :
  lstrip (rstrip (lstrip l)) = rstrip (lstrip l).
Proof.
  induction l as [|p l IH]; [reflexivity|].
  cbn [lstrip]. destruct (is_whitespace p) eqn:Hp; [exact IH|].
  cbn [rstrip]. destruct (rstrip l) as [|p' r].
  - rewrite Hp. cbn [lstrip]. now rewrite Hp.
  - cbn [lstrip]. now rewrite Hp.
Qed.

Lemma characters_tail p l : characters (p :: l) -> characters l.
Proof.
  intros [_ H]. destruct l as [|q rest]; [exact I|].
  inversion H as [|? ? [Hq _] Hrest]; subst. now split.
Qed.

Lemma code_points_characters (s : string) : characters (code_points s).
Proof.
  induction s as [|c s IH]; [exact I|].
  cbn [code_points]. destruct s as [|c' s]; [now split|].
  destruct (is_continuation c') eqn:Hc.
  - destruct (code_points (String c' s)) as [|p rest] eqn:E; [now split|].
    destruct IH as [Hp Hrest]. split; [|exact Hrest].
    cbn [is_character continuation_bytes].
    assert (Hhead : exists t, p = String c' t).
    { revert E. cbn [code_points]. destruct s as [|c'' s]; [intros E; injection E as <- _; now eexists|].
      destruct (is_continuation c'').
      - destruct (code_points (String c'' s)); intros E; injection E as <- _; now eexists.
      - intros E; injection E as <- _; now eexists. }
    destruct Hhead as [t ->]. cbn [is_character] in Hp.
    cbn [continuation_bytes]. now rewrite Hc, Hp.
  - split; [reflexivity|].
    destruct (code_points (String c' s)) as [|p rest] eqn:E; [constructor|].
    destruct IH as [Hp Hrest].
    assert (Hhead : exists t, p = String c' t).
    { revert E. cbn [code_points]. destruct s as [|c'' s]; [intros E; injection E as <- _; now eexists|].
      destruct (is_continuation c'').
      - destruct (code_points (String c'' s)); intros E; injection E as <- _; now eexists.
      - intros E; injection E as <- _; now eexists. }
    destruct Hhead as [t ->].
    constructor; [|exact Hrest]. split; [exact Hp | exact Hc].
Qed.

Lemma code_points_String_continuation c c' s :
  is_continuation c' = true ->
  code_points (String c (String c' s))
  = match code_points (String c' s) with
    | p :: rest => String c p :: rest
    | [] => [String c ""]
    end.
Proof. intros H. cbn [code_points]. now rewrite H. Qed.

Lemma code_points_String_start c c' s :
  is_continuation c' = false ->
  code_points (String c (String c' s)) = String c "" :: code_points (String c' s).
Proof. intros H. cbn [code_points]. now rewrite H. Qed.

Lemma code_points_str_of_code_points (l : list string) :
  characters l -> code_points (str_of_code_points l) = l.
Proof.
  induction l as [|p l IH]; intros H; [reflexivity|].
  pose proof (IH (characters_tail _ _ H)) as IHl. clear IH.
  destruct H as [Hp Hrest].
  destruct p as [|c tail]; [destruct Hp|]. cbn [is_character] in Hp.
  change (str_of_code_points (String c tail :: l))
    with (String c (tail ++ str_of_code_points l)).
  revert c Hp. induction tail as [|d tail IHt]; intros c Hp.
  - cbn [append].
    destruct l as [|q rest]; [reflexivity|].
    inversion Hrest as [|? ? [Hq Hstart] _]; subst.
    destruct q as [|c' t]; [destruct Hq|]. cbn [starts_character] in Hstart.
    change (str_of_code_points (String c' t :: rest))
      with (String c' (t ++ str_of_code_points rest)) in *.
    rewrite code_points_String_start by exact Hstart.
    now rewrite IHl.
  - cbn [continuation_bytes] in Hp. apply andb_true_iff in Hp. destruct Hp as [Hd Ht].
    cbn [append]. rewrite code_points_String_continuation by exact Hd.
    now rewrite (IHt d Ht).
Qed.

Lemma characters_lstrip (l : list string) : characters l -> characters (lstrip l).
Proof.
  induction l as [|p l IH]; intros H; [exact I|].
  cbn [lstrip]. destruct (is_whitespace p); [|exact H].
  apply IH. exact (characters_tail _ _ H).
Qed.

Lemma Forall_rstrip (P : string -> Prop) (l : list string) :
  Forall P l -> Forall P (rstrip l).
Proof.
  induction 1 as [|p l Hp Hl IH]; [constructor|].
  cbn [rstrip]. destruct (rstrip l) as [|q r].
  - destruct (is_whitespace p); [constructor | now constructor].
  - now constructor.
Qed.

Lemma characters_rstrip (l : list string) : characters l -> characters (rstrip l).
Proof.
  destruct l as [|p l]; [intros _; exact I|]. intros [Hp Hrest].
  apply (Forall_rstrip _ l) in Hrest.
  cbn [rstrip]. destruct (rstrip l) as [|q r].
  - destruct (is_whitespace p); [exact I | now split].
  - now split.
Qed.

(** Trimming what is trimmed changes nothing. *)
Lemma strip_idempotent (s : string) : strip (strip s) = strip s.
Proof.
  unfold strip.
  rewrite code_points_str_of_code_points
    by apply characters_rstrip, characters_lstrip, code_points_characters.
  now rewrite lstrip_rstrip_lstrip, rstrip_idempotent.
Qed.

(** ** The status of a record *)

Lemma match_status_perfect_iff {U : Unicode} (resolved truth : string) :
  match_status resolved truth = PerfectMatch <-> resolved = truth.
Proof.
  unfold match_status. destruct (String.eqb resolved truth) eqn:E.
  - apply String.eqb_eq in E. tauto.
  - apply String.eqb_neq in E.
    destruct (Qgtb _ _); [split; [discriminate | contradiction]|].
    destruct (Qgtb _ _); [split; [discriminate | contradiction]|].
    destruct (String.eqb resolved ""); split; try discriminate; contradiction.
Qed.

Lemma match_status_missing_iff {U : Unicode} (resolved truth : string) :
  match_status resolved truth = MissingInJson <-> resolved = "" /\ truth <> "".
Proof.
  split.
  - intros H. pose proof (match_status_missing resolved truth H) as ->.
    split; [reflexivity|]. intros ->. discriminate.
  - intros [-> Ht]. rewrite match_status_empty_l.
    apply String.eqb_neq in Ht. now rewrite Ht.
Qed.

Section ReconcileMore.

Context {U : Unicode}.
Variable repr_str : string -> string.

Lemma normalize_value_trimmed (v : value) :
  strip (normalize_value repr_str v) = normalize_value repr_str v.
Proof.
  unfold normalize_value. destruct v; try apply strip_idempotent. reflexivity.
Qed.

Lemma first_present_trimmed flattened_data (possible_keys : list string) :
  strip (first_present repr_str flattened_data possible_keys)
  = first_present repr_str flattened_data possible_keys.
Proof.
  induction possible_keys as [|key rest IH]; [reflexivity|].
  cbn [first_present]. destruct (dict_get flattened_data key) as [v|]; [|exact IH].
  apply normalize_value_trimmed.
Qed.

Lemma resolve_trimmed flattened_data field_name current_count :
  strip (resolve repr_str flattened_data field_name current_count)
  = resolve repr_str flattened_data field_name current_count.
Proof.
  unfold resolve.
  destruct (is_single_entry field_name && (1 <? current_count)%nat); [reflexivity|].
  destruct (dict_get field_mappings field_name) as [[|c stem]|];
    try reflexivity; apply first_present_trimmed.
Qed.

(** Nothing resolves in an empty document. *)
Lemma first_present_empty (possible_keys : list string) :
  first_present repr_str [] possible_keys = "".
Proof. induction possible_keys as [|key rest IH]; [reflexivity | exact IH]. Qed.

Lemma resolve_empty field_name current_count :
  resolve repr_str [] field_name current_count = "".
Proof.
  unfold resolve.
  destruct (is_single_entry field_name && (1 <? current_count)%nat); [reflexivity|].
  destruct (dict_get field_mappings field_name) as [[|c stem]|];
    try reflexivity; apply first_present_empty.
Qed.

(** ** The rows kept, and the rows that raise *)

Lemma ground_truth_rows_trimmed cols truth_col remaining : forall ground_truth,
  ground_truth_rows repr_str cols truth_col remaining = Ok ground_truth ->
  Forall (fun ft => strip (snd ft) = snd ft) ground_truth.
Proof.
  induction remaining as [|row rest IH]; intros gt H; cbn [ground_truth_rows] in H.
  - injection H as <-. constructor.
  - destruct (row_get cols row "Field") as [ | bo | n | r | field_name | l | l ];
      try (destruct (truthy _); [discriminate | now apply IH]).
    destruct (negb (nonempty field_name) || String.eqb (strip field_name) "");
      [now apply IH|].
    destruct (ground_truth_rows repr_str cols truth_col rest) as [l|e]; [|discriminate].
    injection H as <-. constructor; [|now apply IH].
    cbn [snd]. apply normalize_value_trimmed.
Qed.

(** The loop raises exactly when a [Field] cell is truthy and not a
    [str]; otherwise it keeps the rows whose cell is a [str] with more than
    white space in it. *)
Lemma ground_truth_rows_cells cols truth_col remaining :
  let cells := map (fun row => row_get cols row "Field") remaining in
  if existsb field_cell_raises cells
  then ground_truth_rows repr_str cols truth_col remaining = Raise AttributeError
  else exists ground_truth,
         ground_truth_rows repr_str cols truth_col remaining = Ok ground_truth
         /\ length ground_truth = length (filter field_cell_kept cells).
Proof.
  cbv zeta. induction remaining as [|row rest IH]; cbn [map existsb filter ground_truth_rows].
  - now exists [].
  - destruct (row_get cols row "Field") as [ | bo | n | r | field_name | l | l ] eqn:E;
      cbn [field_cell_raises field_cell_kept orb];
      try (destruct (truthy _) eqn:Ht; cbn [orb]; [reflexivity | exact IH]).
    destruct (negb (nonempty field_name) || String.eqb (strip field_name) "");
      cbn [negb]; [exact IH|].
    destruct (existsb field_cell_raises _).
    + now rewrite IH.
    + destruct IH as [gt [-> Hlen]]. eexists. split; [reflexivity|].
      cbn [length]. now rewrite Hlen.
Qed.

Lemma length_reconcile_from flattened_data ground_truth : forall field_counters,
  length (reconcile_from repr_str flattened_data field_counters ground_truth)
  = length ground_truth.
Proof.
  induction ground_truth as [|[f t] rest IH]; intros fc; [reflexivity|].
  cbn [reconcile_from]. unfold compare_row.
  destruct (count_field fc f) as [fc' c]. cbn [length]. now rewrite IH.
Qed.

Lemma reconcile_from_Forall_rows (Q : string * string -> Prop)
    (P : ComparisonRow -> Prop) flattened_data :
  (forall field_name truth_value count,
      Q (field_name, truth_value) ->
      P (comparison_record repr_str flattened_data field_name truth_value count)) ->
  forall ground_truth field_counters,
    Forall Q ground_truth ->
    Forall P (reconcile_from repr_str flattened_data field_counters ground_truth).
Proof.
  intros HP. induction ground_truth as [|[f t] rest IH]; intros fc HQ;
    cbn [reconcile_from]; [constructor|].
  inversion HQ as [|? ? Hq HQ']; subst.
  unfold compare_row. destruct (count_field fc f) as [fc' c].
  constructor; [now apply HP | now apply IH].
Qed.

(** What a call returns: nothing, or the records of the rows kept. *)
Lemma compare_with_ground_truth_returns flattened_data df out :
  returned (compare_with_ground_truth repr_str flattened_data df) = Ok out ->
  out = []
  \/ exists truth_col ground_truth,
       truth_column df = Some truth_col
       /\ ground_truth_rows repr_str (columns df) truth_col (rows df) = Ok ground_truth
       /\ out = reconcile repr_str flattened_data ground_truth.
Proof.
  destruct (truth_column df) as [truth_col|] eqn:Hcol.
  - rewrite (compare_with_ground_truth_reconcile repr_str flattened_data df truth_col Hcol).
    cbn [returned].
    destruct (ground_truth_rows repr_str (columns df) truth_col (rows df)) as [gt|e] eqn:E;
      [|discriminate].
    intros H. injection H as <-. right. now exists truth_col, gt.
  - unfold truth_column in Hcol. unfold compare_with_ground_truth.
    destruct (mem "Field" (columns df)); cbn [negb].
    + destruct (filter _ (columns df)) as [|c others]; [|discriminate].
      cbn [returned]. intros H. injection H as <-. now left.
    + cbn [returned]. intros H. injection H as <-. now left.
Qed.

End ReconcileMore.

Lemma count_status_none (df : list ComparisonRow) (text : string) :
  Forall (fun r => status_text (Row_Status r) <> text) df ->
  count_status df text = 0%nat.
Proof.
  induction 1 as [|r df Hr _ IH]; [reflexivity|].
  rewrite count_status_cons, IH.
  apply String.eqb_neq in Hr. now rewrite Hr.
Qed.

Section ReconcileExtras.

Context {U : Unicode}.
Variable repr_str : string -> string.

(** X10.  In every comparison returned, a record is a Perfect Match
    exactly when its JSON value is its ground truth, and it is Missing in
    JSON exactly when its JSON value is empty and its ground truth is not:
    nothing is similar to the empty string. *)
Theorem missing_iff_empty_json_value :
  forall flattened_data df out,
    returned (compare_with_ground_truth repr_str flattened_data df) = Ok out ->
    Forall (fun r =>
              (Row_Status r = PerfectMatch <-> JSON_Value r = Ground_Truth r)
              /\ (Row_Status r = MissingInJson
                  <-> JSON_Value r = "" /\ Ground_Truth r <> "")) out.
Proof.
  intros flattened_data df out H.
  apply (compare_with_ground_truth_Forall repr_str _ flattened_data df out); [|exact H].
  intros field_name truth_value count.
  cbn [comparison_record Row_Status JSON_Value Ground_Truth].
  split; [exact (match_status_perfect_iff _ _) | exact (match_status_missing_iff _ _)].
Qed.

(** X11.  A frame that has its columns is compared without a message.
    The call raises [AttributeError] exactly when some row has a [Field]
    cell that is truthy and not a [str] (a number, [nan], a list that is
    not empty); otherwise it returns one record for every row whose cell
    is a [str] with more than white space in it, and skips the others. *)
Theorem bad_field_cell_raises :
  forall flattened_data df truth_col,
    truth_column df = Some truth_col ->
    st_error (compare_with_ground_truth repr_str flattened_data df) = []
    /\ (existsb field_cell_raises (field_cells df) = true ->
        returned (compare_with_ground_truth repr_str flattened_data df)
        = Raise AttributeError)
    /\ (existsb field_cell_raises (field_cells df) = false ->
        exists out,
          returned (compare_with_ground_truth repr_str flattened_data df) = Ok out
          /\ length out = length (filter field_cell_kept (field_cells df))).
Proof.
  intros flattened_data df truth_col Hcol.
  rewrite (compare_with_ground_truth_reconcile repr_str flattened_data df truth_col Hcol).
  cbn [st_error returned].
  pose proof (ground_truth_rows_cells repr_str (columns df) truth_col (rows df)) as H.
  cbv zeta in H. fold (field_cells df) in H.
  split; [reflexivity|].
  destruct (existsb field_cell_raises (field_cells df)).
  - split; [|discriminate]. intros _. now rewrite H.
  - split; [discriminate|]. intros _.
    destruct H as [gt [-> Hlen]]. eexists. split; [reflexivity|].
    unfold reconcile. now rewrite length_reconcile_from.
Qed.

(** X12.  The two values of every record returned are trimmed: neither
    the JSON value nor the ground truth starts or ends with white space. *)
Theorem compared_values_are_trimmed :
  forall flattened_data df out,
    returned (compare_with_ground_truth repr_str flattened_data df) = Ok out ->
    Forall (fun r =>
              strip (JSON_Value r) = JSON_Value r
              /\ strip (Ground_Truth r) = Ground_Truth r) out.
Proof.
  intros flattened_data df out H.
  apply compare_with_ground_truth_returns in H.
  destruct H as [-> | [truth_col [gt [_ [Hrows ->]]]]]; [constructor|].
  unfold reconcile.
  apply (reconcile_from_Forall_rows repr_str (fun ft => strip (snd ft) = snd ft)).
  - intros field_name truth_value count Ht.
    cbn [comparison_record JSON_Value Ground_Truth].
    split; [apply resolve_trimmed | exact Ht].
  - exact (ground_truth_rows_trimmed repr_str _ _ _ _ Hrows).
Qed.

(** X13.  Against an empty document every record has an empty JSON
    value and is Missing in JSON, or a Perfect Match where the ground truth
    is empty too; the summary of such a comparison counts no record as
    Very Close, Similar or Mismatch. *)
Theorem empty_document_is_all_missing :
  forall df out,
    returned (compare_with_ground_truth repr_str [] df) = Ok out ->
    Forall (fun r =>
              JSON_Value r = ""
              /\ Row_Status r
                 = if String.eqb (Ground_Truth r) "" then PerfectMatch
                   else MissingInJson) out
    /\ forall summary,
         create_comparison_summary out = Some summary ->
         very_close summary = 0%nat
         /\ similar summary = 0%nat
         /\ mismatches summary = 0%nat
         /\ (perfect_matches summary + missing summary)%nat = total_fields summary.
Proof.
  intros df out H.
  assert (Hall : Forall (fun r =>
              JSON_Value r = ""
              /\ Row_Status r
                 = if String.eqb (Ground_Truth r) "" then PerfectMatch
                   else MissingInJson) out).
  { apply (compare_with_ground_truth_Forall repr_str _ [] df out); [|exact H].
    intros field_name truth_value count.
    cbn [comparison_record Row_Status JSON_Value Ground_Truth].
    rewrite resolve_empty. split; [reflexivity | apply match_status_empty_l]. }
  split; [exact Hall|].
  intros summary Hs.
  assert (Hnot : forall text,
             text <> status_text PerfectMatch -> text <> status_text MissingInJson ->
             count_status out text = 0%nat).
  { intros text Hp Hm. apply count_status_none.
    eapply Forall_impl; [|exact Hall]. cbv beta.
    intros r [_ Hr]. rewrite Hr.
    destruct (String.eqb (Ground_Truth r) ""); congruence. }
  pose proof (count_status_partition out) as Hsum.
  destruct out as [|r out]; [discriminate|].
  unfold create_comparison_summary in Hs.
  apply (f_equal (fun o => match o with Some x => x | None => summary end)) in Hs.
  cbv beta iota in Hs. rewrite <- Hs.
  cbn [very_close similar mismatches perfect_matches missing total_fields].
  rewrite (Hnot "🟨 Very Close") in * by (cbn [status_text]; discriminate).
  rewrite (Hnot "🟧 Similar") in * by (cbn [status_text]; discriminate).
  rewrite (Hnot "❌ Mismatch") in * by (cbn [status_text]; discriminate).
  repeat split; lia.
Qed.

End ReconcileExtras.

(* ================================================================== *)
(** * More properties of the mapper *)
(* ================================================================== *)

Lemma values_dict_map {V W} (f : V -> W) (d : dict V) :
  values (dict_map f d) = map f (values d).
Proof. unfold values, dict_map. rewrite !map_map. reflexivity. Qed.

Lemma dict_map_ext_values {W} (f g : string -> W) (d : dict string) :
  (forall key, In key (values d) -> f key = g key) ->
  dict_map f d = dict_map g d.
Proof.
  intros H. unfold dict_map. apply map_ext_in. intros [label key] Hin.
  cbn [fst snd]. f_equal. apply H. unfold values.
  change key with (snd (label, key)). now apply in_map.
Qed.

Lemma mem_false_not_In (x : string) (l : list string) : mem x l = false -> ~ In x l.
Proof.
  intros Hm Hin. unfold mem in Hm.
  assert (existsb (String.eqb x) l = true) as Ht
    by (apply existsb_exists; exists x; split; [exact Hin | apply String.eqb_refl]).
  congruence.
Qed.

Section MapperMore.

Context {U : Unicode}.
Variable repr_str : string -> string.
Variable json_loads : string -> option value.

(** A cleaned value is never the text "null", in any letter case. *)
Lemma clean_value_not_null (v : value) : lower (clean_value repr_str v) <> "null".
Proof.
  unfold clean_value.
  destruct v; try discriminate;
    (destruct (String.eqb (lower (py_str repr_str _)) "null") eqn:E;
       [discriminate | now apply String.eqb_neq in E]).
Qed.

(** The three entry points on the [data] they work on. *)
Lemma map_sec_gis_fields_parsed (json_data : value) :
  map_sec_gis_fields repr_str json_loads json_data
  = match parsed json_loads json_data with
    | None => Raise JSONDecodeError
    | Some (VDict data) => map_sec_gis_fields repr_str json_loads (VDict data)
    | Some _ => Raise AttributeError
    end.
Proof.
  destruct json_data as [ | bo | n | r | text | l | data ]; cbn [parsed].
  1-4: reflexivity.
  2-3: reflexivity.
  unfold map_sec_gis_fields.
  destruct (json_loads text) as [[ | bo | n | r | s | l | data ]|]; reflexivity.
Qed.

Lemma flatten_json_data_parsed (json_data : value) :
  flatten_json_data json_loads json_data
  = match parsed json_loads json_data with
    | None => Raise ValueError
    | Some data => Ok (flatten_dict data "" "_")
    end.
Proof.
  destruct json_data as [ | bo | n | r | text | l | data ]; cbn [parsed].
  1-4: reflexivity.
  2-3: reflexivity.
  unfold flatten_json_data. destruct (json_loads text); reflexivity.
Qed.

Lemma analyze_json_structure_parsed (json_data : value) :
  analyze_json_structure json_loads json_data
  = match parsed json_loads json_data with
    | None => Raise JSONDecodeError
    | Some data => Ok (analyze_recursive data "")
    end.
Proof.
  destruct json_data as [ | bo | n | r | text | l | data ]; cbn [parsed].
  1-4: reflexivity.
  2-3: reflexivity.
  unfold analyze_json_structure. destruct (json_loads text); reflexivity.
Qed.

(** The mapper returns for a dictionary, given or parsed, and for
    nothing else. *)
Lemma map_sec_gis_fields_Ok (json_data : value) (output : dict string) :
  map_sec_gis_fields repr_str json_loads json_data = Ok output ->
  exists data,
    parsed json_loads json_data = Some (VDict data)
    /\ output
       = dict_map (fun key => clean_value repr_str (dict_get_default data key (VStr "")))
           sec_gis_catalog.
Proof.
  intros H. rewrite map_sec_gis_fields_parsed in H.
  destruct (parsed json_loads json_data) as [v|]; [|discriminate H].
  destruct v as [ | bo | n | r | s | l | data ].
  1-6: discriminate H.
  exists data. split; [reflexivity|].
  rewrite map_sec_gis_fields_dict in H.
  apply (f_equal (fun r => match r with Ok o => o | Raise _ => output end)) in H.
  cbv beta iota in H. exact (eq_sym H).
Qed.

(** X14.  No value of the mapper's output is the text "null", whatever
    the letter case: the cleaning loop leaves the empty string in its
    place. *)
Theorem mapper_output_never_null :
  forall json_data output,
    map_sec_gis_fields repr_str json_loads json_data = Ok output ->
    Forall (fun v => lower v <> "null") (values output).
Proof.
  intros json_data output H.
  apply map_sec_gis_fields_Ok in H. destruct H as [data [_ ->]].
  rewrite values_dict_map. apply Forall_map, Forall_forall.
  intros key _. apply clean_value_not_null.
Qed.

(** X15.  The mapper reads the source keys of its catalog and nothing
    else: two documents that agree on these keys are mapped to the same
    output, so a key the catalog does not name can be added, changed or
    removed without effect. *)
Theorem mapper_reads_catalog_keys_only :
  forall data data' : dict value,
    (forall key, In key (values sec_gis_catalog) ->
                 dict_get data key = dict_get data' key) ->
    map_sec_gis_fields repr_str json_loads (VDict data)
    = map_sec_gis_fields repr_str json_loads (VDict data').
Proof.
  intros data data' H. rewrite !map_sec_gis_fields_dict.
  rewrite (dict_map_ext_values
             (fun key => clean_value repr_str (dict_get_default data key (VStr "")))
             (fun key => clean_value repr_str (dict_get_default data' key (VStr "")))
             sec_gis_catalog); [reflexivity|].
  intros key Hin. unfold dict_get_default. now rewrite (H key Hin).
Qed.

(** X16.  The three entry points parse a text the same way and fail
    differently.  On a text that is not JSON the flattener raises
    [ValueError], the mapper and the analyzer [JSONDecodeError].  On a
    document that is not a dictionary the mapper raises [AttributeError],
    the flattener returns the flat map of the document and the analyzer
    an empty analysis.  On a dictionary all three return. *)
Theorem entry_points_fail_differently :
  forall json_data,
    match parsed json_loads json_data with
    | None =>
        flatten_json_data json_loads json_data = Raise ValueError
        /\ map_sec_gis_fields repr_str json_loads json_data = Raise JSONDecodeError
        /\ analyze_json_structure json_loads json_data = Raise JSONDecodeError
    | Some (VDict data) =>
        flatten_json_data json_loads json_data = Ok (flatten_dict (VDict data) "" "_")
        /\ (exists output,
              map_sec_gis_fields repr_str json_loads json_data = Ok output
              /\ keys output = keys sec_gis_catalog)
        /\ analyze_json_structure json_loads json_data
           = Ok (analyze_recursive (VDict data) "")
    | Some data =>
        flatten_json_data json_loads json_data = Ok (flatten_dict data "" "_")
        /\ map_sec_gis_fields repr_str json_loads json_data = Raise AttributeError
        /\ analyze_json_structure json_loads json_data = Ok empty_analysis
    end.
Proof.
  intros json_data.
  rewrite (map_sec_gis_fields_parsed json_data), (flatten_json_data_parsed json_data),
          (analyze_json_structure_parsed json_data).
  destruct (parsed json_loads json_data) as [v|];
    [|split; [reflexivity | split; reflexivity]].
  destruct v as [ | bo | n | r | s | l | data ].
  1-6: (split; [reflexivity | split; reflexivity]).
  split; [reflexivity|]. split; [|reflexivity].
  eexists. split; [apply map_sec_gis_fields_dict | apply keys_dict_map].
Qed.

End MapperMore.

(* ================================================================== *)
(** * Properties of the names: display names and candidate keys *)
(* ================================================================== *)

Ltac ascii_cases c := destruct c as [[] [] [] [] [] [] [] []].

(** ** Characters *)

Lemma lower_char_lower_char c : lower_char (lower_char c) = lower_char c.
Proof. ascii_cases c; reflexivity. Qed.

Lemma upper_char_upper_char c : upper_char (upper_char c) = upper_char c.
Proof. ascii_cases c; reflexivity. Qed.

Lemma upper_char_lower_char c : upper_char (lower_char c) = upper_char c.
Proof. ascii_cases c; reflexivity. Qed.

Lemma is_cased_lower_char c : is_cased (lower_char c) = is_cased c.
Proof. ascii_cases c; reflexivity. Qed.

Lemma is_cased_upper_char c : is_cased (upper_char c) = is_cased c.
Proof. ascii_cases c; reflexivity. Qed.

Lemma is_upper_lower_char c : is_upper (lower_char c) = false.
Proof. ascii_cases c; reflexivity. Qed.

Lemma lower_char_underscore_to_space c :
  lower_char (underscore_to_space c) = underscore_to_space (lower_char c).
Proof. ascii_cases c; reflexivity. Qed.

Lemma underscore_to_space_idempotent c :
  underscore_to_space (underscore_to_space c) = underscore_to_space c.
Proof. ascii_cases c; reflexivity. Qed.

(** Changing the case of what [replace] left makes no underscore. *)
Lemma underscore_to_space_cased c :
  underscore_to_space (lower_char (underscore_to_space c))
  = lower_char (underscore_to_space c)
  /\ underscore_to_space (upper_char (underscore_to_space c))
     = upper_char (underscore_to_space c).
Proof. ascii_cases c; split; reflexivity. Qed.

Lemma cased_not_underscore c :
  Ascii.eqb "_" (lower_char (underscore_to_space c)) = false
  /\ Ascii.eqb "_" (upper_char (underscore_to_space c)) = false.
Proof. ascii_cases c; split; reflexivity. Qed.

(** ** [replace] *)

Lemma chars_append (s1 s2 : string) : chars (s1 ++ s2) = (chars s1 ++ chars s2)%list.
Proof.
  unfold chars. induction s1 as [|c s1 IH]; [reflexivity|].
  cbn [append list_ascii_of_string app]. now rewrite IH.
Qed.

Lemma occurs_append c (s1 s2 : string) :
  occurs c (s1 ++ s2) = occurs c s1 || occurs c s2.
Proof. unfold occurs. now rewrite chars_append, existsb_app. Qed.

Lemma occurs_String c c0 s : occurs c (String c0 s) = Ascii.eqb c c0 || occurs c s.
Proof. reflexivity. Qed.

(** A replacement brings in no character that is neither in the text
    nor in the new string. *)
Lemma occurs_replace_from c old new :
  occurs c new = false ->
  forall s skip, occurs c s = false -> occurs c (replace_from old new skip s) = false.
Proof.
  intros Hnew. induction s as [|c0 s IH]; intros skip Hs; [reflexivity|].
  rewrite occurs_String in Hs. apply orb_false_iff in Hs. destruct Hs as [Hc Hs].
  cbn [replace_from]. destruct skip as [|k]; [|now apply IH].
  destruct (prefix old (String c0 s)).
  - rewrite occurs_append, Hnew. now apply IH.
  - rewrite occurs_String, Hc. now apply IH.
Qed.

Lemma occurs_replace c old new s :
  occurs c new = false -> occurs c s = false -> occurs c (replace old new s) = false.
Proof. intros Hnew Hs. now apply occurs_replace_from. Qed.

(** Replacing a character removes it, when the new string has none. *)
Lemma occurs_replace_char c new s :
  occurs c new = false -> occurs c (replace (String c "") new s) = false.
Proof.
  intros Hnew. unfold replace. induction s as [|c0 s IH]; [reflexivity|].
  cbn [replace_from prefix String.length Nat.sub].
  destruct (ascii_dec c c0) as [->|Hne].
  - assert (prefix "" s = true) as -> by now destruct s.
    now rewrite occurs_append, Hnew.
  - rewrite occurs_String, IH.
    apply Ascii.eqb_neq in Hne. now rewrite Hne.
Qed.

(** [replace('_', ' ')], character by character. *)
Lemma replace_underscore (s : string) : replace "_" " " s = smap underscore_to_space s.
Proof.
  unfold replace. induction s as [|c s IH]; [reflexivity|].
  cbn [replace_from prefix String.length Nat.sub smap].
  unfold underscore_to_space at 1.
  destruct (ascii_dec "_" c) as [<-|Hne].
  - assert (prefix "" s = true) as -> by now destruct s.
    cbn [Ascii.eqb Bool.eqb append]. now rewrite IH.
  - rewrite IH. assert (Ascii.eqb c "_" = false) as ->; [|reflexivity].
    apply Ascii.eqb_neq. congruence.
Qed.

Lemma occurs_lower_ascii c s : is_upper c = true -> occurs c (lower_ascii s) = false.
Proof.
  intros Hc. induction s as [|c0 s IH]; [reflexivity|].
  cbn [lower_ascii]. rewrite occurs_String, IH, orb_false_r.
  apply Ascii.eqb_neq. intros ->. now rewrite is_upper_lower_char in Hc.
Qed.

(** Lowering leaves no ASCII capital. *)
Lemma occurs_lower {U : Unicode} c s : is_upper c = true -> occurs c (lower s) = false.
Proof.
  intros Hc. unfold lower. destruct (is_ascii s).
  - now apply occurs_lower_ascii.
  - rewrite <- unicode_lower_lower_ascii. now apply occurs_lower_ascii.
Qed.

Lemma ascii_text_is_ascii (s : string) : ascii_text s -> is_ascii s = true.
Proof.
  unfold ascii_text, chars. induction s as [|c s IH]; intros H; [reflexivity|].
  cbn [list_ascii_of_string] in H. inversion H as [|? ? Hc Hs]; subst.
  cbn [is_ascii]. rewrite (IH Hs), andb_true_r. now apply Nat.ltb_lt.
Qed.

(** ** [title] *)

Lemma smap_smap_underscore s :
  smap underscore_to_space (smap underscore_to_space s) = smap underscore_to_space s.
Proof.
  induction s as [|c s IH]; [reflexivity|].
  cbn [smap]. now rewrite underscore_to_space_idempotent, IH.
Qed.

Lemma lower_smap_underscore s :
  lower_ascii (smap underscore_to_space s) = smap underscore_to_space (lower_ascii s).
Proof.
  induction s as [|c s IH]; [reflexivity|].
  cbn [smap lower_ascii]. now rewrite lower_char_underscore_to_space, IH.
Qed.

Lemma title_from_lower s : forall previous_is_cased,
  title_from previous_is_cased (lower_ascii s) = title_from previous_is_cased s.
Proof.
  induction s as [|c s IH]; intros p; [reflexivity|].
  cbn [lower_ascii title_from].
  now rewrite lower_char_lower_char, upper_char_lower_char, is_cased_lower_char, IH.
Qed.

Lemma title_from_idempotent s : forall previous_is_cased,
  title_from previous_is_cased (title_from previous_is_cased s)
  = title_from previous_is_cased s.
Proof.
  induction s as [|c s IH]; intros p; [reflexivity|].
  cbn [title_from]. destruct p.
  - now rewrite lower_char_lower_char, is_cased_lower_char, IH.
  - now rewrite upper_char_upper_char, is_cased_upper_char, IH.
Qed.

Lemma smap_title_from s : forall previous_is_cased,
  smap underscore_to_space (title_from previous_is_cased (smap underscore_to_space s))
  = title_from previous_is_cased (smap underscore_to_space s).
Proof.
  induction s as [|c s IH]; intros p; [reflexivity|].
  cbn [smap title_from]. rewrite IH.
  destruct (underscore_to_space_cased c) as [Hl Hu].
  destruct p; [now rewrite Hl | now rewrite Hu].
Qed.

Lemma occurs_title_from s : forall previous_is_cased,
  occurs "_" (title_from previous_is_cased (smap underscore_to_space s)) = false.
Proof.
  induction s as [|c s IH]; intros p; [reflexivity|].
  cbn [smap title_from]. rewrite occurs_String, IH, orb_false_r.
  destruct (cased_not_underscore c) as [Hl Hu]. now destruct p.
Qed.

Lemma length_smap f s : String.length (smap f s) = String.length s.
Proof. induction s as [|c s IH]; [reflexivity|]. cbn. now rewrite IH. Qed.

Lemma length_title_from s : forall previous_is_cased,
  String.length (title_from previous_is_cased s) = String.length s.
Proof. induction s as [|c s IH]; intros p; [reflexivity|]. cbn. now rewrite IH. Qed.

(** X17.  On ASCII text the display name of a key forgets the case of
    its letters and the difference between an underscore and a space, so
    keys that differ in these only get the same display name.  The display
    name is as long as the key, holds no underscore, and formatting it
    again changes nothing. *)
Theorem format_field_name_forgets_case_and_underscores {U : Unicode} :
  forall field_name,
    ascii_text field_name ->
    format_field_name (lower field_name) = format_field_name field_name
    /\ format_field_name (replace "_" " " field_name) = format_field_name field_name
    /\ format_field_name (format_field_name field_name) = format_field_name field_name
    /\ String.length (format_field_name field_name) = String.length field_name
    /\ occurs "_" (format_field_name field_name) = false.
Proof.
  intros field_name H. unfold lower. rewrite (ascii_text_is_ascii _ H).
  unfold format_field_name, title.
  rewrite !replace_underscore.
  split; [|split; [|split; [|split]]].
  - now rewrite <- lower_smap_underscore, title_from_lower.
  - now rewrite smap_smap_underscore.
  - now rewrite smap_title_from, title_from_idempotent.
  - now rewrite length_title_from, length_smap.
  - apply occurs_title_from.
Qed.

(** ** Candidate keys *)







(** ** The comprehensive transform *)

Lemma occurs_upper_new c : is_upper c = true -> occurs c "_" = false /\ occurs c "" = false.
Proof.
  intros H. split; [|reflexivity].
  unfold occurs. cbn [chars list_ascii_of_string existsb]. rewrite orb_false_r.
  apply Ascii.eqb_neq. intros ->. discriminate.
Qed.

(** X19.  The comprehensive transform of a label holds no ASCII capital
    and none of the characters space, slash, hyphen, parenthesis, full stop
    and apostrophe. *)
Theorem comprehensive_transform_alphabet {U : Unicode} :
  forall field_name c,
    is_upper c = true
    \/ In c [" "; "/"; "-"; "("; ")"; "."; "'"]%char ->
    occurs c (comprehensive_transform field_name) = false.
Proof.
  intros field_name c H. unfold comprehensive_transform.
  destruct H as [Hup|Hin].
  - destruct (occurs_upper_new c Hup) as [H1 H2].
    repeat (apply occurs_replace; [assumption|]).
    now apply occurs_lower.
  - cbn [In] in Hin.
    destruct Hin as [<-|[<-|[<-|[<-|[<-|[<-|[<-|[]]]]]]]];
      repeat (first [ apply occurs_replace_char; reflexivity
                    | apply occurs_replace; [reflexivity|] ]).
Qed.

(* ================================================================== *)
(** * The theorems at concrete inputs *)
(* ================================================================== *)

#[local] Existing Instance sample_unicode.

(** The classification theorem on a run with three rows. *)
Lemma status_follows_classification_witness :
  exists out,
    returned
      (compare_with_ground_truth sample_repr_str
         [("document_type", VStr "GIS"); ("for_the_year", VInt 2024)]
         {| columns := ["Field"; "Ground Truth"];
            rows := [ [VStr "Document Type"; VStr "GIS"];
                      [VStr "For the year"; VStr "2023"];
                      [VStr "Website/URL"; VStr "example.org"] ] |})
    = Ok out
    /\ Forall (fun r =>
                 Row_Status r = classify_spec (JSON_Value r) (Ground_Truth r)
                 /\ Similarity_Score r
                    = similarity_score (JSON_Value r) (Ground_Truth r)) out.
Proof.
  eexists. split.
  - vm_compute. reflexivity.
  - apply (proj1 (status_follows_classification sample_repr_str)
             [("document_type", VStr "GIS"); ("for_the_year", VInt 2024)]
             {| columns := ["Field"; "Ground Truth"];
                rows := [ [VStr "Document Type"; VStr "GIS"];
                          [VStr "For the year"; VStr "2023"];
                          [VStr "Website/URL"; VStr "example.org"] ] |}).
    vm_compute. reflexivity.
Defined.

(** The second "Corporate Name" of the scenario. *)
Lemma single_entry_repeat_resolves_to_empty_witness :
  exists out r,
    returned
      (compare_with_ground_truth sample_repr_str
         [("business_trade_name", VStr "Acme Inc")]
         {| columns := ["Field"; "Ground Truth"];
            rows := [ [VStr "Corporate Name"; VStr "Acme Inc"];
                      [VStr "Corporate Name"; VStr "Should Be Empty"] ] |})
    = Ok out
    /\ nth_error out 1 = Some r
    /\ JSON_Value r = ""
    /\ Ground_Truth r = "Should Be Empty"
    /\ Row_Status r = MissingInJson.
Proof.
  apply (proj1 (single_entry_repeat_resolves_to_empty sample_repr_str)
           [("business_trade_name", VStr "Acme Inc")]
           {| columns := ["Field"; "Ground Truth"];
              rows := [ [VStr "Corporate Name"; VStr "Acme Inc"];
                        [VStr "Corporate Name"; VStr "Should Be Empty"] ] |}
           "Ground Truth"
           [("Corporate Name", "Acme Inc"); ("Corporate Name", "Should Be Empty")]
           1%nat "Corporate Name" "Should Be Empty").
  - reflexivity.
  - vm_compute. reflexivity.
  - reflexivity.
  - vm_compute. reflexivity.
  - vm_compute. lia.
Defined.

(** The candidate list of the second "Stockholder_Tax ID No. (TIN)", a
    label the override table does not hold. *)
Lemma repeated_label_numbered_key_first_witness :
  possible_keys "Stockholder_Tax ID No. (TIN)" 2
  = [ "stockholder_tax_id_no_tin_2"; "Stockholder_Tax ID No. (TIN)";
      "stockholder_tax_id_no_tin"; "Stockholder_Tax_ID_No._(TIN)";
      "stockholder_tax_id_no._(tin)"; "stockholder_taxidno.(tin)" ].
Proof.
  rewrite (proj1 (repeated_label_numbered_key_first sample_repr_str)
             "Stockholder_Tax ID No. (TIN)" 2%nat).
  - vm_compute. reflexivity.
  - vm_compute. reflexivity.
Defined.

(** A frame without a "Field" column, and one with no other column. *)
Lemma missing_columns_are_reported_witness :
  (returned
     (compare_with_ground_truth sample_repr_str [("document_type", VStr "GIS")]
        {| columns := ["Label"; "Value"];
           rows := [[VStr "Document Type"; VStr "GIS"]] |})
   = Ok []
   /\ (st_error
         (compare_with_ground_truth sample_repr_str [("document_type", VStr "GIS")]
            {| columns := ["Label"; "Value"];
               rows := [[VStr "Document Type"; VStr "GIS"]] |})
       = ["Ground truth data must have a 'Field' column"]
       \/ st_error
            (compare_with_ground_truth sample_repr_str [("document_type", VStr "GIS")]
               {| columns := ["Label"; "Value"];
                  rows := [[VStr "Document Type"; VStr "GIS"]] |})
          = ["Ground truth data must have at least 1 value column (ground truth)"])).
Proof.
  apply (missing_columns_are_reported sample_repr_str).
  left. cbn [columns In]. intros [H|[H|H]]; [discriminate H | discriminate H | exact H].
Defined.

(** The claim as the specification states it fails on that frame: the call
    returns the empty data frame, it raises no exception. *)
Lemma missing_field_column_raises_nothing :
  (mem "Field" ["Label"; "Value"] = false)
  /\ compare_with_ground_truth sample_repr_str [("document_type", VStr "GIS")]
       {| columns := ["Label"; "Value"];
          rows := [[VStr "Document Type"; VStr "GIS"]] |}
     = {| st_error := ["Ground truth data must have a 'Field' column"];
          returned := Ok [] |}
  /\ (forall e,
        returned
          (compare_with_ground_truth sample_repr_str [("document_type", VStr "GIS")]
             {| columns := ["Label"; "Value"];
                rows := [[VStr "Document Type"; VStr "GIS"]] |})
        <> Raise e).
Proof.
  split; [reflexivity|]. split; [reflexivity|].
  intros e. cbn. discriminate.
Qed.

(** "N/A" between a tabulation and a no-break space is kept as "N/A". *)
Lemma null_spellings_are_not_folded_witness :
  normalize_value sample_repr_str (VStr (tabulation ++ "N/A" ++ no_break_space)) = "N/A"
  /\ match_status
       (normalize_value sample_repr_str (VStr (tabulation ++ "N/A" ++ no_break_space)))
       (normalize_value sample_repr_str (VStr (tabulation ++ "N/A" ++ no_break_space)))
     = PerfectMatch.
Proof.
  destruct (proj1 (null_spellings_are_not_folded sample_repr_str)
              (tabulation ++ "N/A" ++ no_break_space)) as [H1 [_ [H3 _]]].
  - left. vm_compute. reflexivity.
  - split; [|exact H3]. rewrite H1. vm_compute. reflexivity.
Defined.

(** The empty field of the second director of the scenario. *)
Lemma map_sec_gis_fields_entry_witness :
  exists output,
    map_sec_gis_fields sample_repr_str sample_json_loads
      (VDict [("document_type", VStr "GIS"); ("director_officer_name_1", VStr "X")])
    = Ok output
    /\ keys output = keys sec_gis_catalog
    /\ dict_get output "Director/Officer 2 Name" = Some "".
Proof.
  apply (proj1 (map_sec_gis_fields_entry sample_repr_str sample_json_loads)
           [("document_type", VStr "GIS"); ("director_officer_name_1", VStr "X")]
           "Director/Officer 2 Name" "director_officer_name_2").
  vm_compute. reflexivity.
Defined.

(** Two spellings of a word with a character outside ASCII. *)
Lemma similarity_of_equal_lowercase_witness :
  lower "CAFé" = lower "café" /\ (similarity_score "CAFé" "café" == 1)%Q.
Proof.
  split; [reflexivity|].
  apply (proj1 similarity_of_equal_lowercase "CAFé" "café"). reflexivity.
Defined.

(* ================================================================== *)
(** * The further theorems at concrete inputs *)
(* ================================================================== *)

(** A row that matches and a row whose key the document does not hold. *)
Lemma missing_iff_empty_json_value_witness :
  exists out,
    returned
      (compare_with_ground_truth sample_repr_str
         [("document_type", VStr "GIS")]
         {| columns := ["Field"; "Ground Truth"];
            rows := [ [VStr "Document Type"; VStr "GIS"];
                      [VStr "For the year"; VStr "2024"] ] |})
    = Ok out
    /\ Forall (fun r =>
                 (Row_Status r = PerfectMatch <-> JSON_Value r = Ground_Truth r)
                 /\ (Row_Status r = MissingInJson
                     <-> JSON_Value r = "" /\ Ground_Truth r <> "")) out.
Proof.
  eexists. split.
  - vm_compute. reflexivity.
  - apply (missing_iff_empty_json_value sample_repr_str
             [("document_type", VStr "GIS")]
             {| columns := ["Field"; "Ground Truth"];
                rows := [ [VStr "Document Type"; VStr "GIS"];
                          [VStr "For the year"; VStr "2024"] ] |}).
    vm_compute. reflexivity.
Defined.

(** A label that pandas read as the number 2024. *)
Lemma bad_field_cell_raises_witness :
  returned
    (compare_with_ground_truth sample_repr_str
       [("document_type", VStr "GIS")]
       {| columns := ["Field"; "Ground Truth"];
          rows := [ [VStr "Document Type"; VStr "GIS"];
                    [VInt 2024; VStr "2024"] ] |})
  = Raise AttributeError.
Proof.
  apply (proj1 (proj2 (bad_field_cell_raises sample_repr_str
                         [("document_type", VStr "GIS")]
                         {| columns := ["Field"; "Ground Truth"];
                            rows := [ [VStr "Document Type"; VStr "GIS"];
                                      [VInt 2024; VStr "2024"] ] |}
                         "Ground Truth" eq_refl))).
  reflexivity.
Defined.

(** Values written with white space around them. *)
Lemma compared_values_are_trimmed_witness :
  exists out,
    returned
      (compare_with_ground_truth sample_repr_str
         [("document_type", VStr "  GIS ")]
         {| columns := ["Field"; "Ground Truth"];
            rows := [ [VStr "Document Type"; VStr " GIS  "] ] |})
    = Ok out
    /\ Forall (fun r =>
                 strip (JSON_Value r) = JSON_Value r
                 /\ strip (Ground_Truth r) = Ground_Truth r) out.
Proof.
  eexists. split.
  - vm_compute. reflexivity.
  - apply (compared_values_are_trimmed sample_repr_str
             [("document_type", VStr "  GIS ")]
             {| columns := ["Field"; "Ground Truth"];
                rows := [ [VStr "Document Type"; VStr " GIS  "] ] |}).
    vm_compute. reflexivity.
Defined.

(** Two rows against the empty document. *)
Lemma empty_document_is_all_missing_witness :
  exists out,
    returned
      (compare_with_ground_truth sample_repr_str []
         {| columns := ["Field"; "Ground Truth"];
            rows := [ [VStr "Document Type"; VStr "GIS"];
                      [VStr "Website/URL"; VStr ""] ] |})
    = Ok out
    /\ Forall (fun r =>
                 JSON_Value r = ""
                 /\ Row_Status r
                    = if String.eqb (Ground_Truth r) "" then PerfectMatch
                      else MissingInJson) out.
Proof.
  eexists. split.
  - vm_compute. reflexivity.
  - apply (proj1 (empty_document_is_all_missing sample_repr_str
                    {| columns := ["Field"; "Ground Truth"];
                       rows := [ [VStr "Document Type"; VStr "GIS"];
                                 [VStr "Website/URL"; VStr ""] ] |}
                    _ eq_refl)).
Defined.

(** A document that spells null in capitals. *)
Lemma mapper_output_never_null_witness :
  exists output,
    map_sec_gis_fields sample_repr_str sample_json_loads
      (VDict [("document_type", VStr "NULL"); ("for_the_year", VInt 2024)])
    = Ok output
    /\ Forall (fun v => lower v <> "null") (values output).
Proof.
  eexists. split.
  - vm_compute. reflexivity.
  - apply (mapper_output_never_null sample_repr_str sample_json_loads
             (VDict [("document_type", VStr "NULL"); ("for_the_year", VInt 2024)])).
    vm_compute. reflexivity.
Defined.

(** A key the catalog does not name. *)
Lemma mapper_reads_catalog_keys_only_witness :
  map_sec_gis_fields sample_repr_str sample_json_loads
    (VDict [("document_type", VStr "GIS")])
  = map_sec_gis_fields sample_repr_str sample_json_loads
      (VDict [("unknown_key", VInt 1); ("document_type", VStr "GIS")]).
Proof.
  apply (mapper_reads_catalog_keys_only sample_repr_str sample_json_loads
           [("document_type", VStr "GIS")]
           [("unknown_key", VInt 1); ("document_type", VStr "GIS")]).
  intros key Hin. cbn [dict_get].
  destruct (String.eqb "unknown_key" key) eqn:E; [|reflexivity].
  apply String.eqb_eq in E. subst key. exfalso. revert Hin.
  apply mem_false_not_In. vm_compute. reflexivity.
Defined.

(** The summary of a comparison of two rows. *)
Lemma summary_counts_add_up_witness :
  exists summary,
    create_comparison_summary
      (reconcile sample_repr_str [("document_type", VStr "GIS")]
         [("Document Type", "GIS"); ("For the year", "2024")])
    = Some summary
    /\ total_fields summary = 2%nat
    /\ (perfect_matches summary + very_close summary + similar summary
        + missing summary + mismatches summary)%nat = total_fields summary.
Proof.
  eexists. split; [vm_compute; reflexivity|].
  destruct (summary_counts_add_up
              (reconcile sample_repr_str [("document_type", VStr "GIS")]
                 [("Document Type", "GIS"); ("For the year", "2024")])
              _ eq_refl) as [H1 [H2 _]].
  split; [exact H1 | exact H2].
Defined.

(** A key written in capitals. *)
Lemma format_field_name_forgets_case_and_underscores_witness :
  format_field_name (lower "Corporate_TIN") = format_field_name "Corporate_TIN"
  /\ format_field_name "Corporate_TIN" = "Corporate Tin".
Proof.
  split; [|reflexivity].
  apply (format_field_name_forgets_case_and_underscores "Corporate_TIN").
  repeat constructor.
Defined.


(** A label with capitals, spaces and full stops. *)
Lemma comprehensive_transform_alphabet_witness :
  occurs " " (comprehensive_transform "SEC Reg. No.") = false
  /\ comprehensive_transform "SEC Reg. No." = "sec_reg_no".
Proof.
  split; [|reflexivity].
  apply (comprehensive_transform_alphabet "SEC Reg. No." " "%char).
  right. now left.
Defined.
